(** * 2048Py: the stateless rules engine of [src/core.py]

    A shallow embedding of the board operations of [core.py] and the
    properties of its move engine, board queries and status evaluator.

    Python integers are unbounded, so tiles are [Z].  A board is a list of
    rows, [list (list Z)].  Exceptions are values of [result].  The only
    ambient state of the module, the generator behind [random.choice] and
    [random.random], is threaded explicitly. *)

From stdpp Require Import base list strings sorting.
From Stdlib Require Import ZArith Lia.

Open Scope Z_scope.

(** ** Enumerations *)

Inductive GameProgressState : Set :=
| IN_PROGRESS
| GAME_OVER
| GAME_WON.

Inductive DIRECTION : Set :=
| UP
| DOWN
| LEFT
| RIGHT.

(** ** Exceptions *)

Inductive exn : Set :=
| ValueError.

Inductive result (A : Type) : Type :=
| Ok (a : A)
| Raise (e : exn).
Arguments Ok {A} a.
Arguments Raise {A} e.

Definition result_bind {A B : Type} (m : result A) (k : A -> result B) : result B :=
  match m with
  | Ok a => k a
  | Raise e => Raise e
  end.

Notation "'try' x <- m ; k" := (result_bind m (fun x => k))
  (at level 10, x name, m at level 100, k at level 200,
   format "'[v' 'try'  x  <-  m ; '/' k ']'").

(** ** The random source

    [random.choice] and [random.random] read and advance the state of a
    generator that lives outside of [core.py].  It is modelled as an
    arbitrary stream of raw draws with a cursor: every call consumes one
    draw.  [random.choice seq] reduces its draw to an index below
    [len(seq)]; the event [random.random() < 0.1] is a two-valued function
    of its draw.  Every sequence of outcomes of the two calls is produced by
    some stream, and the theorems quantify over all of them. *)

Record rng : Type := { stream : nat -> nat; cursor : nat }.

Definition next_draw (g : rng) : nat * rng :=
  (stream g (cursor g), {| stream := stream g; cursor := S (cursor g) |}).

(** [random.choice] is only called on a non-empty list. *)
Definition random_choice {A : Type} `{Inhabited A} (seq : list A) (g : rng) : A * rng :=
  let '(x, g') := next_draw g in
  (seq !!! (x mod length seq)%nat, g').

Definition random_below_tenth (g : rng) : bool * rng :=
  let '(x, g') := next_draw g in
  (Nat.eqb (x mod 10)%nat 0%nat, g').

(** ** Board helper functions *)

(** [board[r][c]].  Every function that indexes a board first calls
    [get_board_size], which raises unless the board is a non-empty square,
    and then only uses indices from [range(n)], or a neighbour of such an
    index behind a bounds test.  The lookup is in range wherever its value
    is used, so what the total lookup returns out of range (where Python
    raises [IndexError], or wraps a negative index) plays no part. *)
Definition cell (board : list (list Z)) (r c : nat) : Z :=
  (board !!! r) !!! c.

Definition is_empty_list {A : Type} (l : list A) : bool :=
  match l with
  | [] => true
  | _ :: _ => false
  end.

Definition get_board_size (board : list (list Z)) : result nat :=
  if is_empty_list board
     || negb (forallb (fun row => Nat.eqb (length row) (length board)) board)
  then Raise ValueError
  else Ok (length board).

Definition get_empty_cells (board : list (list Z)) : result (list (nat * nat)) :=
  try n <- get_board_size board;
  Ok (foldl (fun empty_cells row =>
        foldl (fun empty_cells col =>
                 if cell board row col =? 0
                 then empty_cells ++ [(row, col)]
                 else empty_cells)
              empty_cells (seq 0 n))
      [] (seq 0 n)).

(** [[list(row) for row in board]]: a copy has the same content. *)
Definition copy_board (board : list (list Z)) : list (list Z) :=
  (fun row => row) <$> board.

(** [new_board[row][col] = v] *)
Definition set_cell (board : list (list Z)) (r c : nat) (v : Z) : list (list Z) :=
  <[r := <[c := v]> (board !!! r)]> board.

Definition add_random_tile (board : list (list Z)) (g : rng)
  : result (list (list Z) * bool) * rng :=
  match get_empty_cells board with
  | Raise e => (Raise e, g)
  | Ok empty_cells =>
      if is_empty_list empty_cells then (Ok (copy_board board, false), g)
      else
        let new_board := copy_board board in
        let '((row, col), g1) := random_choice empty_cells g in
        let '(four, g2) := random_below_tenth g1 in
        (Ok (set_cell new_board row col (if four then 4 else 2), true), g2)
  end.

(** The argument of [initialize_board] is dynamically typed: the function
    tests [isinstance(size, int)] itself.  [PyInt] stands for the instances
    of [int] (a Python [bool] is one, with value 0 or 1), [PyNotInt] for
    every other object. *)
Inductive py_arg : Set :=
| PyInt (z : Z)
| PyNotInt.

Definition initialize_board (size : py_arg) (g : rng)
  : result (list (list Z) * Z * GameProgressState) * rng :=
  match size with
  | PyNotInt => (Raise ValueError, g)
  | PyInt size =>
      if size <=? 0 then (Raise ValueError, g)
      else
        let n := Z.to_nat size in
        let current_board := replicate n (replicate n 0) in
        match add_random_tile current_board g with
        | (Raise e, g1) => (Raise e, g1)
        | (Ok (current_board, _), g1) =>
            match add_random_tile current_board g1 with
            | (Raise e, g2) => (Raise e, g2)
            | (Ok (current_board, _), g2) =>
                (Ok (current_board, 0, IN_PROGRESS), g2)
            end
        end
  end.

(** ** Line manipulation *)

Definition _compress_line (line : list Z) : list Z * bool :=
  let n := length line in
  let new_line_compressed := filter (fun i => i ≠ 0) line in
  let new_line_compressed :=
    new_line_compressed ++ replicate (n - length new_line_compressed) 0 in
  (new_line_compressed, bool_decide (new_line_compressed ≠ line)).

(** The [while read_idx < n] loop of [_merge_line].  [read_idx] grows in
    every iteration, so [n] iterations are enough ([merge_loop_exits]).
    [write_idx] never passes [read_idx], so every assignment
    [new_line_merged[write_idx] = ...] is in range: all written values are
    found in the result ([merge_line_spec]). *)
Fixpoint merge_loop (fuel : nat) (line : list Z) (n read_idx write_idx : nat)
    (new_line_merged : list Z) (score_increase : Z) : list Z * Z :=
  match fuel with
  | O => (new_line_merged, score_increase)
  | S fuel =>
      if (read_idx <? n)%nat then
        let current_val := line !!! read_idx in
        if current_val =? 0 then
          merge_loop fuel line n (read_idx + 1) write_idx
                     new_line_merged score_increase
        else if (read_idx + 1 <? n)%nat
                && (current_val =? line !!! (read_idx + 1)%nat) then
          let merged_value := current_val * 2 in
          merge_loop fuel line n (read_idx + 2) (write_idx + 1)
                     (<[write_idx := merged_value]> new_line_merged)
                     (score_increase + merged_value)
        else
          merge_loop fuel line n (read_idx + 1) (write_idx + 1)
                     (<[write_idx := current_val]> new_line_merged)
                     score_increase
      else (new_line_merged, score_increase)
  end.

Definition _merge_line (line : list Z) : list Z * Z * bool :=
  let n := length line in
  let '(new_line_merged, score_increase) :=
    merge_loop n line n 0 0 (replicate n 0) 0 in
  (new_line_merged, score_increase, bool_decide (new_line_merged ≠ line)).

Definition _process_single_line_leftwise (line : list Z) : list Z * Z * bool :=
  let '(compressed_line, _) := _compress_line line in
  let '(merged_line, score_delta_from_merge, _) := _merge_line compressed_line in
  let '(final_processed_line, _) := _compress_line merged_line in
  (final_processed_line, score_delta_from_merge,
   bool_decide (final_processed_line ≠ line)).

(** ** Board transformations *)

Definition transpose_board (board : list (list Z)) : result (list (list Z)) :=
  try n <- get_board_size board;
  Ok (foldl (fun new_board r =>
        foldl (fun new_board c => set_cell new_board c r (cell board r c))
              new_board (seq 0 n))
      (replicate n (replicate n 0)) (seq 0 n)).

Definition reverse_rows (board : list (list Z)) : list (list Z) :=
  foldl (fun new_board row => new_board ++ [reverse row]) [] board.

(** ** Move processing *)

Definition _apply_left_processing_to_all_lines (current_board_state : list (list Z))
  : result (list (list Z) * Z * bool) :=
  try n <- get_board_size current_board_state;
  Ok (foldl (fun '(processed_board, total_score_increase, board_changed_overall) r_idx =>
        let line_to_process := processed_board !!! r_idx in
        let '(final_line, score_from_line, line_changed) :=
          _process_single_line_leftwise line_to_process in
        if line_changed
        then (<[r_idx := final_line]> processed_board,
              total_score_increase + score_from_line, true)
        else (processed_board, total_score_increase, board_changed_overall))
      (copy_board current_board_state, 0, false) (seq 0 n)).

(** [direction] ranges over the members of the enumeration; the final
    [else: raise ValueError] of the source is reached by no member, and is
    the second branch of [process_move_any_direction] below. *)
Definition process_move (board : list (list Z)) (direction : DIRECTION)
  : result (list (list Z) * Z * bool) :=
  let board_to_operate_on := copy_board board in
  match direction with
  | LEFT => _apply_left_processing_to_all_lines board_to_operate_on
  | RIGHT =>
      let temp_reversed_board := reverse_rows board_to_operate_on in
      try res <- _apply_left_processing_to_all_lines temp_reversed_board;
      let '(processed_reversed_board, score_gained, move_changed_board) := res in
      if move_changed_board
      then Ok (reverse_rows processed_reversed_board, score_gained, move_changed_board)
      else Ok (board_to_operate_on, score_gained, move_changed_board)
  | UP =>
      try temp_transposed_board <- transpose_board board_to_operate_on;
      try res <- _apply_left_processing_to_all_lines temp_transposed_board;
      let '(processed_transposed_board, score_gained, move_changed_board) := res in
      if move_changed_board
      then try back <- transpose_board processed_transposed_board;
           Ok (back, score_gained, move_changed_board)
      else Ok (board_to_operate_on, score_gained, move_changed_board)
  | DOWN =>
      try temp_transposed_board <- transpose_board board_to_operate_on;
      let temp_reversed_transposed_board := reverse_rows temp_transposed_board in
      try res <- _apply_left_processing_to_all_lines temp_reversed_transposed_board;
      let '(processed_board_intermediate, score_gained, move_changed_board) := res in
      if move_changed_board
      then let unreversed_board := reverse_rows processed_board_intermediate in
           try back <- transpose_board unreversed_board;
           Ok (back, score_gained, move_changed_board)
      else Ok (board_to_operate_on, score_gained, move_changed_board)
  end.

(** ** Game state checks *)

(** [for r in range(n): for c in range(n): if p(r, c): return True] followed
    by [return False]. *)
Definition any_cell (n : nat) (p : nat -> nat -> bool) : bool :=
  existsb (fun r => existsb (fun c => p r c) (seq 0 n)) (seq 0 n).

Definition check_for_win (board : list (list Z)) (win_tile : Z) : result bool :=
  try n <- get_board_size board;
  Ok (any_cell n (fun r c => cell board r c =? win_tile)).

Definition tile_can_move (board : list (list Z)) (n : nat) (direction : DIRECTION)
    (r_idx c_idx : nat) : bool :=
  match direction with
  | UP =>
      (0 <? r_idx)%nat
      && ((cell board (r_idx - 1) c_idx =? 0)
          || (cell board (r_idx - 1) c_idx =? cell board r_idx c_idx))
  | DOWN =>
      (r_idx <? n - 1)%nat
      && ((cell board (r_idx + 1) c_idx =? 0)
          || (cell board (r_idx + 1) c_idx =? cell board r_idx c_idx))
  | LEFT =>
      (0 <? c_idx)%nat
      && ((cell board r_idx (c_idx - 1) =? 0)
          || (cell board r_idx (c_idx - 1) =? cell board r_idx c_idx))
  | RIGHT =>
      (c_idx <? n - 1)%nat
      && ((cell board r_idx (c_idx + 1) =? 0)
          || (cell board r_idx (c_idx + 1) =? cell board r_idx c_idx))
  end.

Definition is_move_possible_in_direction (board : list (list Z)) (direction : DIRECTION)
  : result bool :=
  try n <- get_board_size board;
  Ok (any_cell n (fun r_idx c_idx =>
        if cell board r_idx c_idx =? 0 then false
        else tile_can_move board n direction r_idx c_idx)).

(** [for direction_enum_member in DIRECTION], in declaration order. *)
Fixpoint any_direction (board : list (list Z)) (ds : list DIRECTION) : result bool :=
  match ds with
  | [] => Ok false
  | d :: ds =>
      try possible <- is_move_possible_in_direction board d;
      if possible then Ok true else any_direction board ds
  end.

Definition is_any_move_possible (board : list (list Z)) : result bool :=
  any_direction board [UP; DOWN; LEFT; RIGHT].

Definition determine_game_status (board : list (list Z)) (win_tile : Z)
  : result GameProgressState :=
  try won <- check_for_win board win_tile;
  if won then Ok GAME_WON else
  try empty_cells <- get_empty_cells board;
  try full_and_stuck <-
    (if is_empty_list empty_cells
     then try possible <- is_any_move_possible board; Ok (negb possible)
     else Ok false);
  if full_and_stuck then Ok GAME_OVER else
  try possible <- is_any_move_possible board;
  try stuck_and_full <-
    (if negb possible
     then try empty_cells <- get_empty_cells board; Ok (is_empty_list empty_cells)
     else Ok false);
  if stuck_and_full then Ok GAME_OVER else
  try possible <- is_any_move_possible board;
  try playable <-
    (if possible then Ok true
     else try empty_cells <- get_empty_cells board;
          Ok (negb (is_empty_list empty_cells)));
  if playable then Ok IN_PROGRESS else Ok GAME_OVER.

(** ** The data-model invariant of a board *)

Definition is_power_of_two (z : Z) : bool :=
  (0 <? z) && (z =? 2 ^ Z.log2 z).

Definition tile_ok (z : Z) : bool :=
  (z =? 0) || is_power_of_two z.

Definition square (b : list (list Z)) : bool :=
  negb (is_empty_list b)
  && forallb (fun row => Nat.eqb (length row) (length b)) b.

Definition well_formed (b : list (list Z)) : bool :=
  square b && forallb (forallb tile_ok) b.

(** ** Reference descriptions of the line reducer

    The functions below restate the stages of the line reducer by recursion
    on the line.  They are what the index loops of the source are compared
    with. *)

(** The values written by the merge scan, from the read cursor on: zeros are
    skipped, a tile equal to its right neighbour is written once, doubled,
    and the neighbour is consumed. *)
Fixpoint merge_out (l : list Z) : list Z :=
  match l with
  | [] => []
  | x :: r =>
      if x =? 0 then merge_out r
      else match r with
           | [] => [x]
           | y :: t => if x =? y then x * 2 :: merge_out t
                       else x :: merge_out r
           end
  end.

(** The merged pairs of the scan: [v] stands for the pair [(v, v)]. *)
Fixpoint merged_pairs (l : list Z) : list Z :=
  match l with
  | [] => []
  | x :: r =>
      if x =? 0 then merged_pairs r
      else match r with
           | [] => []
           | y :: t => if x =? y then x :: merged_pairs t
                       else merged_pairs r
           end
  end.

Definition sum_list (l : list Z) : Z := foldr Z.add 0 l.

Definition board_sum (b : list (list Z)) : Z := sum_list (sum_list <$> b).

(** Every merged pair [(v, v)] contributes its output [2v]. *)
Definition merge_outputs (l : list Z) : list Z :=
  (fun v => v * 2) <$> merged_pairs l.

(** Successive writes [new_line[w] = v; w += 1]. *)
Fixpoint write_from (w : nat) (vs : list Z) (new_line : list Z) : list Z :=
  match vs with
  | [] => new_line
  | v :: vs => write_from (S w) vs (<[w := v]> new_line)
  end.

Definition nonzeros (line : list Z) : list Z := filter (fun i => i ≠ 0) line.

Definition pad (n : nat) (l : list Z) : list Z := l ++ replicate (n - length l) 0.

(** A line after compress, merge, compress. *)
Definition slide_left (line : list Z) : list Z :=
  pad (length line) (merge_out (nonzeros line)).

Definition line_score (line : list Z) : Z :=
  sum_list (merge_outputs (nonzeros line)).

(** Some tile of the line has an empty or equal left neighbour. *)
Fixpoint movable (l : list Z) : bool :=
  match l with
  | [] => false
  | x :: r =>
      match r with
      | [] => false
      | y :: _ => (negb (y =? 0) && ((x =? 0) || (x =? y))) || movable r
      end
  end.

(** Row [c] of the transposed board is column [c] of the board. *)
Definition transposed (b : list (list Z)) : list (list Z) :=
  let n := length b in
  (fun c => (fun r => cell b r c) <$> seq 0 n) <$> seq 0 n.

(** The new board of [transpose_board] once the rows below [k] of the source
    are written. *)
Definition transposed_upto (b : list (list Z)) (n k : nat) : list (list Z) :=
  (fun c => ((fun r => cell b r c) <$> seq 0 k) ++ replicate (n - k) 0)
    <$> seq 0 n.

(** The board whose rows run in the direction of travel, first tile in
    front, and the way back. *)
Definition orient (d : DIRECTION) (b : list (list Z)) : list (list Z) :=
  match d with
  | LEFT => b
  | RIGHT => reverse <$> b
  | UP => transposed b
  | DOWN => reverse <$> transposed b
  end.

Definition unorient (d : DIRECTION) (b : list (list Z)) : list (list Z) :=
  match d with
  | LEFT => b
  | RIGHT => reverse <$> b
  | UP => transposed b
  | DOWN => transposed (reverse <$> b)
  end.

(** Where cell [(r, j)] of the oriented board lies on the board itself. *)
Definition source_row (d : DIRECTION) (n r j : nat) : nat :=
  match d with
  | UP => j
  | DOWN => n - 1 - j
  | LEFT | RIGHT => r
  end.

Definition source_col (d : DIRECTION) (n r j : nat) : nat :=
  match d with
  | UP | DOWN => r
  | LEFT => j
  | RIGHT => n - 1 - j
  end.

(** The empty cells in row-major order. *)
Definition empty_in_row (b : list (list Z)) (n r : nat) : list (nat * nat) :=
  (fun c => (r, c)) <$> filter (fun c => cell b r c = 0) (seq 0 n).

Definition empty_cells_ref (b : list (list Z)) (n : nat) : list (nat * nat) :=
  seq 0 n ≫= empty_in_row b n.

(** Every entry is zero or a power of two, as a proposition. *)
Definition tiles_ok (b : list (list Z)) : Prop :=
  Forall (Forall (fun z => tile_ok z = true)) b.

(** The number of tiles on a board. *)
Definition count_nonzero (b : list (list Z)) : nat :=
  length (nonzeros (concat b)).

(** The tiles a fresh game can show. *)
Definition initial_tile (z : Z) : Prop := z = 0 \/ z = 2 \/ z = 4.

(** ** The move engine with an unconditional inverse transform

    [process_move_always_inverse] is [process_move] without the test of the
    changed flag: the inverse transform is applied on every path.  It is the
    composition that the move engine is specified by, and is compared with
    [process_move]. *)

Definition forward_transform (d : DIRECTION) (b : list (list Z))
  : result (list (list Z)) :=
  match d with
  | LEFT => Ok b
  | RIGHT => Ok (reverse_rows b)
  | UP => transpose_board b
  | DOWN => try t <- transpose_board b; Ok (reverse_rows t)
  end.

Definition inverse_transform (d : DIRECTION) (b : list (list Z))
  : result (list (list Z)) :=
  match d with
  | LEFT => Ok b
  | RIGHT => Ok (reverse_rows b)
  | UP => transpose_board b
  | DOWN => transpose_board (reverse_rows b)
  end.

Definition process_move_always_inverse (board : list (list Z)) (direction : DIRECTION)
  : result (list (list Z) * Z * bool) :=
  try oriented <- forward_transform direction (copy_board board);
  try res <- _apply_left_processing_to_all_lines oriented;
  let '(processed, score_gained, move_changed_board) := res in
  try restored <- inverse_transform direction processed;
  Ok (restored, score_gained, move_changed_board).

(** ** The move endpoint of [api.py]

    [make_move] is the body of the handler of [POST /game/move].  The
    request and response models are records with the fields of the source.
    The handler builds its [MoveResponseData] inside the [try] block, and
    the model validates the field constraints that the source declares for
    it ([score] with [ge=0], [win_tile] and [board_size] with [gt=0]): a
    failed validation raises a [ValidationError], which is a [ValueError],
    and the handler answers it like every other [ValueError] of the block.
    What the web framework does before the body runs is outside of this
    file: the rate limiter and the decoding and validation of the request.

    An [HTTPException] keeps its status code and, for its detail text, the
    prefix of the source and the exception whose [str(e)] the source
    appends: exceptions carry no text in this model.  [ValueError] is the
    only exception of the model, so the handlers of [Exception] (status
    500) have nothing to catch. *)

Module MoveRequestData.
Record t : Type := {
  board : list (list Z);
  score : Z;
  direction : DIRECTION;
  win_tile : Z;
}.
End MoveRequestData.

Module MoveResponseData.
Record t : Type := {
  board : list (list Z);
  score : Z;
  progress : GameProgressState;
  win_tile : Z;
  board_size : nat;
  move_was_effective : bool;
  message : option string;
}.
End MoveResponseData.

Record HTTPException : Type := {
  status_code : Z;
  detail : string * exn;
}.

(** The construction of a [MoveResponseData]: the other fields are given
    values of their declared types on every path of the handler. *)
Definition validate_move_response (response : MoveResponseData.t)
  : result MoveResponseData.t :=
  if (0 <=? MoveResponseData.score response)
     && (0 <? MoveResponseData.win_tile response)
     && (0 <? MoveResponseData.board_size response)%nat
  then Ok response
  else Raise ValueError.

Definition make_move (request_data : MoveRequestData.t) (g : rng)
  : (HTTPException + MoveResponseData.t) * rng :=
  let current_board := MoveRequestData.board request_data in
  let current_score := MoveRequestData.score request_data in
  let direction := MoveRequestData.direction request_data in
  let win_tile := MoveRequestData.win_tile request_data in
  match get_board_size current_board with
  | Raise e =>
      (inl {| status_code := 400;
              detail := ("Invalid board structure in request: "%string, e) |}, g)
  | Ok board_size_from_request =>
      let final_board := copy_board current_board in
      let final_score := current_score in
      let message_for_client : option string := None in
      let failed (e : exn) (g : rng) : (HTTPException + MoveResponseData.t) * rng :=
        (inl {| status_code := 400;
                detail := ("Error processing move: "%string, e) |}, g) in
      match process_move current_board direction with
      | Raise e => failed e g
      | Ok (board_after_slide, score_increase, slide_changed_board) =>
          let move_was_effective := slide_changed_board in
          let after_tile :=
            if move_was_effective then
              let final_board := board_after_slide in
              let final_score := final_score + score_increase in
              match add_random_tile final_board g with
              | (Raise e, g1) => (Raise e, g1)
              | (Ok (board_after_tile_add, tile_successfully_added), g1) =>
                  (Ok (if tile_successfully_added then board_after_tile_add
                       else final_board,
                       final_score, message_for_client), g1)
              end
            else
              (Ok (final_board, final_score,
                   Some "Move was not effective; board state unchanged by slide."%string),
               g) in
          match after_tile with
          | (Raise e, g1) => failed e g1
          | (Ok (final_board, final_score, message_for_client), g1) =>
              match determine_game_status final_board win_tile with
              | Raise e => failed e g1
              | Ok current_progress =>
                  let message_for_client :=
                    match current_progress with
                    | GAME_WON => Some "Congratulations! You won!"%string
                    | GAME_OVER => Some "Game Over. No more valid moves."%string
                    | IN_PROGRESS => message_for_client
                    end in
                  match validate_move_response
                          {| MoveResponseData.board := final_board;
                             MoveResponseData.score := final_score;
                             MoveResponseData.progress := current_progress;
                             MoveResponseData.win_tile := win_tile;
                             MoveResponseData.board_size := board_size_from_request;
                             MoveResponseData.move_was_effective := move_was_effective;
                             MoveResponseData.message := message_for_client |}
                  with
                  | Raise e => failed e g1
                  | Ok response => (inr response, g1)
                  end
              end
          end
      end
  end.

(** ** Directions as Python values

    [process_move] and [is_move_possible_in_direction] receive their
    direction as a Python value.  [Member] stands for the four members of
    [DIRECTION], [NotMember] for every other object: [process_move] copies
    the board and then reaches its final [else: raise ValueError], and
    [is_move_possible_in_direction] checks the board size, finds no branch
    to take for any tile and returns [False]. *)

Inductive py_direction : Set :=
| Member (d : DIRECTION)
| NotMember.

Definition process_move_any_direction (board : list (list Z))
    (direction : py_direction) : result (list (list Z) * Z * bool) :=
  match direction with
  | Member d => process_move board d
  | NotMember =>
      let board_to_operate_on := copy_board board in
      Raise ValueError
  end.

Definition is_move_possible_in_any_direction (board : list (list Z))
    (direction : py_direction) : result bool :=
  match direction with
  | Member d => is_move_possible_in_direction board d
  | NotMember =>
      try n <- get_board_size board;
      Ok (any_cell n (fun r_idx c_idx =>
            if cell board r_idx c_idx =? 0 then false else false))
  end.

(** ** Vocabulary of the further properties *)

(** A board that [get_board_size] refuses: empty, or with a row whose
    length is not the number of rows. *)
Definition ragged (b : list (list Z)) : Prop :=
  b = [] \/ exists row, row ∈ b /\ length row ≠ length b.

(** Row-major order of coordinates. *)
Definition row_major_lt (p q : nat * nat) : Prop :=
  (p.1 < q.1)%nat \/ (p.1 = q.1 /\ (p.2 < q.2)%nat).

(** The generator after [k] more draws. *)
Definition advance (k : nat) (g : rng) : rng :=
  {| stream := stream g; cursor := (cursor g + k)%nat |}.

(** One for a tile, zero for an empty cell. *)
Definition tile_indicator (z : Z) : Z := if z =? 0 then 0 else 1.

(** The line of the board that the tile at [(r, c)] travels along. *)
Definition same_line (d : DIRECTION) (r c r0 c0 : nat) : Prop :=
  match d with
  | LEFT | RIGHT => r0 = r
  | UP | DOWN => c0 = c
  end.

(** ** Scenarios *)

Definition board_A : list (list Z) :=
  [[2; 2; 0; 0]; [0; 0; 0; 0]; [0; 0; 0; 0]; [0; 0; 0; 0]].

Definition board_A_left : list (list Z) :=
  [[4; 0; 0; 0]; [0; 0; 0; 0]; [0; 0; 0; 0]; [0; 0; 0; 0]].

Definition board_B : list (list Z) :=
  [[2; 2; 2; 2]; [0; 0; 0; 0]; [0; 0; 0; 0]; [0; 0; 0; 0]].

Definition board_B_left : list (list Z) :=
  [[4; 4; 0; 0]; [0; 0; 0; 0]; [0; 0; 0; 0]; [0; 0; 0; 0]].

Definition board_B_left_twice : list (list Z) :=
  [[8; 0; 0; 0]; [0; 0; 0; 0]; [0; 0; 0; 0]; [0; 0; 0; 0]].

(** Tiles with gaps and no equal neighbours in a row. *)
Definition board_gaps : list (list Z) :=
  [[0; 2; 0; 4]; [8; 0; 0; 2]; [0; 0; 0; 0]; [2; 4; 8; 16]].

Definition board_gaps_left : list (list Z) :=
  [[2; 4; 0; 0]; [8; 2; 0; 0]; [0; 0; 0; 0]; [2; 4; 8; 16]].

(** A full board without equal neighbours (scenario C). *)
Definition board_C : list (list Z) :=
  [[2; 4; 2; 4]; [4; 2; 4; 2]; [2; 4; 2; 4]; [4; 2; 4; 2]].

(** A full board that is stuck and holds the win tile. *)
Definition board_won_full : list (list Z) :=
  [[2048; 4; 2; 4]; [4; 2; 4; 2]; [2; 4; 2; 4]; [4; 2; 4; 2]].

(** One empty cell, at row 1 and column 2. *)
Definition board_one_empty : list (list Z) :=
  [[2; 4; 2; 4]; [4; 2; 0; 2]; [2; 4; 2; 4]; [4; 2; 4; 2]].

(** A ragged board: the second row is short. *)
Definition board_ragged : list (list Z) := [[2; 0]; [4]].

(** A full board with one pair of equal neighbours. *)
Definition board_full_pair : list (list Z) :=
  [[2; 2; 8; 4]; [4; 16; 4; 2]; [2; 4; 2; 4]; [4; 2; 4; 2]].

(** A generator whose draws are all zero. *)
Definition rng_zero : rng := {| stream := fun _ => 0%nat; cursor := 0 |}.

(** A request that merges, and the response to it when all draws are zero:
    the new tile is a 4 on the first empty cell. *)
Definition request_B : MoveRequestData.t :=
  {| MoveRequestData.board := board_B;
     MoveRequestData.score := 10;
     MoveRequestData.direction := LEFT;
     MoveRequestData.win_tile := 2048 |}.

Definition response_B : MoveResponseData.t :=
  {| MoveResponseData.board :=
       [[4; 4; 4; 0]; [0; 0; 0; 0]; [0; 0; 0; 0]; [0; 0; 0; 0]];
     MoveResponseData.score := 18;
     MoveResponseData.progress := IN_PROGRESS;
     MoveResponseData.win_tile := 2048;
     MoveResponseData.board_size := 4;
     MoveResponseData.move_was_effective := true;
     MoveResponseData.message := None |}.

(** A request whose merge drives the score below zero. *)
Definition request_negative : MoveRequestData.t :=
  {| MoveRequestData.board := [[-2; -2]; [0; 0]];
     MoveRequestData.score := 0;
     MoveRequestData.direction := LEFT;
     MoveRequestData.win_tile := 2048 |}.

(** A request on a stuck board, and the response to it. *)
Definition request_C : MoveRequestData.t :=
  {| MoveRequestData.board := board_C;
     MoveRequestData.score := 10;
     MoveRequestData.direction := UP;
     MoveRequestData.win_tile := 2048 |}.

Definition response_C : MoveResponseData.t :=
  {| MoveResponseData.board := board_C;
     MoveResponseData.score := 10;
     MoveResponseData.progress := GAME_OVER;
     MoveResponseData.win_tile := 2048;
     MoveResponseData.board_size := 4;
     MoveResponseData.move_was_effective := false;
     MoveResponseData.message := Some "Game Over. No more valid moves."%string |}.

Example scenario_A :
  process_move board_A LEFT
  = Ok ([[4; 0; 0; 0]; [0; 0; 0; 0]; [0; 0; 0; 0]; [0; 0; 0; 0]], 4, true).
Proof. vm_compute. reflexivity. Qed.

Example scenario_up :
  process_move [[2; 0; 4]; [2; 4; 0]; [4; 4; 2]] UP
  = Ok ([[4; 8; 4]; [4; 0; 2]; [0; 0; 0]], 12, true).
Proof. vm_compute. reflexivity. Qed.

Example scenario_down :
  process_move [[2; 0; 4]; [2; 4; 0]; [4; 4; 2]] DOWN
  = Ok ([[0; 0; 0]; [4; 0; 4]; [4; 8; 2]], 12, true).
Proof. vm_compute. reflexivity. Qed.

Example scenario_right :
  process_move [[2; 0; 2]; [2; 2; 2]; [4; 0; 0]] RIGHT
  = Ok ([[0; 0; 4]; [0; 2; 4]; [0; 0; 4]], 8, true).
Proof. vm_compute. reflexivity. Qed.

(** * Properties *)

(** ** The line reducer *)

Section Line.

Implicit Types (l line : list Z) (x y : Z).

Lemma nonzeros_nil : nonzeros [] = [].
Proof. reflexivity. Qed.

Lemma nonzeros_cons x l :
  nonzeros (x :: l) = if x =? 0 then nonzeros l else x :: nonzeros l.
Proof.
  unfold nonzeros. rewrite filter_cons.
  destruct (Z.eqb_spec x 0); case_decide; congruence.
Qed.

Lemma nonzeros_app l1 l2 : nonzeros (l1 ++ l2) = nonzeros l1 ++ nonzeros l2.
Proof. apply filter_app. Qed.

Lemma nonzeros_replicate k : nonzeros (replicate k 0) = [].
Proof. induction k as [|k IH]; [done|]. simpl. by rewrite nonzeros_cons. Qed.

Lemma nonzeros_Forall l : Forall (fun x => x ≠ 0) (nonzeros l).
Proof.
  induction l as [|x l IH]; [constructor|].
  rewrite nonzeros_cons. destruct (Z.eqb_spec x 0); [done|by constructor].
Qed.

Lemma nonzeros_id l : Forall (fun x => x ≠ 0) l -> nonzeros l = l.
Proof.
  induction 1 as [|x l Hx _ IH]; [done|].
  rewrite nonzeros_cons, IH. by destruct (Z.eqb_spec x 0).
Qed.

Lemma nonzeros_length l : (length (nonzeros l) <= length l)%nat.
Proof.
  induction l as [|x l IH]; [done|].
  rewrite nonzeros_cons. destruct (x =? 0); simpl; lia.
Qed.

Lemma sum_list_app l1 l2 : sum_list (l1 ++ l2) = sum_list l1 + sum_list l2.
Proof. induction l1 as [|x l1 IH]; simpl; [done|]. unfold sum_list in *. simpl. lia. Qed.

Lemma sum_list_replicate k : sum_list (replicate k 0) = 0.
Proof. induction k as [|k IH]; [done|]. unfold sum_list in *. simpl. lia. Qed.

Lemma sum_list_nonzeros l : sum_list (nonzeros l) = sum_list l.
Proof.
  induction l as [|x l IH]; [done|].
  rewrite nonzeros_cons. destruct (Z.eqb_spec x 0); unfold sum_list in *; simpl; lia.
Qed.

Lemma sum_list_pad n l : sum_list (pad n l) = sum_list l.
Proof. unfold pad. rewrite sum_list_app, sum_list_replicate. lia. Qed.

Lemma pad_length n l : (length l <= n)%nat -> length (pad n l) = n.
Proof. intros. unfold pad. rewrite length_app, length_replicate. lia. Qed.

Lemma nonzeros_pad n l : Forall (fun x => x ≠ 0) l -> nonzeros (pad n l) = l.
Proof.
  intros. unfold pad.
  rewrite nonzeros_app, nonzeros_replicate, app_nil_r. by apply nonzeros_id.
Qed.

(** *** The reference scan *)

(** Induction along the cases of the scan. *)
Lemma scan_ind (P : list Z -> Prop) :
  P [] ->
  (forall r, P r -> P (0 :: r)) ->
  (forall x, x ≠ 0 -> P [x]) ->
  (forall x t, x ≠ 0 -> P t -> P (x :: x :: t)) ->
  (forall x y t, x ≠ 0 -> x ≠ y -> P (y :: t) -> P (x :: y :: t)) ->
  forall l, P l.
Proof.
  intros Hnil Hzero Hone Hpair Hstep l.
  remember (length l) as k eqn:Hk. revert l Hk.
  induction k as [k IH] using lt_wf_ind. intros l ->.
  destruct l as [|x r]; [exact Hnil|].
  destruct (decide (x = 0)) as [->|Hx].
  { apply Hzero, (IH (length r)); simpl; [lia|done]. }
  destruct r as [|y t]; [by apply Hone|].
  destruct (decide (x = y)) as [<-|Hxy].
  - apply Hpair; [done|]. apply (IH (length t)); simpl; [lia|done].
  - apply Hstep; [done..|]. apply (IH (length (y :: t))); simpl; [lia|done].
Qed.

Lemma merge_out_zero r : merge_out (0 :: r) = merge_out r.
Proof. reflexivity. Qed.

Lemma merge_out_one x : x ≠ 0 -> merge_out [x] = [x].
Proof. intros. simpl. by destruct (Z.eqb_spec x 0). Qed.

Lemma merge_out_pair x t : x ≠ 0 -> merge_out (x :: x :: t) = x * 2 :: merge_out t.
Proof.
  intros. cbn [merge_out]. destruct (Z.eqb_spec x 0); [done|].
  by rewrite Z.eqb_refl.
Qed.

Lemma merge_out_step x y t :
  x ≠ 0 -> x ≠ y -> merge_out (x :: y :: t) = x :: merge_out (y :: t).
Proof.
  intros. cbn [merge_out]. destruct (Z.eqb_spec x 0); [done|].
  by destruct (Z.eqb_spec x y).
Qed.

Lemma merged_pairs_zero r : merged_pairs (0 :: r) = merged_pairs r.
Proof. reflexivity. Qed.

Lemma merged_pairs_one x : merged_pairs [x] = [].
Proof. simpl. by destruct (x =? 0). Qed.

Lemma merged_pairs_pair x t :
  x ≠ 0 -> merged_pairs (x :: x :: t) = x :: merged_pairs t.
Proof.
  intros. cbn [merged_pairs]. destruct (Z.eqb_spec x 0); [done|].
  by rewrite Z.eqb_refl.
Qed.

Lemma merged_pairs_step x y t :
  x ≠ 0 -> x ≠ y -> merged_pairs (x :: y :: t) = merged_pairs (y :: t).
Proof.
  intros. cbn [merged_pairs]. destruct (Z.eqb_spec x 0); [done|].
  by destruct (Z.eqb_spec x y).
Qed.

Lemma merge_out_length l : (length (merge_out l) <= length l)%nat.
Proof.
  induction l as [|r IH|x Hx|x t Hx IH|x y t Hx Hxy IH] using scan_ind.
  - done.
  - rewrite merge_out_zero. simpl. lia.
  - by rewrite merge_out_one.
  - rewrite merge_out_pair by done. simpl. lia.
  - rewrite merge_out_step by done. simpl in *. lia.
Qed.

Lemma merge_out_Forall l : Forall (fun x => x ≠ 0) (merge_out l).
Proof.
  induction l as [|r IH|x Hx|x t Hx IH|x y t Hx Hxy IH] using scan_ind.
  - constructor.
  - by rewrite merge_out_zero.
  - rewrite merge_out_one by done. by repeat constructor.
  - rewrite merge_out_pair by done. constructor; [lia|done].
  - rewrite merge_out_step by done. by constructor.
Qed.

Lemma merge_out_zeros k : merge_out (replicate k 0) = [].
Proof. induction k as [|k IH]; [done|]. simpl. exact IH. Qed.

Lemma merged_pairs_zeros k : merged_pairs (replicate k 0) = [].
Proof. induction k as [|k IH]; [done|]. simpl. exact IH. Qed.

Lemma merge_out_pad_zeros l k :
  Forall (fun x => x ≠ 0) l -> merge_out (l ++ replicate k 0) = merge_out l.
Proof.
  induction l as [|r IH|x Hx|x t Hx IH|x y t Hx Hxy IH] using scan_ind; intros Hl.
  - apply merge_out_zeros.
  - by apply Forall_cons in Hl as [? _].
  - rewrite merge_out_one by done. destruct k as [|k]; simpl.
    + by destruct (Z.eqb_spec x 0).
    + destruct (Z.eqb_spec x 0); [done|].
      destruct (Z.eqb_spec x 0); [done|]. by rewrite merge_out_zeros.
  - apply Forall_cons in Hl as [_ [_ Ht]%Forall_cons].
    simpl app. rewrite !merge_out_pair by done. by rewrite IH.
  - apply Forall_cons in Hl as [_ Hl].
    change ((x :: y :: t) ++ replicate k 0) with (x :: y :: (t ++ replicate k 0)).
    rewrite !merge_out_step by done. f_equal. by apply IH.
Qed.

Lemma merged_pairs_pad_zeros l k :
  Forall (fun x => x ≠ 0) l -> merged_pairs (l ++ replicate k 0) = merged_pairs l.
Proof.
  induction l as [|r IH|x Hx|x t Hx IH|x y t Hx Hxy IH] using scan_ind; intros Hl.
  - apply merged_pairs_zeros.
  - by apply Forall_cons in Hl as [? _].
  - rewrite merged_pairs_one. destruct k as [|k]; simpl.
    + by destruct (Z.eqb_spec x 0).
    + destruct (Z.eqb_spec x 0); [done|].
      destruct (Z.eqb_spec x 0); [done|]. by rewrite merged_pairs_zeros.
  - apply Forall_cons in Hl as [_ [_ Ht]%Forall_cons].
    simpl app. rewrite !merged_pairs_pair by done. by rewrite IH.
  - apply Forall_cons in Hl as [_ Hl].
    change ((x :: y :: t) ++ replicate k 0) with (x :: y :: (t ++ replicate k 0)).
    rewrite !merged_pairs_step by done. by apply IH.
Qed.

(** Merging keeps the total: a pair [(v, v)] becomes [2v]. *)
Lemma merge_out_sum l : sum_list (merge_out l) = sum_list l.
Proof.
  induction l as [|r IH|x Hx|x t Hx IH|x y t Hx Hxy IH] using scan_ind.
  - done.
  - rewrite merge_out_zero, IH. done.
  - by rewrite merge_out_one.
  - rewrite merge_out_pair by done. unfold sum_list in *. simpl. lia.
  - rewrite merge_out_step by done. unfold sum_list in *. simpl in *. lia.
Qed.

(** A scan that writes its input back merged nothing. *)
Lemma merge_out_fixed l :
  Forall (fun x => x ≠ 0) l -> merge_out l = l <-> merged_pairs l = [].
Proof.
  induction l as [|r IH|x Hx|x t Hx IH|x y t Hx Hxy IH] using scan_ind; intros Hl.
  - done.
  - by apply Forall_cons in Hl as [? _].
  - by rewrite merge_out_one, merged_pairs_one.
  - rewrite merge_out_pair, merged_pairs_pair by done. split; [|done].
    intros Heq. apply (f_equal length) in Heq.
    pose proof (merge_out_length t). simpl in Heq. lia.
  - apply Forall_cons in Hl as [_ Hl].
    rewrite merge_out_step, merged_pairs_step by done.
    rewrite <- (IH Hl). split; [congruence|intros ->; done].
Qed.

(** *** The merge loop against the reference scan *)

Lemma write_from_spec vs : forall w new_line,
  (w + length vs <= length new_line)%nat ->
  write_from w vs new_line
  = take w new_line ++ vs ++ drop (w + length vs) new_line.
Proof.
  induction vs as [|v vs IH]; intros w nl Hlen; simpl in *.
  - rewrite Nat.add_0_r. by rewrite take_drop.
  - rewrite IH by (rewrite length_insert; lia).
    rewrite drop_insert_lt by lia.
    assert (Hw : (w < length nl)%nat) by lia.
    rewrite (take_S_r (<[w:=v]> nl) w v) by (by apply list_lookup_insert_eq).
    rewrite take_insert_ge by lia.
    rewrite <- app_assoc. simpl. by rewrite Nat.add_succ_r.
Qed.

Lemma write_from_fresh n vs :
  (length vs <= n)%nat -> write_from 0 vs (replicate n 0) = pad n vs.
Proof.
  intros. rewrite write_from_spec by (rewrite length_replicate; lia).
  simpl. rewrite drop_replicate. done.
Qed.

Lemma drop_lookup_cons l r x : l !! r = Some x -> drop r l = x :: drop (S r) l.
Proof. intros. by rewrite <- drop_S. Qed.

Lemma merge_loop_spec fuel line : forall r w new_line s,
  (length line - r <= fuel)%nat ->
  merge_loop fuel line (length line) r w new_line s
  = (write_from w (merge_out (drop r line)) new_line,
     s + sum_list (merge_outputs (drop r line))).
Proof.
  induction fuel as [|fuel IH]; intros r w nl s Hfuel.
  { rewrite drop_ge by lia. simpl. f_equal. unfold merge_outputs, sum_list. simpl. lia. }
  cbn [merge_loop]. destruct (Nat.ltb_spec r (length line)) as [Hr|Hr].
  2:{ rewrite drop_ge by lia. simpl. f_equal. unfold merge_outputs, sum_list. simpl. lia. }
  destruct (lookup_lt_is_Some_2 line r Hr) as [x Hx].
  rewrite (list_lookup_total_correct _ _ _ Hx), (drop_lookup_cons _ _ _ Hx).
  replace (r + 2)%nat with (S (S r)) by lia.
  replace (r + 1)%nat with (S r) by lia.
  replace (w + 1)%nat with (S w) by lia.
  destruct (Z.eqb_spec x 0) as [->|Hx0].
  { rewrite IH by lia. done. }
  destruct (Nat.ltb_spec (S r) (length line)) as [Hr1|Hr1].
  - destruct (lookup_lt_is_Some_2 line (S r) Hr1) as [y Hy].
    rewrite (list_lookup_total_correct _ _ _ Hy), (drop_lookup_cons _ _ _ Hy).
    destruct (Z.eqb_spec x y) as [<-|Hxy]; cbn [andb].
    + rewrite IH by lia. unfold merge_outputs.
      rewrite merge_out_pair, merged_pairs_pair by done. cbn [write_from].
      rewrite fmap_cons. f_equal. unfold sum_list. simpl. lia.
    + rewrite IH by lia. unfold merge_outputs.
      rewrite merge_out_step, merged_pairs_step by done. cbn [write_from].
      by rewrite (drop_lookup_cons _ _ _ Hy).
  - cbn [andb]. rewrite IH by lia. rewrite (drop_ge line (S r)) by lia.
    unfold merge_outputs. rewrite merge_out_one, merged_pairs_one by done.
    done.
Qed.

(** The loop leaves by its own condition: one more iteration than the
    [n - read_idx] that are granted finds [read_idx < n] false. *)
Lemma merge_loop_exits fuel line r w new_line s :
  (length line - r <= fuel)%nat ->
  merge_loop (S fuel) line (length line) r w new_line s
  = merge_loop fuel line (length line) r w new_line s.
Proof. intros. rewrite !merge_loop_spec by lia. done. Qed.

Lemma compress_line_spec line :
  _compress_line line
  = (pad (length line) (nonzeros line),
     bool_decide (pad (length line) (nonzeros line) ≠ line)).
Proof. reflexivity. Qed.

Lemma merge_line_spec line :
  _merge_line line
  = (pad (length line) (merge_out line), sum_list (merge_outputs line),
     bool_decide (pad (length line) (merge_out line) ≠ line)).
Proof.
  unfold _merge_line. rewrite merge_loop_spec by lia.
  rewrite drop_0, write_from_fresh by apply merge_out_length. done.
Qed.

Lemma process_line_spec line :
  _process_single_line_leftwise line
  = (slide_left line, line_score line, bool_decide (slide_left line ≠ line)).
Proof.
  pose proof (nonzeros_length line) as Hnz.
  pose proof (nonzeros_Forall line) as HnzF.
  pose proof (merge_out_length (nonzeros line)) as Hm.
  unfold _process_single_line_leftwise.
  rewrite compress_line_spec. cbv iota beta.
  rewrite merge_line_spec. cbv iota beta.
  rewrite compress_line_spec.
  rewrite (pad_length (length line) (nonzeros line)) by done.
  assert (Hout : merge_out (pad (length line) (nonzeros line))
                 = merge_out (nonzeros line))
    by (by apply merge_out_pad_zeros).
  assert (Hpairs : merged_pairs (pad (length line) (nonzeros line))
                   = merged_pairs (nonzeros line))
    by (by apply merged_pairs_pad_zeros).
  unfold merge_outputs. rewrite Hout, Hpairs.
  rewrite pad_length by lia.
  rewrite nonzeros_pad by apply merge_out_Forall.
  done.
Qed.

Lemma slide_left_length line : length (slide_left line) = length line.
Proof.
  unfold slide_left. apply pad_length.
  pose proof (merge_out_length (nonzeros line)).
  pose proof (nonzeros_length line). lia.
Qed.

Lemma slide_left_sum line : sum_list (slide_left line) = sum_list line.
Proof.
  unfold slide_left. by rewrite sum_list_pad, merge_out_sum, sum_list_nonzeros.
Qed.

(** *** Lines that cannot move *)

Lemma pad_cons n x l : pad (S n) (x :: l) = x :: pad n l.
Proof. reflexivity. Qed.

Lemma pad_nil n : pad n [] = replicate n 0.
Proof. unfold pad. simpl. by rewrite Nat.sub_0_r. Qed.

Lemma movable_zeros k : movable (replicate k 0) = false.
Proof.
  induction k as [|k IH]; [done|].
  destruct k as [|k]; [done|]. exact IH.
Qed.

Lemma movable_cons x y t :
  movable (x :: y :: t)
  = (negb (y =? 0) && ((x =? 0) || (x =? y))) || movable (y :: t).
Proof. reflexivity. Qed.

Lemma movable_compact l k :
  Forall (fun x => x ≠ 0) l -> merge_out l = l ->
  movable (l ++ replicate k 0) = false.
Proof.
  induction l as [|r IH|x Hx|x t Hx IH|x y t Hx Hxy IH] using scan_ind;
    intros Hl Hfix.
  - apply movable_zeros.
  - by apply Forall_cons in Hl as [? _].
  - destruct k as [|k]; [done|].
    change ([x] ++ replicate (S k) 0) with (x :: 0 :: replicate k 0).
    rewrite movable_cons. apply (movable_zeros (S k)).
  - rewrite merge_out_pair in Hfix by done.
    apply (f_equal length) in Hfix. pose proof (merge_out_length t).
    simpl in Hfix. lia.
  - rewrite merge_out_step in Hfix by done.
    apply Forall_cons in Hl as [_ Hl].
    change ((x :: y :: t) ++ replicate k 0) with (x :: y :: (t ++ replicate k 0)).
    rewrite movable_cons.
    change (y :: (t ++ replicate k 0)) with ((y :: t) ++ replicate k 0).
    rewrite IH by (done || congruence).
    destruct (Z.eqb_spec x 0); [done|]. destruct (Z.eqb_spec x y); [done|].
    by rewrite andb_false_r.
Qed.

Lemma stuck_shape l :
  movable l = false ->
  l = pad (length l) (nonzeros l) /\ merge_out (nonzeros l) = nonzeros l.
Proof.
  induction l as [|x r IH]; [done|].
  destruct r as [|y t].
  { intros _. rewrite nonzeros_cons. simpl.
    destruct (Z.eqb_spec x 0) as [->|Hx]; [done|].
    split; [done|]. by apply merge_out_one. }
  rewrite movable_cons. intros [Hhead Hr]%orb_false_elim.
  destruct (IH Hr) as [Hshape Hfix].
  rewrite (nonzeros_cons x). cbn [length].
  destruct (Z.eqb_spec y 0) as [->|Hy].
  - assert (Hnil : nonzeros (0 :: t) = []).
    { destruct (nonzeros (0 :: t)) as [|z zs] eqn:Hnz; [done|].
      pose proof (nonzeros_Forall (0 :: t)) as HF. rewrite Hnz in HF.
      apply Forall_cons in HF as [Hz _].
      cbn [length] in Hshape. rewrite pad_cons in Hshape. congruence. }
    rewrite Hnil in *. rewrite pad_nil in Hshape.
    destruct (Z.eqb_spec x 0) as [->|Hx].
    + rewrite pad_nil. split; [|done]. simpl. f_equal. exact Hshape.
    + rewrite pad_cons, pad_nil. split; [|by apply merge_out_one].
      f_equal. exact Hshape.
  - simpl in Hhead.
    destruct (Z.eqb_spec x 0) as [->|Hx]; [done|].
    destruct (Z.eqb_spec x y) as [->|Hxy]; [done|].
    rewrite pad_cons. split; [by f_equal|].
    rewrite (nonzeros_cons y) in *. destruct (Z.eqb_spec y 0); [done|].
    rewrite merge_out_step by done. by f_equal.
Qed.

(** A line is left as it is exactly when no tile has an empty or equal
    left neighbour. *)
Lemma slide_left_fixed_iff l : slide_left l = l <-> movable l = false.
Proof.
  split.
  - intros Hfix. unfold slide_left in Hfix.
    assert (Hnz : nonzeros l = merge_out (nonzeros l)).
    { rewrite <- Hfix at 1. apply nonzeros_pad, merge_out_Forall. }
    rewrite <- Hfix. rewrite <- Hnz. unfold pad.
    apply movable_compact; [apply nonzeros_Forall|done].
  - intros [Hshape Hfix]%stuck_shape. unfold slide_left. by rewrite Hfix.
Qed.

Lemma line_changed_iff l : bool_decide (slide_left l ≠ l) = movable l.
Proof.
  destruct (movable l) eqn:Hm.
  - apply bool_decide_eq_true. intros Hfix%slide_left_fixed_iff. congruence.
  - apply bool_decide_eq_false. intros Hne. apply Hne.
    by apply slide_left_fixed_iff.
Qed.

Lemma stuck_no_pairs l : movable l = false -> merged_pairs (nonzeros l) = [].
Proof.
  intros [_ Hfix]%stuck_shape.
  by apply merge_out_fixed; [apply nonzeros_Forall|].
Qed.

Lemma stuck_score l : movable l = false -> line_score l = 0.
Proof. intros Hm. unfold line_score, merge_outputs. by rewrite stuck_no_pairs. Qed.

(** A line that merged nothing is stuck after the slide. *)
Lemma slide_left_stuck l :
  merged_pairs (nonzeros l) = [] -> movable (slide_left l) = false.
Proof.
  intros Hp. unfold slide_left, pad.
  apply merge_out_fixed in Hp; [|apply nonzeros_Forall].
  rewrite Hp. apply movable_compact; [apply nonzeros_Forall|done].
Qed.

Lemma merged_pairs_positive l :
  Forall (fun x => 0 <= x) l -> Forall (fun x => 0 < x) (merged_pairs l).
Proof.
  induction l as [|r IH|x Hx|x t Hx IH|x y t Hx Hxy IH] using scan_ind;
    intros Hl.
  - constructor.
  - rewrite merged_pairs_zero. apply IH. by apply Forall_cons in Hl as [_ ?].
  - rewrite merged_pairs_one. constructor.
  - rewrite merged_pairs_pair by done.
    apply Forall_cons in Hl as [H0 [_ Ht]%Forall_cons].
    constructor; [lia|by apply IH].
  - rewrite merged_pairs_step by done. apply IH.
    by apply Forall_cons in Hl as [_ ?].
Qed.

Lemma sum_outputs_nonneg (ps : list Z) :
  Forall (fun x => 0 < x) ps ->
  0 <= sum_list ((fun v => v * 2) <$> ps)
  /\ (sum_list ((fun v => v * 2) <$> ps) = 0 -> ps = []).
Proof.
  induction 1 as [|p ps Hp _ [IH1 IH2]]; [done|].
  rewrite fmap_cons. unfold sum_list in *. simpl. split; [lia|]. intros. lia.
Qed.

Lemma nonzeros_nonneg l :
  Forall (fun x => 0 <= x) l -> Forall (fun x => 0 <= x) (nonzeros l).
Proof.
  induction 1 as [|x l Hx _ IH]; [constructor|].
  rewrite nonzeros_cons. destruct (x =? 0); [done|by constructor].
Qed.

Lemma line_score_nonneg l : Forall (fun x => 0 <= x) l -> 0 <= line_score l.
Proof.
  intros Hl. unfold line_score, merge_outputs.
  by apply sum_outputs_nonneg, merged_pairs_positive, nonzeros_nonneg.
Qed.

Lemma line_score_zero l :
  Forall (fun x => 0 <= x) l -> line_score l = 0 ->
  merged_pairs (nonzeros l) = [].
Proof.
  intros Hl. unfold line_score, merge_outputs.
  by apply sum_outputs_nonneg, merged_pairs_positive, nonzeros_nonneg.
Qed.

(** [movable] read through indices, as the source reads the row. *)
Lemma movable_lookup l :
  movable l = true
  <-> exists i x y, l !! i = Some x /\ l !! S i = Some y
                    /\ y ≠ 0 /\ (x = 0 \/ x = y).
Proof.
  induction l as [|x r IH].
  { split; [done|]. by intros (i & ? & ? & ? & _). }
  destruct r as [|y t].
  { split; [done|]. by intros ([|i] & ? & ? & _ & ? & _). }
  rewrite movable_cons, orb_true_iff, IH. split.
  - intros [Hhead|(i & a & b & Ha & Hb & Hrest)].
    + exists 0%nat, x, y. apply andb_true_iff in Hhead as [Hy Hx].
      destruct (Z.eqb_spec y 0); [done|].
      repeat split; [done|].
      apply orb_true_iff in Hx as [?%Z.eqb_eq|?%Z.eqb_eq]; auto.
    + by exists (S i), a, b.
  - intros ([|i] & a & b & Ha & Hb & Hy & Hx).
    + left. simpl in Ha, Hb. injection Ha as ->. injection Hb as ->.
      destruct (Z.eqb_spec b 0); [done|]. simpl.
      destruct Hx as [->| ->]; [done|]. rewrite Z.eqb_refl. apply orb_true_r.
    + right. by exists i, a, b.
Qed.

End Line.

(** ** Boards: size, copies and the geometric transforms *)

Section Geometry.

Implicit Types (b : list (list Z)) (row : list Z).

Lemma fmap_lookup_seq {A : Type} `{Inhabited A} (l : list A) :
  (fun i => l !!! i) <$> seq 0 (length l) = l.
Proof.
  apply list_eq. intros i. rewrite list_lookup_fmap.
  destruct (decide (i < length l)%nat) as [Hi|Hi].
  - rewrite lookup_seq_lt by done. simpl.
    symmetry. by apply list_lookup_lookup_total_lt.
  - rewrite lookup_seq_ge by lia. simpl.
    symmetry. apply lookup_ge_None_2. lia.
Qed.

Lemma lookup_total_fmap_seq {A : Type} `{Inhabited A} (f : nat -> A) n i :
  (i < n)%nat -> (f <$> seq 0 n) !!! i = f i.
Proof.
  intros. apply list_lookup_total_correct.
  rewrite list_lookup_fmap, lookup_seq_lt by done. done.
Qed.

Lemma foldl_seq_S {A : Type} (f : A -> nat -> A) a k :
  foldl f a (seq 0 (S k)) = f (foldl f a (seq 0 k)) k.
Proof. by rewrite seq_S, foldl_app. Qed.

(** *** Squares *)

Lemma get_board_size_spec b :
  get_board_size b = if square b then Ok (length b) else Raise ValueError.
Proof.
  unfold get_board_size, square.
  destruct (is_empty_list b); [done|]. simpl. by destruct (forallb _ b).
Qed.

Lemma square_rows b r row :
  square b = true -> b !! r = Some row -> length row = length b.
Proof.
  unfold square. intros [_ Hall]%andb_true_iff Hr.
  rewrite forallb_forall in Hall.
  apply Nat.eqb_eq, Hall, list_elem_of_In. by eapply list_elem_of_lookup_2.
Qed.

Lemma square_row_total b r :
  square b = true -> (r < length b)%nat -> length (b !!! r) = length b.
Proof.
  intros Hsq Hr. apply (square_rows b r); [done|].
  by apply list_lookup_lookup_total_lt.
Qed.

Lemma square_pos b : square b = true -> (0 < length b)%nat.
Proof. destruct b; [done|]. simpl. lia. Qed.

Lemma square_intro b n :
  (0 < n)%nat -> length b = n -> Forall (fun row => length row = n) b ->
  square b = true.
Proof.
  intros Hn Hlen Hrows. unfold square. apply andb_true_iff. split.
  - destruct b; [simpl in *; lia|done].
  - apply forallb_forall. intros row Hin%list_elem_of_In.
    rewrite Forall_forall in Hrows. apply Nat.eqb_eq. rewrite Hlen. auto.
Qed.

Lemma square_Forall b :
  square b = true -> Forall (fun row => length row = length b) b.
Proof.
  intros Hsq. apply Forall_lookup. intros r row Hr. by eapply square_rows.
Qed.

(** A square board is determined by its cells. *)
Lemma square_cells b :
  square b = true ->
  b = (fun r => (fun c => cell b r c) <$> seq 0 (length b)) <$> seq 0 (length b).
Proof.
  intros Hsq. rewrite <- (fmap_lookup_seq b) at 1.
  apply list_fmap_ext. intros r ? [-> Hr]%lookup_seq.
  unfold cell. simpl. rewrite <- (square_row_total b r) by done.
  symmetry. apply fmap_lookup_seq.
Qed.

Lemma copy_board_id b : copy_board b = b.
Proof. unfold copy_board. apply list_fmap_id. Qed.

(** *** Row reversal *)

Lemma reverse_rows_spec b : reverse_rows b = reverse <$> b.
Proof.
  unfold reverse_rows.
  enough (forall acc, foldl (fun nb row => nb ++ [reverse row]) acc b
                      = acc ++ (reverse <$> b)) as Hgen by apply Hgen.
  induction b as [|row b IH]; intros acc; simpl.
  - by rewrite app_nil_r.
  - rewrite IH, <- app_assoc. done.
Qed.

Lemma reversed_involutive b : reverse <$> (reverse <$> b) = b.
Proof.
  rewrite <- list_fmap_compose. rewrite <- (list_fmap_id b) at 2.
  apply list_fmap_ext. intros _ row _. simpl. apply reverse_involutive.
Qed.

Lemma reversed_square b : square b = true -> square (reverse <$> b) = true.
Proof.
  intros Hsq. apply (square_intro _ (length b)).
  - by apply square_pos.
  - apply length_fmap.
  - apply Forall_fmap. eapply Forall_impl; [by apply square_Forall|].
    intros row Hrow. simpl. by rewrite length_reverse.
Qed.

Lemma reverse_lookup_total row i :
  (i < length row)%nat -> reverse row !!! i = row !!! (length row - 1 - i)%nat.
Proof.
  intros Hi. apply list_lookup_total_correct.
  rewrite reverse_lookup by done.
  replace (length row - S i)%nat with (length row - 1 - i)%nat by lia.
  apply list_lookup_lookup_total_lt. lia.
Qed.

Lemma reversed_cell b r c :
  square b = true -> (r < length b)%nat -> (c < length b)%nat ->
  cell (reverse <$> b) r c = cell b r (length b - 1 - c).
Proof.
  intros Hsq Hr Hc. unfold cell.
  rewrite (list_lookup_total_fmap reverse b r) by done.
  rewrite reverse_lookup_total by (by rewrite square_row_total).
  by rewrite square_row_total.
Qed.

(** *** Transposition *)

(** The inner loop at row [r] writes one value into every row of the new
    board. *)
Lemma transpose_inner r (g : nat -> Z) (l : list (list Z)) : forall pre,
  foldl (fun nb c => set_cell nb c r (g c)) (pre ++ l)
        (seq (length pre) (length l))
  = pre ++ zip_with (fun v dst => <[r := v]> dst)
                    (g <$> seq (length pre) (length l)) l.
Proof.
  induction l as [|x l IH]; intros pre; [done|].
  cbn [length seq foldl fmap list_fmap zip_with].
  assert (Hset : set_cell (pre ++ x :: l) (length pre) r (g (length pre))
                 = (pre ++ [<[r := g (length pre)]> x]) ++ l).
  { unfold set_cell. rewrite list_lookup_total_middle by done.
    rewrite insert_app_r_alt, Nat.sub_diag by lia.
    simpl. by rewrite <- app_assoc. }
  rewrite Hset.
  replace (S (length pre)) with (length (pre ++ [<[r := g (length pre)]> x]))
    by (rewrite length_app; simpl; lia).
  rewrite IH. by rewrite <- app_assoc.
Qed.

Lemma transpose_inner_fmap r (g : nat -> Z) (h : nat -> list Z) n :
  foldl (fun nb c => set_cell nb c r (g c)) (h <$> seq 0 n) (seq 0 n)
  = (fun c => <[r := g c]> (h c)) <$> seq 0 n.
Proof.
  pose proof (transpose_inner r g (h <$> seq 0 n) []) as Hin.
  rewrite length_fmap, length_seq in Hin. simpl in Hin. rewrite Hin.
  by rewrite zip_with_fmap_l, zip_with_fmap_r, zip_with_diag.
Qed.

Lemma transpose_outer b n k :
  (k <= n)%nat ->
  foldl (fun new_board r =>
           foldl (fun new_board c => set_cell new_board c r (cell b r c))
                 new_board (seq 0 n))
        (replicate n (replicate n 0)) (seq 0 k)
  = transposed_upto b n k.
Proof.
  induction k as [|k IH]; intros Hk.
  - simpl. unfold transposed_upto. simpl. rewrite Nat.sub_0_r.
    apply list_eq. intros i. rewrite list_lookup_fmap.
    destruct (decide (i < n)%nat).
    + rewrite lookup_replicate_2, lookup_seq_lt by done. done.
    + rewrite lookup_seq_ge by lia. simpl.
      apply lookup_replicate_None. lia.
  - rewrite foldl_seq_S, IH by lia. unfold transposed_upto.
    rewrite transpose_inner_fmap.
    apply list_fmap_ext. intros _ c _.
    rewrite seq_S, fmap_app. simpl.
    rewrite insert_app_r_alt by (rewrite length_fmap, length_seq; lia).
    rewrite length_fmap, length_seq, Nat.sub_diag.
    replace (n - k)%nat with (S (n - S k)) by lia. simpl.
    by rewrite <- app_assoc.
Qed.

Lemma transposed_upto_full b :
  transposed_upto b (length b) (length b) = transposed b.
Proof.
  unfold transposed_upto, transposed. apply list_fmap_ext. intros _ c _.
  rewrite Nat.sub_diag. apply app_nil_r.
Qed.

Lemma transpose_board_spec b :
  transpose_board b = if square b then Ok (transposed b) else Raise ValueError.
Proof.
  unfold transpose_board. rewrite get_board_size_spec.
  destruct (square b); [|done]. simpl.
  by rewrite transpose_outer, transposed_upto_full.
Qed.

Lemma transposed_length b : length (transposed b) = length b.
Proof. unfold transposed. by rewrite length_fmap, length_seq. Qed.

Lemma transposed_square b : square b = true -> square (transposed b) = true.
Proof.
  intros Hsq. apply (square_intro _ (length b)).
  - by apply square_pos.
  - apply transposed_length.
  - unfold transposed. apply Forall_fmap, Forall_forall. intros c _. simpl.
    by rewrite length_fmap, length_seq.
Qed.

Lemma transposed_cell b r c :
  (r < length b)%nat -> (c < length b)%nat ->
  cell (transposed b) r c = cell b c r.
Proof.
  intros Hr Hc. unfold cell at 1, transposed.
  rewrite lookup_total_fmap_seq by done.
  by rewrite lookup_total_fmap_seq.
Qed.

Lemma transposed_involutive b :
  square b = true -> transposed (transposed b) = b.
Proof.
  intros Hsq. rewrite (square_cells b Hsq) at 2.
  unfold transposed at 1. rewrite transposed_length.
  apply list_fmap_ext. intros r ? [-> Hr]%lookup_seq.
  apply list_fmap_ext. intros c ? [-> Hc]%lookup_seq.
  simpl in *. by apply transposed_cell.
Qed.

End Geometry.

(** ** The move engine *)

Section Move.

Implicit Types (b : list (list Z)) (d : DIRECTION).

Lemma slid_stuck b : existsb movable b = false -> slide_left <$> b = b.
Proof.
  induction b as [|row b IH]; [done|]. cbn [existsb].
  intros [Hrow Hb]%orb_false_elim. rewrite fmap_cons.
  f_equal; [by apply slide_left_fixed_iff|by apply IH].
Qed.

Lemma slid_square b : square b = true -> square (slide_left <$> b) = true.
Proof.
  intros Hsq. apply (square_intro _ (length b)).
  - by apply square_pos.
  - apply length_fmap.
  - apply Forall_fmap. eapply Forall_impl; [by apply square_Forall|].
    intros row Hrow. simpl. by rewrite slide_left_length.
Qed.

(** The row loop of [_apply_left_processing_to_all_lines], started at the
    row that follows [pre]. *)
Lemma apply_left_fold (l : list (list Z)) : forall pre total changed,
  foldl (fun '(processed_board, total_score_increase, board_changed_overall) r_idx =>
           let line_to_process := processed_board !!! r_idx in
           let '(final_line, score_from_line, line_changed) :=
             _process_single_line_leftwise line_to_process in
           if line_changed
           then (<[r_idx := final_line]> processed_board,
                 total_score_increase + score_from_line, true)
           else (processed_board, total_score_increase, board_changed_overall))
        (pre ++ l, total, changed) (seq (length pre) (length l))
  = (pre ++ (slide_left <$> l), total + sum_list (line_score <$> l),
     changed || existsb movable l).
Proof.
  induction l as [|row l IH]; intros pre total changed.
  { simpl. rewrite orb_false_r. f_equal. f_equal. unfold sum_list. simpl. lia. }
  cbn [length seq foldl].
  rewrite list_lookup_total_middle by done.
  rewrite process_line_spec, line_changed_iff.
  rewrite fmap_cons. cbn [existsb].
  replace (S (length pre)) with (length (pre ++ [slide_left row]))
    by (rewrite length_app; simpl; lia).
  destruct (movable row) eqn:Hrow.
  - rewrite insert_app_r_alt, Nat.sub_diag by lia. cbn [insert list_insert].
    rewrite (cons_middle (slide_left row) pre l), app_assoc.
    rewrite IH. rewrite <- app_assoc. cbn [app].
    rewrite orb_true_r. f_equal. f_equal.
    rewrite fmap_cons. unfold sum_list. simpl. lia.
  - apply slide_left_fixed_iff in Hrow as Hfix.
    rewrite (cons_middle row pre l), app_assoc.
    rewrite <- Hfix at 1. rewrite IH. rewrite <- app_assoc. cbn [app].
    rewrite Hfix. f_equal. f_equal.
    rewrite fmap_cons, (stuck_score row Hrow). unfold sum_list. simpl. lia.
Qed.

Lemma apply_left_spec b :
  _apply_left_processing_to_all_lines b
  = if square b
    then Ok (slide_left <$> b, sum_list (line_score <$> b), existsb movable b)
    else Raise ValueError.
Proof.
  unfold _apply_left_processing_to_all_lines.
  rewrite get_board_size_spec. destruct (square b); [|done]. simpl.
  rewrite copy_board_id.
  pose proof (apply_left_fold b [] 0 false) as Hfold. simpl in Hfold.
  rewrite Hfold. done.
Qed.

(** *** Orientation *)

Lemma orient_square d b : square b = true -> square (orient d b) = true.
Proof.
  intros Hsq. destruct d; simpl; auto using reversed_square, transposed_square.
Qed.

Lemma unorient_orient d b : square b = true -> unorient d (orient d b) = b.
Proof.
  intros Hsq. destruct d; simpl.
  - by apply transposed_involutive.
  - rewrite reversed_involutive. by apply transposed_involutive.
  - done.
  - apply reversed_involutive.
Qed.

Lemma orient_unorient d b : square b = true -> orient d (unorient d b) = b.
Proof.
  intros Hsq. destruct d; simpl.
  - by apply transposed_involutive.
  - rewrite transposed_involutive by (by apply reversed_square).
    apply reversed_involutive.
  - done.
  - apply reversed_involutive.
Qed.

Lemma unorient_square d b : square b = true -> square (unorient d b) = true.
Proof.
  intros Hsq. destruct d; simpl; auto using reversed_square, transposed_square.
Qed.

(** *** [process_move] in one equation *)

Lemma process_move_spec b d :
  square b = true ->
  process_move b d
  = Ok (unorient d (slide_left <$> orient d b),
        sum_list (line_score <$> orient d b),
        existsb movable (orient d b)).
Proof.
  intros Hsq.
  pose proof (orient_square d b Hsq) as Hosq.
  pose proof (slid_square _ Hosq) as Hssq.
  assert (Hstuck : existsb movable (orient d b) = false ->
                   unorient d (slide_left <$> orient d b) = b).
  { intros Hst. rewrite slid_stuck by done. by apply unorient_orient. }
  unfold process_move. rewrite copy_board_id.
  destruct d; simpl in *.
  - rewrite transpose_board_spec, Hsq. simpl.
    rewrite apply_left_spec, Hosq. simpl.
    destruct (existsb movable (transposed b)) eqn:Hch.
    + rewrite transpose_board_spec, Hssq. done.
    + by rewrite Hstuck.
  - rewrite transpose_board_spec, Hsq. simpl.
    rewrite reverse_rows_spec, apply_left_spec, Hosq. simpl.
    destruct (existsb movable (reverse <$> transposed b)) eqn:Hch.
    + rewrite reverse_rows_spec, transpose_board_spec.
      rewrite reversed_square by done. done.
    + by rewrite Hstuck.
  - by rewrite apply_left_spec, Hsq.
  - rewrite reverse_rows_spec, apply_left_spec, Hosq. simpl.
    destruct (existsb movable (reverse <$> b)) eqn:Hch.
    + by rewrite reverse_rows_spec.
    + by rewrite Hstuck.
Qed.

Lemma process_move_raises b d :
  square b = false -> process_move b d = Raise ValueError.
Proof.
  intros Hsq. unfold process_move. rewrite copy_board_id.
  assert (Hrev : square (reverse <$> b) = false).
  { destruct (square (reverse <$> b)) eqn:Hr; [|done].
    apply reversed_square in Hr. rewrite reversed_involutive in Hr. congruence. }
  destruct d; simpl.
  - by rewrite transpose_board_spec, Hsq.
  - by rewrite transpose_board_spec, Hsq.
  - by rewrite apply_left_spec, Hsq.
  - by rewrite reverse_rows_spec, apply_left_spec, Hrev.
Qed.

End Move.

(** ** Board state queries *)

Section Queries.

Implicit Types (b : list (list Z)) (d : DIRECTION).

Lemma any_cell_true n (p : nat -> nat -> bool) :
  any_cell n p = true
  <-> exists r c, (r < n)%nat /\ (c < n)%nat /\ p r c = true.
Proof.
  unfold any_cell. rewrite existsb_exists. split.
  - intros (r & Hr%in_seq & (c & Hc%in_seq & Hp)%existsb_exists).
    exists r, c. repeat split; [lia..|done].
  - intros (r & c & Hr & Hc & Hp). exists r. split; [apply in_seq; lia|].
    apply existsb_exists. exists c. split; [apply in_seq; lia|done].
Qed.

Lemma any_cell_false n (p : nat -> nat -> bool) :
  any_cell n p = false
  <-> forall r c, (r < n)%nat -> (c < n)%nat -> p r c = false.
Proof.
  split.
  - intros Hany r c Hr Hc. destruct (p r c) eqn:Hp; [|done].
    rewrite <- Hany. symmetry. apply any_cell_true. eauto.
  - intros Hall. destruct (any_cell n p) eqn:Hany; [|done].
    apply any_cell_true in Hany as (r & c & Hr & Hc & Hp).
    rewrite Hall in Hp by done. done.
Qed.

Lemma existsb_lookup {A : Type} (f : A -> bool) (l : list A) :
  existsb f l = true <-> exists i x, l !! i = Some x /\ f x = true.
Proof.
  rewrite existsb_exists. split.
  - intros (x & Hin & Hf). apply list_elem_of_In in Hin.
    apply list_elem_of_lookup_1 in Hin as [i Hi]. eauto.
  - intros (i & x & Hi & Hf). exists x. split; [|done].
    apply list_elem_of_In. by eapply list_elem_of_lookup_2.
Qed.

Lemma cell_lookup b r c row x :
  b !! r = Some row -> row !! c = Some x -> cell b r c = x.
Proof.
  intros Hr Hc. unfold cell.
  by rewrite (list_lookup_total_correct _ _ _ Hr),
             (list_lookup_total_correct _ _ _ Hc).
Qed.

(** Some row of a square board can move: stated on cells. *)
Lemma board_movable_cells b :
  square b = true ->
  existsb movable b = true
  <-> exists r i, (r < length b)%nat /\ (S i < length b)%nat
                  /\ cell b r (S i) ≠ 0
                  /\ (cell b r i = 0 \/ cell b r i = cell b r (S i)).
Proof.
  intros Hsq. rewrite existsb_lookup. split.
  - intros (r & row & Hr & (i & x & y & Hx & Hy & Hy0 & Hxy)%movable_lookup).
    exists r, i.
    rewrite (cell_lookup _ _ _ _ _ Hr Hx), (cell_lookup _ _ _ _ _ Hr Hy).
    apply lookup_lt_Some in Hr as Hrlt. apply lookup_lt_Some in Hy as Hylt.
    rewrite (square_rows b r row Hsq Hr) in Hylt. done.
  - intros (r & i & Hr & Hi & Hy0 & Hxy).
    destruct (lookup_lt_is_Some_2 b r Hr) as [row Hrow].
    pose proof (square_rows b r row Hsq Hrow) as Hlen.
    destruct (lookup_lt_is_Some_2 row i ltac:(lia)) as [x Hx].
    destruct (lookup_lt_is_Some_2 row (S i) ltac:(lia)) as [y Hy].
    rewrite (cell_lookup _ _ _ _ _ Hrow Hx), (cell_lookup _ _ _ _ _ Hrow Hy)
      in *.
    exists r, row. split; [done|]. apply movable_lookup. by exists i, x, y.
Qed.

Lemma neighbour_test (guard : bool) (a v : Z) :
  guard && ((a =? 0) || (a =? v)) = true <-> guard = true /\ (a = 0 \/ a = v).
Proof.
  rewrite andb_true_iff, orb_true_iff, !Z.eqb_eq. done.
Qed.

Lemma tile_test b n d r c :
  (if cell b r c =? 0 then false else tile_can_move b n d r c) = true
  <-> cell b r c ≠ 0 /\ tile_can_move b n d r c = true.
Proof. destruct (Z.eqb_spec (cell b r c) 0); intuition congruence. Qed.

Lemma orient_length d b : length (orient d b) = length b.
Proof.
  destruct d; simpl;
    by rewrite ?length_fmap, ?transposed_length.
Qed.

Lemma orient_cell d b r j :
  square b = true -> (r < length b)%nat -> (j < length b)%nat ->
  cell (orient d b) r j
  = cell b (source_row d (length b) r j) (source_col d (length b) r j).
Proof.
  intros Hsq Hr Hj. destruct d; simpl.
  - by apply transposed_cell.
  - rewrite reversed_cell
      by (rewrite ?transposed_length; auto using transposed_square).
    rewrite transposed_length. apply transposed_cell; lia.
  - done.
  - by apply reversed_cell.
Qed.

Lemma move_possible_cells b d :
  square b = true ->
  any_cell (length b)
    (fun r c => if cell b r c =? 0 then false
                else tile_can_move b (length b) d r c) = true
  <-> exists r i, (r < length b)%nat /\ (S i < length b)%nat
                  /\ cell (orient d b) r (S i) ≠ 0
                  /\ (cell (orient d b) r i = 0
                      \/ cell (orient d b) r i = cell (orient d b) r (S i)).
Proof.
  intros Hsq. rewrite any_cell_true.
  remember (length b) as n eqn:Hn. split.
  - intros (r & c & Hr & Hc & [Hnz Hmove]%tile_test).
    destruct d; unfold tile_can_move in Hmove;
      apply neighbour_test in Hmove as [Hguard Hnb];
      apply Nat.ltb_lt in Hguard.
    + exists c, (r - 1)%nat.
      rewrite !orient_cell by (subst n; done || lia). simpl.
      replace (S (r - 1)) with r by lia. done.
    + exists c, (n - 2 - r)%nat.
      rewrite !orient_cell by (subst n; done || lia). simpl. rewrite <- Hn.
      replace (n - 1 - S (n - 2 - r))%nat with r by lia.
      replace (n - 1 - (n - 2 - r))%nat with (r + 1)%nat by lia.
      repeat split; (done || lia).
    + exists r, (c - 1)%nat.
      rewrite !orient_cell by (subst n; done || lia). simpl.
      replace (S (c - 1)) with c by lia. done.
    + exists r, (n - 2 - c)%nat.
      rewrite !orient_cell by (subst n; done || lia). simpl. rewrite <- Hn.
      replace (n - 1 - S (n - 2 - c))%nat with c by lia.
      replace (n - 1 - (n - 2 - c))%nat with (c + 1)%nat by lia.
      repeat split; (done || lia).
  - intros (r & i & Hr & Hi & Hnz & Hnb).
    rewrite !orient_cell in Hnz by (subst n; done || lia).
    rewrite !orient_cell in Hnb by (subst n; done || lia).
    rewrite <- Hn in Hnz, Hnb.
    destruct d; simpl in Hnz, Hnb.
    + exists (S i), r. repeat split; [done..|].
      apply tile_test. split; [done|]. apply neighbour_test.
      split; [done || (apply Nat.ltb_lt; lia)|]. simpl. by rewrite Nat.sub_0_r.
    + exists (n - 1 - S i)%nat, r. repeat split; [lia|done|].
      apply tile_test. split; [done|]. apply neighbour_test.
      split; [done || (apply Nat.ltb_lt; lia)|].
      replace (n - 1 - S i + 1)%nat with (n - 1 - i)%nat by lia. done.
    + exists r, (S i). repeat split; [done..|].
      apply tile_test. split; [done|]. apply neighbour_test.
      split; [done || (apply Nat.ltb_lt; lia)|]. simpl. by rewrite Nat.sub_0_r.
    + exists r, (n - 1 - S i)%nat. repeat split; [done|lia|].
      apply tile_test. split; [done|]. apply neighbour_test.
      split; [done || (apply Nat.ltb_lt; lia)|].
      replace (n - 1 - S i + 1)%nat with (n - 1 - i)%nat by lia. done.
Qed.

Lemma is_move_possible_spec b d :
  is_move_possible_in_direction b d
  = if square b then Ok (existsb movable (orient d b)) else Raise ValueError.
Proof.
  unfold is_move_possible_in_direction. rewrite get_board_size_spec.
  destruct (square b) eqn:Hsq; [|done]. simpl. f_equal.
  apply Bool.eq_iff_eq_true.
  rewrite move_possible_cells by done.
  rewrite board_movable_cells by (by apply orient_square).
  by rewrite orient_length.
Qed.

(** *** Empty cells *)

Lemma empty_cells_inner b row (cs : list nat) : forall acc,
  foldl (fun empty_cells col =>
           if cell b row col =? 0 then empty_cells ++ [(row, col)]
           else empty_cells) acc cs
  = acc ++ ((fun c => (row, c)) <$> filter (fun c => cell b row c = 0) cs).
Proof.
  induction cs as [|c cs IH]; intros acc; simpl.
  - by rewrite app_nil_r.
  - rewrite IH, filter_cons.
    destruct (Z.eqb_spec (cell b row c) 0); case_decide; try done.
    by rewrite fmap_cons, <- app_assoc.
Qed.

Lemma empty_cells_outer b n (rs : list nat) : forall acc,
  foldl (fun empty_cells row =>
           foldl (fun empty_cells col =>
                    if cell b row col =? 0 then empty_cells ++ [(row, col)]
                    else empty_cells)
                 empty_cells (seq 0 n)) acc rs
  = acc ++ (rs ≫= empty_in_row b n).
Proof.
  induction rs as [|r rs IH]; intros acc.
  - simpl. by rewrite app_nil_r.
  - cbn [foldl]. rewrite empty_cells_inner, IH, bind_cons, <- app_assoc. done.
Qed.

Lemma get_empty_cells_spec b :
  get_empty_cells b
  = if square b then Ok (empty_cells_ref b (length b)) else Raise ValueError.
Proof.
  unfold get_empty_cells. rewrite get_board_size_spec.
  destruct (square b); [|done]. simpl. by rewrite empty_cells_outer.
Qed.

Lemma empty_cells_elem b n r c :
  (r, c) ∈ empty_cells_ref b n
  <-> (r < n)%nat /\ (c < n)%nat /\ cell b r c = 0.
Proof.
  unfold empty_cells_ref, empty_in_row. rewrite list_elem_of_bind. split.
  - intros (r' & (c' & [= -> ->] & [Hz Hc]%list_elem_of_filter)%list_elem_of_fmap
               & Hr).
    apply elem_of_seq in Hr, Hc. repeat split; (done || lia).
  - intros (Hr & Hc & Hz). exists r. split; [|apply elem_of_seq; lia].
    apply list_elem_of_fmap. exists c. split; [done|].
    apply list_elem_of_filter. split; [done|apply elem_of_seq; lia].
Qed.

Lemma empty_cells_NoDup b n : NoDup (empty_cells_ref b n).
Proof.
  unfold empty_cells_ref. apply NoDup_bind; [| |apply NoDup_seq].
  - intros r1 r2 [r c] _ _ H1 H2. unfold empty_in_row in *.
    apply list_elem_of_fmap in H1 as (? & [= -> _] & _).
    apply list_elem_of_fmap in H2 as (? & [= -> _] & _). done.
  - intros r _. unfold empty_in_row.
    apply NoDup_fmap_2; [by intros ?? [= ->]|].
    apply NoDup_filter, NoDup_seq.
Qed.

Lemma is_empty_list_true {A : Type} (l : list A) :
  is_empty_list l = true <-> l = [].
Proof. by destruct l. Qed.

Lemma empty_cells_none b n :
  is_empty_list (empty_cells_ref b n) = true
  <-> forall r c, (r < n)%nat -> (c < n)%nat -> cell b r c ≠ 0.
Proof.
  rewrite is_empty_list_true. split.
  - intros Hnil r c Hr Hc Hz.
    assert (Hin : (r, c) ∈ empty_cells_ref b n) by (by apply empty_cells_elem).
    rewrite Hnil in Hin. by apply elem_of_nil in Hin.
  - intros Hall. apply elem_of_nil_inv. intros [r c] (Hr & Hc & Hz)%empty_cells_elem.
    by apply (Hall r c).
Qed.

Lemma empty_cells_single b n r c :
  (r < n)%nat -> (c < n)%nat -> cell b r c = 0 ->
  (forall r' c', (r' < n)%nat -> (c' < n)%nat -> cell b r' c' = 0 ->
                 r' = r /\ c' = c) ->
  empty_cells_ref b n = [(r, c)].
Proof.
  intros Hr Hc Hz Honly.
  pose proof (empty_cells_NoDup b n) as Hnd.
  assert (Hall : forall p, p ∈ empty_cells_ref b n -> p = (r, c)).
  { intros [r' c'] (Hr' & Hc' & Hz')%empty_cells_elem.
    destruct (Honly r' c') as [-> ->]; done. }
  assert (Hin : (r, c) ∈ empty_cells_ref b n) by (by apply empty_cells_elem).
  destruct (empty_cells_ref b n) as [|p ps]; [by apply elem_of_nil in Hin|].
  rewrite (Hall p) in * by left.
  destruct ps as [|q ps]; [done|].
  apply NoDup_cons in Hnd as [Hnotin _].
  rewrite (Hall q) in Hnotin by (right; left). exfalso. apply Hnotin. left.
Qed.

(** *** Win and loss *)

Lemma check_for_win_spec b win_tile :
  check_for_win b win_tile
  = if square b
    then Ok (any_cell (length b) (fun r c => cell b r c =? win_tile))
    else Raise ValueError.
Proof.
  unfold check_for_win. rewrite get_board_size_spec. by destruct (square b).
Qed.

Lemma is_any_move_possible_spec b :
  is_any_move_possible b
  = if square b
    then Ok (existsb (fun d => existsb movable (orient d b))
                     [UP; DOWN; LEFT; RIGHT])
    else Raise ValueError.
Proof.
  unfold is_any_move_possible, any_direction.
  rewrite !is_move_possible_spec. destruct (square b); [|done].
  cbn [result_bind existsb].
  destruct (existsb movable (orient UP b)); [done|].
  destruct (existsb movable (orient DOWN b)); [done|].
  destruct (existsb movable (orient LEFT b)); [done|].
  by destruct (existsb movable (orient RIGHT b)).
Qed.

(** The three guards of [determine_game_status] collapse to one. *)
Lemma determine_game_status_spec b win_tile won cells possible :
  check_for_win b win_tile = Ok won ->
  get_empty_cells b = Ok cells ->
  is_any_move_possible b = Ok possible ->
  determine_game_status b win_tile
  = Ok (if won then GAME_WON
        else if is_empty_list cells && negb possible then GAME_OVER
             else IN_PROGRESS).
Proof.
  intros Hwon Hcells Hposs. unfold determine_game_status.
  rewrite Hwon, Hcells, Hposs. simpl.
  destruct won; [done|].
  destruct (is_empty_list cells), possible; done.
Qed.

End Queries.

(** ** Totals and tile values *)

Section Invariants.

Implicit Types (b : list (list Z)) (d : DIRECTION) (row : list Z).

Lemma sum_list_cons x (l : list Z) : sum_list (x :: l) = x + sum_list l.
Proof. reflexivity. Qed.

Lemma sum_list_reverse (l : list Z) : sum_list (reverse l) = sum_list l.
Proof.
  induction l as [|x l IH]; [done|].
  rewrite reverse_cons, sum_list_app, IH, !sum_list_cons. simpl. lia.
Qed.

Lemma sum_list_fmap_zero {A : Type} (l : list A) :
  sum_list ((fun _ => 0) <$> l) = 0.
Proof. induction l as [|x l IH]; [done|]. by rewrite fmap_cons, sum_list_cons, IH. Qed.

Lemma sum_list_fmap_add {A : Type} (f g : A -> Z) (l : list A) :
  sum_list ((fun x => f x + g x) <$> l)
  = sum_list (f <$> l) + sum_list (g <$> l).
Proof.
  induction l as [|x l IH]; [done|].
  rewrite !fmap_cons, !sum_list_cons, IH. lia.
Qed.

(** Rows and columns add up to the same total. *)
Lemma sum_list_exchange (F : nat -> nat -> Z) (rs cs : list nat) :
  sum_list ((fun c => sum_list ((fun r => F r c) <$> rs)) <$> cs)
  = sum_list ((fun r => sum_list ((fun c => F r c) <$> cs)) <$> rs).
Proof.
  induction rs as [|r rs IH].
  - simpl. apply sum_list_fmap_zero.
  - rewrite fmap_cons, sum_list_cons, <- IH, <- sum_list_fmap_add.
    f_equal.
Qed.

Lemma board_sum_transposed b :
  square b = true -> board_sum (transposed b) = board_sum b.
Proof.
  intros Hsq. rewrite (square_cells b Hsq) at 2.
  unfold board_sum, transposed.
  rewrite <- !list_fmap_compose. apply sum_list_exchange.
Qed.

Lemma board_sum_reversed b : board_sum (reverse <$> b) = board_sum b.
Proof.
  unfold board_sum. rewrite <- list_fmap_compose. f_equal.
  apply list_fmap_ext. intros _ row _. apply sum_list_reverse.
Qed.

Lemma board_sum_slid b : board_sum (slide_left <$> b) = board_sum b.
Proof.
  unfold board_sum. rewrite <- list_fmap_compose. f_equal.
  apply list_fmap_ext. intros _ row _. apply slide_left_sum.
Qed.

Lemma board_sum_orient d b :
  square b = true -> board_sum (orient d b) = board_sum b.
Proof.
  intros Hsq. destruct d; simpl;
    rewrite ?board_sum_reversed; auto using board_sum_transposed.
Qed.

Lemma board_sum_unorient d b :
  square b = true -> board_sum (unorient d b) = board_sum b.
Proof.
  intros Hsq. destruct d; simpl.
  - by apply board_sum_transposed.
  - rewrite board_sum_transposed by (by apply reversed_square).
    apply board_sum_reversed.
  - done.
  - apply board_sum_reversed.
Qed.

(** *** Tile values *)

Lemma is_power_of_two_iff z :
  is_power_of_two z = true <-> exists k, 0 <= k /\ z = 2 ^ k.
Proof.
  unfold is_power_of_two. rewrite andb_true_iff, Z.ltb_lt, Z.eqb_eq. split.
  - intros [_ Hz]. exists (Z.log2 z). split; [apply Z.log2_nonneg|done].
  - intros (k & Hk & ->). split; [by apply Z.pow_pos_nonneg|].
    by rewrite Z.log2_pow2.
Qed.

Lemma is_power_of_two_double z :
  is_power_of_two z = true -> is_power_of_two (z * 2) = true.
Proof.
  unfold is_power_of_two.
  intros [Hpos%Z.ltb_lt Hpow%Z.eqb_eq]%andb_true_iff.
  apply andb_true_iff. split; [apply Z.ltb_lt; lia|]. apply Z.eqb_eq.
  rewrite (Z.mul_comm z 2), Z.log2_double by done.
  rewrite Z.pow_succ_r by apply Z.log2_nonneg. lia.
Qed.

Lemma tile_ok_double z : tile_ok z = true -> tile_ok (z * 2) = true.
Proof.
  unfold tile_ok. intros [->%Z.eqb_eq|Hp]%orb_true_iff; [done|].
  by rewrite is_power_of_two_double, orb_true_r.
Qed.

Lemma tile_ok_nonneg z : tile_ok z = true -> 0 <= z.
Proof.
  unfold tile_ok, is_power_of_two.
  intros [->%Z.eqb_eq|[Hpos%Z.ltb_lt _]%andb_true_iff]%orb_true_iff; lia.
Qed.

Lemma forallb_Forall {A : Type} (f : A -> bool) (l : list A) :
  forallb f l = true <-> Forall (fun x => f x = true) l.
Proof.
  rewrite forallb_forall, Forall_forall.
  split; intros Hall x Hx; apply Hall; by apply list_elem_of_In.
Qed.

Lemma well_formed_iff b :
  well_formed b = true <-> square b = true /\ tiles_ok b.
Proof.
  unfold well_formed, tiles_ok. rewrite andb_true_iff, forallb_Forall.
  split; intros [Hsq Hall]; (split; [done|]);
    (eapply Forall_impl; [exact Hall|]); intros row; apply forallb_Forall.
Qed.

Lemma well_formed_square b : well_formed b = true -> square b = true.
Proof. by intros [? _]%well_formed_iff. Qed.

Lemma tiles_ok_cell b r c :
  tiles_ok b -> tile_ok (cell b r c) = true.
Proof.
  intros Hok. unfold cell.
  destruct (b !! r) as [row|] eqn:Hr.
  - rewrite (list_lookup_total_correct _ _ _ Hr).
    pose proof (Forall_lookup_1 _ _ _ _ Hok Hr) as Hrow.
    destruct (row !! c) as [x|] eqn:Hc.
    + rewrite (list_lookup_total_correct _ _ _ Hc).
      exact (Forall_lookup_1 _ _ _ _ Hrow Hc).
    + by rewrite list_lookup_total_alt, Hc.
  - by rewrite (list_lookup_total_alt b), Hr.
Qed.

Lemma tiles_ok_transposed b : tiles_ok b -> tiles_ok (transposed b).
Proof.
  intros Hok. unfold tiles_ok, transposed.
  apply Forall_fmap, Forall_forall. intros c _. simpl.
  apply Forall_fmap, Forall_forall. intros r _. simpl.
  by apply tiles_ok_cell.
Qed.

Lemma tiles_ok_reversed b : tiles_ok b -> tiles_ok (reverse <$> b).
Proof.
  intros Hok. apply Forall_fmap. eapply Forall_impl; [exact Hok|].
  intros row Hrow. simpl. by apply Forall_reverse.
Qed.

Lemma merge_out_tiles l :
  Forall (fun z => tile_ok z = true) l ->
  Forall (fun z => tile_ok z = true) (merge_out l).
Proof.
  induction l as [|r IH|x Hx|x t Hx IH|x y t Hx Hxy IH] using scan_ind;
    intros Hl.
  - constructor.
  - rewrite merge_out_zero. apply IH. by apply Forall_cons in Hl as [_ ?].
  - by rewrite merge_out_one.
  - rewrite merge_out_pair by done.
    apply Forall_cons in Hl as [Hok [_ Ht]%Forall_cons].
    constructor; [by apply tile_ok_double|by apply IH].
  - rewrite merge_out_step by done.
    apply Forall_cons in Hl as [Hok Hl]. constructor; [done|by apply IH].
Qed.

Lemma nonzeros_tiles l :
  Forall (fun z => tile_ok z = true) l ->
  Forall (fun z => tile_ok z = true) (nonzeros l).
Proof.
  induction 1 as [|x l Hx _ IH]; [constructor|].
  rewrite nonzeros_cons. destruct (x =? 0); [done|by constructor].
Qed.

Lemma slide_left_tiles l :
  Forall (fun z => tile_ok z = true) l ->
  Forall (fun z => tile_ok z = true) (slide_left l).
Proof.
  intros Hl. unfold slide_left, pad. apply Forall_app. split.
  - by apply merge_out_tiles, nonzeros_tiles.
  - apply Forall_forall. by intros z ->%elem_of_replicate_inv.
Qed.

Lemma tiles_ok_slid b : tiles_ok b -> tiles_ok (slide_left <$> b).
Proof.
  intros Hok. apply Forall_fmap. eapply Forall_impl; [exact Hok|].
  intros row. apply slide_left_tiles.
Qed.

Lemma tiles_ok_orient d b : tiles_ok b -> tiles_ok (orient d b).
Proof.
  intros Hok. destruct d; simpl;
    auto using tiles_ok_transposed, tiles_ok_reversed.
Qed.

Lemma tiles_ok_unorient d b : tiles_ok b -> tiles_ok (unorient d b).
Proof.
  intros Hok. destruct d; simpl;
    auto using tiles_ok_transposed, tiles_ok_reversed.
Qed.

Lemma tiles_ok_nonneg b row :
  tiles_ok b -> row ∈ b -> Forall (fun x => 0 <= x) row.
Proof.
  intros Hok Hin. unfold tiles_ok in Hok. rewrite Forall_forall in Hok.
  eapply Forall_impl; [by apply Hok|]. intros z. apply tile_ok_nonneg.
Qed.

End Invariants.

(** ** Random tiles and the initial board *)

Section Tiles.

Implicit Types (b : list (list Z)) (g : rng).

Lemma set_cell_length b r c v : length (set_cell b r c v) = length b.
Proof. apply length_insert. Qed.

Lemma set_cell_same b r c v :
  (r < length b)%nat -> (c < length (b !!! r))%nat ->
  cell (set_cell b r c v) r c = v.
Proof.
  intros Hr Hc. unfold cell, set_cell.
  rewrite list_lookup_total_insert_eq by done.
  by rewrite list_lookup_total_insert_eq.
Qed.

Lemma set_cell_other b r c v r' c' :
  (r', c') ≠ (r, c) -> cell (set_cell b r c v) r' c' = cell b r' c'.
Proof.
  intros Hne. unfold cell, set_cell.
  destruct (decide (r = r')) as [<-|Hr].
  - destruct (decide (r < length b)%nat) as [Hlt|Hge].
    + rewrite list_lookup_total_insert_eq by done.
      apply list_lookup_total_insert_ne. congruence.
    + by rewrite list_insert_ge by lia.
  - by rewrite list_lookup_total_insert_ne.
Qed.

Lemma set_cell_Forall (P : Z -> Prop) b r c v :
  Forall (Forall P) b -> P v -> Forall (Forall P) (set_cell b r c v).
Proof.
  intros Hb Hv. unfold set_cell.
  destruct (decide (r < length b)%nat) as [Hlt|Hge].
  - apply Forall_insert; [done|].
    apply Forall_insert; [|done]. by apply Forall_lookup_total_1.
  - by rewrite list_insert_ge by lia.
Qed.

Lemma set_cell_square b r c v :
  square b = true -> square (set_cell b r c v) = true.
Proof.
  intros Hsq. apply (square_intro _ (length b)).
  - by apply square_pos.
  - apply set_cell_length.
  - unfold set_cell. destruct (decide (r < length b)%nat) as [Hlt|Hge].
    + apply Forall_insert; [by apply square_Forall|].
      rewrite length_insert. by apply square_row_total.
    + rewrite list_insert_ge by lia. by apply square_Forall.
Qed.

Lemma nonzeros_zero_free (l : list Z) :
  Forall (fun z => z = 0) l -> nonzeros l = [].
Proof.
  induction 1 as [|x l -> _ IH]; [done|]. by rewrite nonzeros_cons.
Qed.

Lemma count_nonzero_zero n m :
  count_nonzero (replicate n (replicate m 0)) = 0%nat.
Proof.
  unfold count_nonzero. rewrite nonzeros_zero_free; [done|].
  apply Forall_concat, Forall_replicate, Forall_replicate. done.
Qed.

(** A tile put on an empty cell is one more tile. *)
Lemma count_nonzero_set_cell b r c v :
  (r < length b)%nat -> (c < length (b !!! r))%nat ->
  cell b r c = 0 -> v ≠ 0 ->
  count_nonzero (set_cell b r c v) = S (count_nonzero b).
Proof.
  intros Hr Hc Hz Hv. unfold count_nonzero, set_cell.
  set (row := b !!! r) in *.
  assert (Hrow : b !! r = Some row) by (by apply list_lookup_lookup_total_lt).
  assert (Hcell : row !! c = Some 0).
  { rewrite <- Hz. unfold cell. fold row. by apply list_lookup_lookup_total_lt. }
  rewrite <- (take_drop_middle b r row Hrow) at 2.
  rewrite insert_take_drop by done.
  rewrite !concat_app, !concat_cons, !nonzeros_app, !length_app.
  rewrite <- (take_drop_middle row c 0 Hcell) at 2.
  rewrite insert_take_drop by done.
  rewrite !nonzeros_app, !nonzeros_cons, !length_app.
  destruct (Z.eqb_spec v 0); [done|]. simpl. lia.
Qed.

Lemma random_choice_elem {A : Type} `{Inhabited A} (l : list A) g :
  l ≠ [] -> (random_choice l g).1 ∈ l.
Proof.
  intros Hne. unfold random_choice, next_draw. simpl.
  apply list_elem_of_lookup_total_2, Nat.mod_upper_bound.
  destruct l; [done|]. simpl. lia.
Qed.

Lemma add_random_tile_full b g :
  square b = true ->
  (forall r c, (r < length b)%nat -> (c < length b)%nat -> cell b r c ≠ 0) ->
  add_random_tile b g = (Ok (b, false), g).
Proof.
  intros Hsq Hfull. unfold add_random_tile.
  rewrite get_empty_cells_spec, Hsq.
  apply empty_cells_none in Hfull. rewrite Hfull. by rewrite copy_board_id.
Qed.

Lemma add_random_tile_empty b g :
  square b = true ->
  is_empty_list (empty_cells_ref b (length b)) = false ->
  exists r c v g',
    (r < length b)%nat /\ (c < length b)%nat /\ cell b r c = 0
    /\ (r, c) ∈ empty_cells_ref b (length b)
    /\ (v = 2 \/ v = 4)
    /\ add_random_tile b g = (Ok (set_cell b r c v, true), g').
Proof.
  intros Hsq Hnonempty. unfold add_random_tile.
  rewrite get_empty_cells_spec, Hsq, Hnonempty, copy_board_id.
  assert (Hne : empty_cells_ref b (length b) ≠ []).
  { intros Hnil. by rewrite Hnil in Hnonempty. }
  pose proof (random_choice_elem _ g Hne) as Hin.
  destruct (random_choice (empty_cells_ref b (length b)) g) as [[r c] g1].
  destruct (random_below_tenth g1) as [four g2]. simpl in Hin.
  apply empty_cells_elem in Hin as Hcell. destruct Hcell as (Hr & Hc & Hz).
  exists r, c, (if four then 4 else 2), g2.
  repeat split; try done. destruct four; auto.
Qed.

Lemma add_random_tile_raises b g :
  square b = false -> add_random_tile b g = (Raise ValueError, g).
Proof.
  intros Hsq. unfold add_random_tile. by rewrite get_empty_cells_spec, Hsq.
Qed.

Lemma zero_board_square n :
  (0 < n)%nat -> square (replicate n (replicate n 0)) = true.
Proof.
  intros Hn. apply (square_intro _ n); [done|apply length_replicate|].
  apply Forall_replicate, length_replicate.
Qed.

Lemma zero_board_cell n r c :
  (r < n)%nat -> (c < n)%nat -> cell (replicate n (replicate n 0)) r c = 0.
Proof.
  intros Hr Hc. unfold cell.
  rewrite lookup_total_replicate_2 by done.
  by rewrite lookup_total_replicate_2.
Qed.

End Tiles.

(** * The properties of the specification *)

Section MoveProperties.

Implicit Types (b : list (list Z)) (d : DIRECTION).

(** C1.  On a well-formed board, [process_move] reports [changed = true]
    for a direction exactly when [is_move_possible_in_direction] returns
    true for it, that is when some non-empty cell has, in that direction,
    a neighbour in bounds that is empty or of equal value. *)
Theorem process_move_changed_iff_move_possible b d :
  well_formed b = true ->
  exists b' score changed possible,
    process_move b d = Ok (b', score, changed)
    /\ is_move_possible_in_direction b d = Ok possible
    /\ (changed = true <-> possible = true).
Proof.
  intros Hsq%well_formed_square.
  eexists _, _, _, _. split; [by apply process_move_spec|].
  split; [by rewrite is_move_possible_spec, Hsq|]. done.
Qed.

Lemma process_move_changed_iff_move_possible_witness :
  well_formed board_B = true
  /\ exists b' score changed possible,
       process_move board_B LEFT = Ok (b', score, changed)
       /\ is_move_possible_in_direction board_B LEFT = Ok possible
       /\ (changed = true <-> possible = true).
Proof.
  split; [vm_compute; reflexivity|].
  apply (process_move_changed_iff_move_possible board_B LEFT).
  vm_compute; reflexivity.
Defined.

(** C2.  On a well-formed board a move keeps the sum of all cells, and
    its score delta is the sum of the outputs of the merged pairs of the
    lines taken in the direction of travel: a pair [(v, v)] contributes
    [2v]. *)
Theorem process_move_conserves_total b d :
  well_formed b = true ->
  exists b' score changed,
    process_move b d = Ok (b', score, changed)
    /\ board_sum b' = board_sum b
    /\ score
       = sum_list ((fun line => sum_list (merge_outputs (nonzeros line)))
                     <$> orient d b).
Proof.
  intros Hsq%well_formed_square.
  eexists _, _, _. split; [by apply process_move_spec|]. split; [|done].
  rewrite board_sum_unorient by (by apply slid_square, orient_square).
  rewrite board_sum_slid. by apply board_sum_orient.
Qed.

Lemma process_move_conserves_total_witness :
  well_formed board_B = true
  /\ exists b' score changed,
       process_move board_B UP = Ok (b', score, changed)
       /\ board_sum b' = board_sum board_B
       /\ score
          = sum_list ((fun line => sum_list (merge_outputs (nonzeros line)))
                        <$> orient UP board_B).
Proof.
  split; [vm_compute; reflexivity|].
  apply (process_move_conserves_total board_B UP).
  vm_compute; reflexivity.
Defined.

(** C3, as stated, fails: the tiles produced by the merges of a move can
    merge with each other in the next move.  [[2; 2; 2; 2]] moved left is
    [[4; 4; 0; 0]], and moved left again is [[8; 0; 0; 0]]: the second
    application reports [changed = true]. *)
Lemma second_move_changes_again :
  well_formed board_B = true
  /\ process_move board_B LEFT = Ok (board_B_left, 8, true)
  /\ process_move board_B_left LEFT = Ok (board_B_left_twice, 8, true)
  /\ ~ (forall b d b1 s1 c1 b2 s2 c2,
          well_formed b = true ->
          process_move b d = Ok (b1, s1, c1) ->
          process_move b1 d = Ok (b2, s2, c2) ->
          c2 = false).
Proof.
  assert (H1 : process_move board_B LEFT = Ok (board_B_left, 8, true))
    by (vm_compute; reflexivity).
  assert (H2 : process_move board_B_left LEFT = Ok (board_B_left_twice, 8, true))
    by (vm_compute; reflexivity).
  split; [vm_compute; reflexivity|]. split; [done|]. split; [done|].
  intros Hall.
  specialize (Hall board_B LEFT _ _ _ _ _ _ ltac:(vm_compute; reflexivity) H1 H2).
  discriminate.
Qed.

Lemma sum_list_zero_nonneg (l : list Z) :
  Forall (fun x => 0 <= x) l -> sum_list l = 0 -> Forall (fun x => x = 0) l.
Proof.
  induction 1 as [|x l Hx Hl IH]; [constructor|].
  rewrite sum_list_cons. intros Hsum.
  assert (0 <= sum_list l).
  { clear -Hl. induction Hl as [|y l Hy _ IH]; [done|].
    rewrite sum_list_cons. lia. }
  constructor; [lia|]. apply IH. lia.
Qed.

(** A move that merged nothing leaves every line stuck. *)
Lemma no_merge_stuck (rows : list (list Z)) :
  tiles_ok rows -> sum_list (line_score <$> rows) = 0 ->
  existsb movable (slide_left <$> rows) = false.
Proof.
  intros Hok Hsum.
  assert (Hzero : Forall (fun x => x = 0) (line_score <$> rows)).
  { apply sum_list_zero_nonneg; [|done].
    apply Forall_fmap, Forall_forall. intros row Hrow. simpl.
    by eapply line_score_nonneg, tiles_ok_nonneg. }
  apply Forall_fmap in Hzero.
  induction rows as [|row rows IH]; [done|].
  apply Forall_cons in Hzero as [Hrow Hrows].
  apply Forall_cons in Hok as Hok'. destruct Hok' as [Hrow_ok Hrows_ok].
  rewrite fmap_cons. cbn [existsb].
  rewrite slide_left_stuck.
  - apply IH; [done| |done].
    rewrite fmap_cons, sum_list_cons in Hsum. simpl in Hrow. lia.
  - apply line_score_zero; [|done].
    eapply Forall_impl; [exact Hrow_ok|]. intros z. apply tile_ok_nonneg.
Qed.

Lemma stuck_board_score (rows : list (list Z)) :
  existsb movable rows = false -> sum_list (line_score <$> rows) = 0.
Proof.
  induction rows as [|row rows IH]; [done|]. cbn [existsb].
  intros [Hrow Hrows]%orb_false_elim.
  by rewrite fmap_cons, sum_list_cons, (stuck_score row Hrow), IH.
Qed.

(** A line that was slid and is merged no further is left as it is. *)
Lemma slid_line_fixed (row : list Z) :
  merged_pairs (nonzeros (slide_left row)) = [] ->
  slide_left (slide_left row) = slide_left row.
Proof.
  assert (Hnz : nonzeros (slide_left row) = merge_out (nonzeros row))
    by (unfold slide_left; apply nonzeros_pad, merge_out_Forall).
  intros Hp. rewrite Hnz in Hp.
  apply merge_out_fixed in Hp; [|apply merge_out_Forall].
  unfold slide_left at 1. rewrite slide_left_length, Hnz, Hp. done.
Qed.

(** A slid line that can still move does so by a merge. *)
Lemma slid_line_merges (row : list Z) :
  Forall (fun z => tile_ok z = true) row ->
  movable (slide_left row) = true -> 0 < line_score (slide_left row).
Proof.
  intros Hok Hm.
  assert (Hnn : Forall (fun x => 0 <= x) (slide_left row)).
  { eapply Forall_impl; [by apply slide_left_tiles|].
    intros z. apply tile_ok_nonneg. }
  pose proof (line_score_nonneg _ Hnn) as Hle.
  destruct (decide (line_score (slide_left row) = 0)) as [Hz|]; [|lia].
  apply line_score_zero in Hz; [|done].
  apply slid_line_fixed, slide_left_fixed_iff in Hz. congruence.
Qed.

Lemma rows_score_nonneg (rows : list (list Z)) :
  tiles_ok rows -> 0 <= sum_list (line_score <$> rows).
Proof.
  induction 1 as [|row rows Hrow _ IH]; [done|].
  rewrite fmap_cons, sum_list_cons.
  assert (0 <= line_score row); [|lia].
  apply line_score_nonneg. eapply Forall_impl; [exact Hrow|].
  intros z. apply tile_ok_nonneg.
Qed.

Lemma slid_board_merges (rows : list (list Z)) :
  tiles_ok rows ->
  existsb movable (slide_left <$> rows) = true ->
  0 < sum_list (line_score <$> (slide_left <$> rows)).
Proof.
  induction 1 as [|row rows Hrow Hrows IH]; [done|].
  rewrite !fmap_cons, sum_list_cons. cbn [existsb].
  pose proof (rows_score_nonneg _ (tiles_ok_slid _ Hrows)) as Hrest.
  assert (Hnn : 0 <= line_score (slide_left row)).
  { apply line_score_nonneg. eapply Forall_impl; [by apply slide_left_tiles|].
    intros z. apply tile_ok_nonneg. }
  intros [Hm|Hm]%orb_true_iff.
  - pose proof (slid_line_merges row Hrow Hm). lia.
  - specialize (IH Hm). lia.
Qed.

(** C3, amended.  A second immediate application of the same direction
    changes the board exactly when it merges: [c2] is true if and only if
    the second score delta is positive, so that no tile slides without a
    merge.  When [c2] is false, [board2] equals [board1] and the second
    score delta is zero; and [c2] is false whenever the first application
    merged nothing (its score delta is zero). *)
Theorem second_move_changes_iff_merges b d b1 s1 c1 b2 s2 c2 :
  well_formed b = true ->
  process_move b d = Ok (b1, s1, c1) ->
  process_move b1 d = Ok (b2, s2, c2) ->
  (c2 = true <-> 0 < s2)
  /\ (c2 = false -> b2 = b1 /\ s2 = 0)
  /\ (s1 = 0 -> c2 = false).
Proof.
  intros [Hsq Hok]%well_formed_iff Hmove1 Hmove2.
  rewrite process_move_spec in Hmove1 by done.
  injection Hmove1 as Hb1 Hs1 Hc1.
  pose proof (orient_square d b Hsq) as Hosq.
  pose proof (slid_square _ Hosq) as Hssq.
  pose proof (tiles_ok_orient d b Hok) as Hrok.
  assert (Hsq1 : square b1 = true) by (subst b1; by apply unorient_square).
  assert (Hor : orient d b1 = slide_left <$> orient d b)
    by (subst b1; by apply orient_unorient).
  rewrite process_move_spec in Hmove2 by done. rewrite Hor in Hmove2.
  injection Hmove2 as Hb2 Hs2 Hc2.
  split; [|split].
  - subst s2 c2. split; [by apply slid_board_merges|].
    intros Hpos.
    destruct (existsb movable (slide_left <$> orient d b)) eqn:Hstuck; [done|].
    rewrite (stuck_board_score _ Hstuck) in Hpos. lia.
  - intros ->. split.
    + rewrite <- Hb2, <- Hb1. by rewrite (slid_stuck _ Hc2).
    + rewrite <- Hs2. by apply stuck_board_score.
  - intros ->. rewrite <- Hc2. by apply no_merge_stuck.
Qed.

Lemma second_move_changes_iff_merges_witness :
  well_formed board_A = true
  /\ process_move board_A LEFT = Ok (board_A_left, 4, true)
  /\ process_move board_A_left LEFT = Ok (board_A_left, 0, false)
  /\ (false = true <-> 0 < 0)
  /\ (false = false -> board_A_left = board_A_left /\ 0 = 0)
  /\ (4 = 0 -> false = false).
Proof.
  split; [vm_compute; reflexivity|]. split; [vm_compute; reflexivity|].
  split; [vm_compute; reflexivity|].
  apply (second_move_changes_iff_merges board_A LEFT board_A_left 4 true
           board_A_left 0 false); vm_compute; reflexivity.
Defined.

End MoveProperties.

Section TransformProperties.

Implicit Types (b : list (list Z)) (d : DIRECTION).

Lemma forward_transform_spec d b :
  square b = true -> forward_transform d b = Ok (orient d b).
Proof.
  intros Hsq. destruct d; simpl;
    rewrite ?transpose_board_spec, ?Hsq, ?reverse_rows_spec; simpl;
    by rewrite ?reverse_rows_spec.
Qed.

Lemma inverse_transform_spec d b :
  square b = true -> inverse_transform d b = Ok (unorient d b).
Proof.
  intros Hsq. destruct d; simpl;
    rewrite ?reverse_rows_spec, ?transpose_board_spec, ?Hsq,
            ?reversed_square by done; done.
Qed.

(** C5.  On a well-formed board [process_move], which applies the inverse
    transform only when the slide changed something, returns what the
    variant that always applies it returns.  Equivalently: when the
    left-slide of the transformed board reports no change, the inverse
    transform of its result is the original board. *)
Theorem process_move_conditional_inverse b d :
  well_formed b = true ->
  (exists res, process_move b d = Ok res)
  /\ process_move b d = process_move_always_inverse b d
  /\ (forall oriented processed score,
        forward_transform d b = Ok oriented ->
        _apply_left_processing_to_all_lines oriented
        = Ok (processed, score, false) ->
        inverse_transform d processed = Ok b).
Proof.
  intros Hsq%well_formed_square.
  pose proof (orient_square d b Hsq) as Hosq.
  pose proof (slid_square _ Hosq) as Hssq.
  split; [eexists; by apply process_move_spec|]. split.
  - rewrite process_move_spec by done.
    unfold process_move_always_inverse.
    rewrite copy_board_id, forward_transform_spec by done. simpl.
    rewrite apply_left_spec, Hosq. simpl.
    by rewrite inverse_transform_spec.
  - intros oriented processed score Hfwd Hslide.
    rewrite forward_transform_spec in Hfwd by done. injection Hfwd as <-.
    rewrite apply_left_spec, Hosq in Hslide.
    injection Hslide as Hproc _ Hstuck.
    rewrite slid_stuck in Hproc by done. subst processed.
    rewrite inverse_transform_spec by done.
    by rewrite unorient_orient.
Qed.

Lemma process_move_conditional_inverse_witness :
  well_formed board_C = true
  /\ (exists res, process_move board_C DOWN = Ok res)
  /\ process_move board_C DOWN = process_move_always_inverse board_C DOWN
  /\ (forall oriented processed score,
        forward_transform DOWN board_C = Ok oriented ->
        _apply_left_processing_to_all_lines oriented
        = Ok (processed, score, false) ->
        inverse_transform DOWN processed = Ok board_C).
Proof.
  split; [vm_compute; reflexivity|].
  apply (process_move_conditional_inverse board_C DOWN).
  vm_compute; reflexivity.
Defined.

(** C8.  Scenario B: the row [[2; 2; 2; 2]] moved left becomes
    [[4; 4; 0; 0]]; the two produced 4s are not merged again in the same
    pass, the score delta is 8 and the board changed. *)
Theorem scenario_B_left :
  process_move board_B LEFT = Ok (board_B_left, 8, true)
  /\ board_B_left !! 0%nat = Some [4; 4; 0; 0].
Proof. split; vm_compute; reflexivity. Qed.

(** C9, for moves: an oriented, slid and restored board is well formed. *)
Lemma process_move_well_formed b d :
  well_formed b = true ->
  exists b' score changed,
    process_move b d = Ok (b', score, changed)
    /\ well_formed b' = true /\ length b' = length b.
Proof.
  intros [Hsq Hok]%well_formed_iff.
  pose proof (orient_square d b Hsq) as Hosq.
  pose proof (slid_square _ Hosq) as Hssq.
  eexists _, _, _. split; [by apply process_move_spec|]. split.
  - apply well_formed_iff. split; [by apply unorient_square|].
    by apply tiles_ok_unorient, tiles_ok_slid, tiles_ok_orient.
  - rewrite <- (orient_length d (unorient d _)).
    rewrite orient_unorient by done.
    by rewrite length_fmap, orient_length.
Qed.

End TransformProperties.

Section StatusProperties.

Implicit Types (b : list (list Z)).

(** C4.  On a well-formed board [determine_game_status] returns
    [GAME_WON] exactly when some cell equals the win tile, whatever else
    holds of the board; otherwise [GAME_OVER] exactly when no cell is
    empty and [is_any_move_possible] is false; and [IN_PROGRESS] in every
    remaining case. *)
Theorem determine_game_status_cases b win_tile :
  well_formed b = true ->
  exists status possible,
    determine_game_status b win_tile = Ok status
    /\ is_any_move_possible b = Ok possible
    /\ let won := exists r c, (r < length b)%nat /\ (c < length b)%nat
                              /\ cell b r c = win_tile in
       let full := forall r c, (r < length b)%nat -> (c < length b)%nat ->
                               cell b r c ≠ 0 in
       (status = GAME_WON <-> won)
       /\ (status = GAME_OVER <-> ~ won /\ full /\ possible = false)
       /\ (status = IN_PROGRESS <-> ~ won /\ ~ (full /\ possible = false)).
Proof.
  intros Hsq%well_formed_square.
  pose proof (check_for_win_spec b win_tile) as Hwin.
  pose proof (get_empty_cells_spec b) as Hcells.
  pose proof (is_any_move_possible_spec b) as Hposs.
  rewrite Hsq in Hwin, Hcells, Hposs.
  eexists _, _.
  split; [exact (determine_game_status_spec _ _ _ _ _ Hwin Hcells Hposs)|].
  split; [exact Hposs|]. cbv zeta.
  set (possible := existsb _ _).
  assert (Hwon : any_cell (length b) (fun r c => cell b r c =? win_tile) = true
                 <-> exists r c, (r < length b)%nat /\ (c < length b)%nat
                                 /\ cell b r c = win_tile).
  { rewrite any_cell_true. by setoid_rewrite Z.eqb_eq. }
  pose proof (empty_cells_none b (length b)) as Hfull.
  destruct (any_cell (length b) _) eqn:Hw.
  - assert (Hyes : exists r c, (r < length b)%nat /\ (c < length b)%nat
                               /\ cell b r c = win_tile) by (by apply Hwon).
    repeat split; try done; intros [Hno _]; by destruct Hno.
  - assert (Hno : ~ exists r c, (r < length b)%nat /\ (c < length b)%nat
                                /\ cell b r c = win_tile).
    { intros Hyes%Hwon. done. }
    destruct (is_empty_list (empty_cells_ref b (length b))) eqn:He.
    + assert (Hall : forall r c, (r < length b)%nat -> (c < length b)%nat ->
                                 cell b r c ≠ 0) by (by apply Hfull).
      destruct possible; simpl.
      * repeat split; try done.
        -- by intros (_ & _ & ?).
        -- by intros [_ ?].
      * repeat split; try done. intros [_ Hn]. by destruct Hn.
    + assert (Hnot : ~ forall r c, (r < length b)%nat -> (c < length b)%nat ->
                                   cell b r c ≠ 0).
      { intros Hall%Hfull. done. }
      simpl. repeat split; try done.
      * by intros (_ & ? & _).
      * by intros [? _].
Qed.

Lemma determine_game_status_cases_witness :
  well_formed board_won_full = true
  /\ exists status possible,
    determine_game_status board_won_full 2048 = Ok status
    /\ is_any_move_possible board_won_full = Ok possible
    /\ let won := exists r c, (r < length board_won_full)%nat
                              /\ (c < length board_won_full)%nat
                              /\ cell board_won_full r c = 2048 in
       let full := forall r c, (r < length board_won_full)%nat ->
                               (c < length board_won_full)%nat ->
                               cell board_won_full r c ≠ 0 in
       (status = GAME_WON <-> won)
       /\ (status = GAME_OVER <-> ~ won /\ full /\ possible = false)
       /\ (status = IN_PROGRESS <-> ~ won /\ ~ (full /\ possible = false)).
Proof.
  split; [vm_compute; reflexivity|].
  apply (determine_game_status_cases board_won_full 2048).
  vm_compute; reflexivity.
Defined.

(** The win check comes first: a full, stuck board that holds the win
    tile is won, and the same board with another win tile is lost. *)
Example status_won_full :
  is_any_move_possible board_won_full = Ok false
  /\ get_empty_cells board_won_full = Ok []
  /\ determine_game_status board_won_full 2048 = Ok GAME_WON
  /\ determine_game_status board_won_full 4096 = Ok GAME_OVER.
Proof. repeat split; vm_compute; reflexivity. Qed.

Example scenario_C :
  is_any_move_possible board_C = Ok false
  /\ determine_game_status board_C 2048 = Ok GAME_OVER.
Proof. split; vm_compute; reflexivity. Qed.

(** *** The empty board *)

Lemma zero_board_no_move n d :
  (0 < n)%nat ->
  is_move_possible_in_direction (replicate n (replicate n 0)) d = Ok false.
Proof.
  intros Hn. unfold is_move_possible_in_direction.
  rewrite get_board_size_spec, zero_board_square by done. simpl.
  rewrite length_replicate. f_equal. apply any_cell_false.
  intros r c Hr Hc. by rewrite zero_board_cell.
Qed.

(** C10.  On the all-zero board of size [n > 0] no move is possible in
    any direction, [process_move] reports [changed = false] for every
    direction, and [determine_game_status] returns [IN_PROGRESS] for a
    configured win tile (which is positive, so not zero); for no win tile
    at all is the empty board classified as lost. *)
Theorem empty_board_in_progress n win_tile :
  (0 < n)%nat -> win_tile ≠ 0 ->
  is_any_move_possible (replicate n (replicate n 0)) = Ok false
  /\ (forall d, is_move_possible_in_direction (replicate n (replicate n 0)) d
                = Ok false)
  /\ (forall d, process_move (replicate n (replicate n 0)) d
                = Ok (replicate n (replicate n 0), 0, false))
  /\ determine_game_status (replicate n (replicate n 0)) win_tile
     = Ok IN_PROGRESS
  /\ (forall w, determine_game_status (replicate n (replicate n 0)) w
                ≠ Ok GAME_OVER).
Proof.
  intros Hn Hw. set (z := replicate n (replicate n 0)).
  pose proof (zero_board_square n Hn) as Hsq. fold z in Hsq.
  assert (Hdir : forall d, existsb movable (orient d z) = false).
  { intros d. pose proof (zero_board_no_move n d Hn) as Hd. fold z in Hd.
    rewrite is_move_possible_spec, Hsq in Hd. by injection Hd. }
  assert (Hany : is_any_move_possible z = Ok false).
  { rewrite is_any_move_possible_spec, Hsq. cbn [existsb].
    by rewrite !Hdir. }
  assert (Hcells : is_empty_list (empty_cells_ref z (length z)) = false).
  { destruct (is_empty_list _) eqn:He; [|done].
    pose proof (proj1 (empty_cells_none z (length z)) He) as Hall.
    exfalso.
    apply (Hall 0%nat 0%nat); unfold z; rewrite ?length_replicate; try done.
    by apply zero_board_cell. }
  assert (Hstatus : forall w,
            determine_game_status z w
            = Ok (if any_cell (length z) (fun r c => cell z r c =? w)
                  then GAME_WON else IN_PROGRESS)).
  { intros w.
    rewrite (determine_game_status_spec z w _ _ false
               ltac:(by rewrite check_for_win_spec, Hsq)
               ltac:(by rewrite get_empty_cells_spec, Hsq) Hany).
    by rewrite Hcells. }
  split; [done|]. split; [intros d; by apply zero_board_no_move|].
  split; [|split].
  - intros d. rewrite process_move_spec by done.
    rewrite Hdir, (slid_stuck _ (Hdir d)), unorient_orient by done.
    by rewrite (stuck_board_score _ (Hdir d)).
  - rewrite Hstatus.
    replace (any_cell (length z) (fun r c => cell z r c =? win_tile))
      with false; [done|].
    symmetry. apply any_cell_false. intros r c Hr Hc.
    unfold z in *. rewrite length_replicate in Hr, Hc.
    rewrite zero_board_cell by done. by apply Z.eqb_neq.
  - intros w. rewrite Hstatus. by destruct (any_cell _ _).
Qed.

Lemma empty_board_in_progress_witness :
  (0 < 4)%nat /\ 2048 ≠ 0
  /\ is_any_move_possible (replicate 4 (replicate 4 0)) = Ok false
  /\ (forall d, is_move_possible_in_direction (replicate 4 (replicate 4 0)) d
                = Ok false)
  /\ (forall d, process_move (replicate 4 (replicate 4 0)) d
                = Ok (replicate 4 (replicate 4 0), 0, false))
  /\ determine_game_status (replicate 4 (replicate 4 0)) 2048
     = Ok IN_PROGRESS
  /\ (forall w, determine_game_status (replicate 4 (replicate 4 0)) w
                ≠ Ok GAME_OVER).
Proof.
  split; [lia|]. split; [lia|].
  apply (empty_board_in_progress 4 2048); lia.
Defined.

End StatusProperties.

Section TileProperties.

Implicit Types (b : list (list Z)) (g : rng).

(** C7.  On a well-formed board without an empty cell [add_random_tile]
    returns the same content and [added = false]; on a well-formed board
    whose only empty cell is [(r, c)] it returns [added = true] and a
    board that holds 2 or 4 at [(r, c)] and is unchanged everywhere
    else. *)
Theorem add_random_tile_full_or_single b g :
  well_formed b = true ->
  ((forall r c, (r < length b)%nat -> (c < length b)%nat -> cell b r c ≠ 0) ->
   add_random_tile b g = (Ok (b, false), g))
  /\ (forall r c,
        (r < length b)%nat -> (c < length b)%nat -> cell b r c = 0 ->
        (forall r' c', (r' < length b)%nat -> (c' < length b)%nat ->
                       cell b r' c' = 0 -> r' = r /\ c' = c) ->
        exists b' g' v,
          add_random_tile b g = (Ok (b', true), g')
          /\ (v = 2 \/ v = 4)
          /\ cell b' r c = v
          /\ (forall r' c', (r', c') ≠ (r, c) -> cell b' r' c' = cell b r' c')
          /\ square b' = true /\ length b' = length b).
Proof.
  intros Hsq%well_formed_square. split.
  - by apply add_random_tile_full.
  - intros r c Hr Hc Hz Honly.
    pose proof (empty_cells_single b (length b) r c Hr Hc Hz Honly) as Hcells.
    destruct (add_random_tile_empty b g Hsq) as
      (r1 & c1 & v & g' & _ & _ & _ & Hin & Hv & Hadd).
    { by rewrite Hcells. }
    rewrite Hcells in Hin. apply list_elem_of_singleton in Hin.
    injection Hin as -> ->.
    exists (set_cell b r c v), g', v. split; [done|]. split; [done|].
    split; [apply set_cell_same; [done|by rewrite square_row_total]|].
    split; [intros r' c'; apply set_cell_other|].
    split; [by apply set_cell_square|apply set_cell_length].
Qed.

Lemma add_random_tile_full_or_single_witness :
  well_formed board_one_empty = true
  /\ ((forall r c, (r < length board_one_empty)%nat ->
                   (c < length board_one_empty)%nat ->
                   cell board_one_empty r c ≠ 0) ->
      add_random_tile board_one_empty rng_zero
      = (Ok (board_one_empty, false), rng_zero))
  /\ (forall r c,
        (r < length board_one_empty)%nat -> (c < length board_one_empty)%nat ->
        cell board_one_empty r c = 0 ->
        (forall r' c', (r' < length board_one_empty)%nat ->
                       (c' < length board_one_empty)%nat ->
                       cell board_one_empty r' c' = 0 -> r' = r /\ c' = c) ->
        exists b' g' v,
          add_random_tile board_one_empty rng_zero = (Ok (b', true), g')
          /\ (v = 2 \/ v = 4)
          /\ cell b' r c = v
          /\ (forall r' c', (r', c') ≠ (r, c) ->
                            cell b' r' c' = cell board_one_empty r' c')
          /\ square b' = true /\ length b' = length board_one_empty).
Proof.
  split; [vm_compute; reflexivity|].
  apply (add_random_tile_full_or_single board_one_empty rng_zero).
  vm_compute; reflexivity.
Defined.

Example scenario_D :
  add_random_tile board_one_empty rng_zero
  = (Ok ([[2; 4; 2; 4]; [4; 2; 4; 2]; [2; 4; 2; 4]; [4; 2; 4; 2]], true),
     {| stream := stream rng_zero; cursor := 2 |})
  /\ add_random_tile board_C rng_zero = (Ok (board_C, false), rng_zero).
Proof. split; vm_compute; reflexivity. Qed.

Lemma new_tile_ok v : v = 2 \/ v = 4 -> tile_ok v = true.
Proof. by intros [-> | ->]. Qed.

Lemma add_random_tile_well_formed b g :
  well_formed b = true ->
  exists b' added g',
    add_random_tile b g = (Ok (b', added), g')
    /\ well_formed b' = true /\ length b' = length b.
Proof.
  intros Hwf. apply well_formed_iff in Hwf as Hwf'. destruct Hwf' as [Hsq Hok].
  destruct (is_empty_list (empty_cells_ref b (length b))) eqn:He.
  - exists b, false, g. split; [|done].
    apply add_random_tile_full; [done|]. by apply empty_cells_none.
  - destruct (add_random_tile_empty b g Hsq He) as
      (r & c & v & g' & _ & _ & _ & _ & Hv & Hadd).
    exists (set_cell b r c v), true, g'. split; [done|].
    split; [|apply set_cell_length].
    apply well_formed_iff. split; [by apply set_cell_square|].
    apply set_cell_Forall; [done|by apply new_tile_ok].
Qed.

(** C9.  A non-empty square board whose entries are zero or powers of two
    stays one under the core operations: the boards returned by
    [process_move], for every direction, and by [add_random_tile] are
    well formed, of the same size. *)
Theorem well_formed_preserved b :
  well_formed b = true ->
  (forall d, exists b' score changed,
      process_move b d = Ok (b', score, changed)
      /\ well_formed b' = true /\ length b' = length b)
  /\ (forall g, exists b' added g',
        add_random_tile b g = (Ok (b', added), g')
        /\ well_formed b' = true /\ length b' = length b).
Proof.
  intros Hwf. split.
  - intros d. by apply process_move_well_formed.
  - intros g. by apply add_random_tile_well_formed.
Qed.

Lemma well_formed_preserved_witness :
  well_formed board_gaps = true
  /\ (forall d, exists b' score changed,
        process_move board_gaps d = Ok (b', score, changed)
        /\ well_formed b' = true /\ length b' = length board_gaps)
  /\ (forall g, exists b' added g',
        add_random_tile board_gaps g = (Ok (b', added), g')
        /\ well_formed b' = true /\ length b' = length board_gaps).
Proof.
  split; [vm_compute; reflexivity|].
  apply (well_formed_preserved board_gaps). vm_compute; reflexivity.
Defined.

End TileProperties.

Section InitialBoard.

Implicit Types (g : rng).

Lemma initial_tile_new v : v = 2 \/ v = 4 -> initial_tile v.
Proof. unfold initial_tile. tauto. Qed.

Lemma zero_board_initial n :
  Forall (Forall initial_tile) (replicate n (replicate n 0)).
Proof. apply Forall_replicate, Forall_replicate. by left. Qed.

(** The first tile of a new game. *)
Lemma first_tile n g :
  (0 < n)%nat ->
  exists r c v g1,
    (r < n)%nat /\ (c < n)%nat /\ (v = 2 \/ v = 4)
    /\ add_random_tile (replicate n (replicate n 0)) g
       = (Ok (set_cell (replicate n (replicate n 0)) r c v, true), g1).
Proof.
  intros Hn. pose proof (zero_board_square n Hn) as Hsq.
  destruct (add_random_tile_empty _ g Hsq) as
    (r & c & v & g1 & Hr & Hc & _ & _ & Hv & Hadd).
  - destruct (is_empty_list _) eqn:He; [|done].
    pose proof (proj1 (empty_cells_none _ _) He 0%nat 0%nat) as Hall.
    rewrite length_replicate in Hall. exfalso. apply Hall; [done..|].
    by apply zero_board_cell.
  - rewrite length_replicate in Hr, Hc. by exists r, c, v, g1.
Qed.

Lemma initialize_board_positive z g :
  0 < z ->
  exists b g',
    initialize_board (PyInt z) g = (Ok (b, 0, IN_PROGRESS), g')
    /\ square b = true
    /\ length b = Z.to_nat z
    /\ Forall (Forall initial_tile) b
    /\ count_nonzero b = if z =? 1 then 1%nat else 2%nat.
Proof.
  intros Hz. unfold initialize_board.
  destruct (Z.leb_spec z 0) as [?|_]; [lia|].
  set (n := Z.to_nat z). assert (Hn : (0 < n)%nat) by lia.
  assert (Hone : (z =? 1) = (n =? 1)%nat).
  { destruct (Z.eqb_spec z 1), (Nat.eqb_spec n 1); (done || lia). }
  rewrite Hone. clearbody n. clear Hone Hz z.
  set (zb := replicate n (replicate n 0)).
  pose proof (zero_board_square n Hn) as Hzsq. fold zb in Hzsq.
  assert (Hzlen : length zb = n) by apply length_replicate.
  destruct (first_tile n g Hn) as (r1 & c1 & v1 & g1 & Hr1 & Hc1 & Hv1 & Hadd1).
  fold zb in Hadd1. rewrite Hadd1.
  set (b1 := set_cell zb r1 c1 v1) in *.
  assert (Hsq1 : square b1 = true) by (by apply set_cell_square).
  assert (Hlen1 : length b1 = n) by (unfold b1; by rewrite set_cell_length).
  assert (Hv1nz : v1 ≠ 0) by (destruct Hv1; lia).
  assert (Hrow1 : (c1 < length (zb !!! r1))%nat)
    by (rewrite square_row_total; (done || lia)).
  assert (Hinit1 : Forall (Forall initial_tile) b1).
  { apply set_cell_Forall; [apply zero_board_initial|by apply initial_tile_new]. }
  assert (Hcount1 : count_nonzero b1 = 1%nat).
  { unfold b1. rewrite count_nonzero_set_cell; try (done || lia).
    - unfold zb. by rewrite count_nonzero_zero.
    - by apply zero_board_cell. }
  assert (Hcell1 : cell b1 r1 c1 = v1) by (apply set_cell_same; (done || lia)).
  destruct (is_empty_list (empty_cells_ref b1 (length b1))) eqn:He.
  - (* no room for a second tile: the board has a single cell *)
    pose proof (proj1 (empty_cells_none b1 (length b1)) He) as Hfull.
    rewrite (add_random_tile_full b1 g1 Hsq1 Hfull).
    exists b1, g1. repeat split; try done.
    destruct (Nat.eqb_spec n 1) as [_|Hn1]; [done|]. exfalso.
    set (c' := if decide (c1 = 0%nat) then 1%nat else 0%nat).
    apply (Hfull r1 c'); [lia|unfold c'; case_decide; lia|].
    unfold b1. rewrite set_cell_other.
    + apply zero_board_cell; [done|unfold c'; case_decide; lia].
    + unfold c'. case_decide; intros [=]; lia.
  - destruct (add_random_tile_empty b1 g1 Hsq1 He) as
      (r2 & c2 & v2 & g2 & Hr2 & Hc2 & Hz2 & _ & Hv2 & Hadd2).
    rewrite Hadd2. exists (set_cell b1 r2 c2 v2), g2.
    split; [done|]. split; [by apply set_cell_square|].
    split; [by rewrite set_cell_length|].
    split; [apply set_cell_Forall; [done|by apply initial_tile_new]|].
    rewrite count_nonzero_set_cell, Hcount1;
      [|done|by rewrite square_row_total|done|destruct Hv2; lia].
    destruct (Nat.eqb_spec n 1) as [Hn1|_]; [|done]. exfalso.
    assert (r1 = 0 /\ c1 = 0 /\ r2 = 0 /\ c2 = 0)%nat as (-> & -> & -> & ->) by lia.
    congruence.
Qed.

(** C6, as stated, fails at size 1: the one-cell board takes the first
    tile and has no empty cell left for the second, so the initial board
    shows one tile. *)
Lemma initialize_board_one_cell :
  initialize_board (PyInt 1) rng_zero
  = (Ok ([[4]], 0, IN_PROGRESS), {| stream := stream rng_zero; cursor := 2 |})
  /\ count_nonzero [[4]] = 1%nat
  /\ ~ (forall z g, 0 < z ->
          exists b g',
            initialize_board (PyInt z) g = (Ok (b, 0, IN_PROGRESS), g')
            /\ count_nonzero b = 2%nat).
Proof.
  assert (Hrun : initialize_board (PyInt 1) rng_zero
                 = (Ok ([[4]], 0, IN_PROGRESS),
                    {| stream := stream rng_zero; cursor := 2 |}))
    by (vm_compute; reflexivity).
  split; [exact Hrun|]. split; [reflexivity|].
  intros Hall. destruct (Hall 1 rng_zero ltac:(lia)) as (b & g' & Hinit & Hcount).
  rewrite Hrun in Hinit. injection Hinit as <- _. discriminate.
Qed.

(** C6, amended.  [initialize_board] raises [ValueError] exactly when its
    argument is not a positive integer.  For a positive integer it returns
    score 0, state [IN_PROGRESS] and a square board of that size whose
    cells are 0, 2 or 4, with exactly two tiles when the size is at least
    2 and exactly one tile when the size is 1. *)
Theorem initialize_board_spec :
  (forall size g,
      (initialize_board size g).1 = Raise ValueError
      <-> ~ exists z, size = PyInt z /\ 0 < z)
  /\ (forall z g,
        0 < z ->
        exists b g',
          initialize_board (PyInt z) g = (Ok (b, 0, IN_PROGRESS), g')
          /\ square b = true
          /\ length b = Z.to_nat z
          /\ Forall (Forall initial_tile) b
          /\ count_nonzero b = if z =? 1 then 1%nat else 2%nat).
Proof.
  split; [|apply initialize_board_positive].
  intros size g. split.
  - intros Hraise (z & -> & Hz).
    destruct (initialize_board_positive z g Hz) as (b & g' & Hinit & _).
    rewrite Hinit in Hraise. discriminate.
  - intros Hnot. destruct size as [z|]; [|done]. simpl.
    destruct (Z.leb_spec z 0) as [_|Hz]; [done|].
    exfalso. apply Hnot. by exists z.
Qed.

Lemma initialize_board_spec_witness :
  0 < 4
  /\ exists b g',
       initialize_board (PyInt 4) rng_zero = (Ok (b, 0, IN_PROGRESS), g')
       /\ square b = true
       /\ length b = Z.to_nat 4
       /\ Forall (Forall initial_tile) b
       /\ count_nonzero b = if 4 =? 1 then 1%nat else 2%nat.
Proof.
  split; [lia|]. apply (proj2 initialize_board_spec 4 rng_zero). lia.
Defined.

Example initialize_board_four :
  initialize_board (PyInt 4) rng_zero
  = (Ok ([[4; 4; 0; 0]; [0; 0; 0; 0]; [0; 0; 0; 0]; [0; 0; 0; 0]],
         0, IN_PROGRESS),
     {| stream := stream rng_zero; cursor := 4 |})
  /\ (initialize_board (PyInt 0) rng_zero).1 = Raise ValueError
  /\ (initialize_board (PyInt (-3)) rng_zero).1 = Raise ValueError
  /\ (initialize_board PyNotInt rng_zero).1 = Raise ValueError.
Proof. repeat split; vm_compute; reflexivity. Qed.

End InitialBoard.

(** * Further properties of the code *)

(** ** Errors and the geometric transforms *)

Section FurtherGeometry.

Implicit Types (b t : list (list Z)) (d : DIRECTION).

Lemma forallb_false {A : Type} (f : A -> bool) (l : list A) :
  forallb f l = false <-> exists x, x ∈ l /\ f x = false.
Proof.
  induction l as [|x l IH]; simpl.
  - split; [done|]. by intros (x & Hx%elem_of_nil & _).
  - rewrite andb_false_iff, IH. split.
    + intros [Hx|(y & Hy & Hfy)]; [exists x|exists y]; split; try done.
      * by left.
      * by right.
    + intros (y & [->|Hy]%elem_of_cons & Hfy); [by left|right; eauto].
Qed.

Lemma square_false_ragged b : square b = false <-> ragged b.
Proof.
  unfold square, ragged. destruct b as [|row0 b]; [by split; [left|]|].
  cbn [is_empty_list negb andb]. rewrite forallb_false. split.
  - intros (row & Hin & Hlen%Nat.eqb_neq). right. eauto.
  - intros [?|(row & Hin & Hlen)]; [done|].
    exists row. split; [done|]. by apply Nat.eqb_neq.
Qed.

Lemma square_true_not_ragged b : square b = true <-> ~ ragged b.
Proof.
  rewrite <- square_false_ragged. destruct (square b); split; try done.
Qed.

Lemma process_move_if b d :
  process_move b d
  = if square b
    then Ok (unorient d (slide_left <$> orient d b),
             sum_list (line_score <$> orient d b),
             existsb movable (orient d b))
    else Raise ValueError.
Proof.
  destruct (square b) eqn:Hsq; [by apply process_move_spec|].
  by apply process_move_raises.
Qed.

Lemma determine_game_status_if b w :
  determine_game_status b w
  = if square b
    then Ok (if any_cell (length b) (fun r c => cell b r c =? w) then GAME_WON
             else if is_empty_list (empty_cells_ref b (length b))
                     && negb (existsb (fun d => existsb movable (orient d b))
                                      [UP; DOWN; LEFT; RIGHT])
                  then GAME_OVER else IN_PROGRESS)
    else Raise ValueError.
Proof.
  destruct (square b) eqn:Hsq.
  - apply determine_game_status_spec.
    + by rewrite check_for_win_spec, Hsq.
    + by rewrite get_empty_cells_spec, Hsq.
    + by rewrite is_any_move_possible_spec, Hsq.
  - unfold determine_game_status. by rewrite check_for_win_spec, Hsq.
Qed.

Lemma add_random_tile_if b g :
  (add_random_tile b g).1 = Raise ValueError <-> square b = false.
Proof.
  unfold add_random_tile. rewrite get_empty_cells_spec.
  destruct (square b); [|done]. split; [|done].
  destruct (is_empty_list _); [done|].
  destruct (random_choice _ g) as [[r c] g1].
  by destruct (random_below_tenth g1).
Qed.

Local Ltac by_square b :=
  rewrite <- ?square_false_ragged;
  destruct (square b); split; intros; (done || discriminate).

(** X1.  Every operation that takes a board raises [ValueError] exactly
    when the board is empty or ragged, and otherwise returns a value, with
    one addition: [process_move] also raises, on every board, when its
    direction is not a member of [DIRECTION].
    [is_move_possible_in_direction] answers [False] for such a direction
    on a square board, and [add_random_tile] raises without using the
    random source. *)
Theorem board_operations_raise_iff_ragged b :
  (get_board_size b = Raise ValueError <-> ragged b)
  /\ (get_empty_cells b = Raise ValueError <-> ragged b)
  /\ (transpose_board b = Raise ValueError <-> ragged b)
  /\ (forall direction,
        process_move_any_direction b direction = Raise ValueError
        <-> ragged b \/ direction = NotMember)
  /\ (forall w, check_for_win b w = Raise ValueError <-> ragged b)
  /\ (forall direction,
        is_move_possible_in_any_direction b direction = Raise ValueError
        <-> ragged b)
  /\ (~ ragged b -> is_move_possible_in_any_direction b NotMember = Ok false)
  /\ (is_any_move_possible b = Raise ValueError <-> ragged b)
  /\ (forall w, determine_game_status b w = Raise ValueError <-> ragged b)
  /\ (forall g, (add_random_tile b g).1 = Raise ValueError <-> ragged b)
  /\ (forall g, ragged b -> add_random_tile b g = (Raise ValueError, g))
  /\ (~ ragged b -> get_board_size b = Ok (length b)).
Proof.
  split; [rewrite get_board_size_spec; by_square b|].
  split; [rewrite get_empty_cells_spec; by_square b|].
  split; [rewrite transpose_board_spec; by_square b|].
  split.
  { intros [d|]; cbn [process_move_any_direction]; [|by split; [right|]].
    rewrite process_move_if, <- square_false_ragged.
    destruct (square b); split.
    - done.
    - by intros [|].
    - by left.
    - done. }
  split; [intros w; rewrite check_for_win_spec; by_square b|].
  split.
  { intros [d|]; cbn [is_move_possible_in_any_direction];
      [rewrite is_move_possible_spec|rewrite get_board_size_spec];
      by_square b. }
  split.
  { intros Hsq%square_true_not_ragged.
    cbn [is_move_possible_in_any_direction].
    rewrite get_board_size_spec, Hsq. cbn [result_bind]. f_equal.
    apply any_cell_false. intros r c _ _. by destruct (cell b r c =? 0). }
  split; [rewrite is_any_move_possible_spec; by_square b|].
  split; [intros w; rewrite determine_game_status_if; by_square b|].
  split; [intros g; rewrite <- square_false_ragged; apply add_random_tile_if|].
  split; [intros g Hsq%square_false_ragged; by apply add_random_tile_raises|].
  rewrite <- square_false_ragged, get_board_size_spec.
  destruct (square b); [done|]. intros Hne. by destruct Hne.
Qed.

(** X2.  [reverse_rows] never raises and is its own inverse on every
    board, ragged ones included; it keeps the number of rows and reverses
    each of them in place. *)
Theorem reverse_rows_involutive b :
  reverse_rows (reverse_rows b) = b
  /\ length (reverse_rows b) = length b
  /\ (forall r row, b !! r = Some row ->
                    reverse_rows b !! r = Some (reverse row)).
Proof.
  rewrite !reverse_rows_spec. split; [apply reversed_involutive|].
  split; [apply length_fmap|].
  intros r row Hr. by rewrite list_lookup_fmap, Hr.
Qed.

(** X3.  [transpose_board] round trip: transposing the transposed board
    gives the board back, and cell [(c, r)] of the transposed board is cell
    [(r, c)] of the board. *)
Theorem transpose_board_round_trip b t :
  transpose_board b = Ok t ->
  transpose_board t = Ok b
  /\ length t = length b
  /\ (forall r c, (r < length b)%nat -> (c < length b)%nat ->
                  cell t c r = cell b r c).
Proof.
  rewrite transpose_board_spec. destruct (square b) eqn:Hsq; [|done].
  intros [= <-]. split.
  - rewrite transpose_board_spec, transposed_square by done.
    by rewrite transposed_involutive.
  - split; [apply transposed_length|].
    intros r c Hr Hc. by apply transposed_cell.
Qed.

Lemma transpose_board_round_trip_witness :
  transpose_board board_gaps
  = Ok [[0; 8; 0; 2]; [2; 0; 0; 4]; [0; 0; 0; 8]; [4; 2; 0; 16]]
  /\ transpose_board [[0; 8; 0; 2]; [2; 0; 0; 4]; [0; 0; 0; 8]; [4; 2; 0; 16]]
     = Ok board_gaps
  /\ length [[0; 8; 0; 2]; [2; 0; 0; 4]; [0; 0; 0; 8]; [4; 2; 0; 16]]
     = length board_gaps
  /\ (forall r c, (r < length board_gaps)%nat -> (c < length board_gaps)%nat ->
                  cell [[0; 8; 0; 2]; [2; 0; 0; 4]; [0; 0; 0; 8]; [4; 2; 0; 16]] c r
                  = cell board_gaps r c).
Proof.
  split; [vm_compute; reflexivity|].
  apply (transpose_board_round_trip board_gaps). vm_compute; reflexivity.
Defined.

(** X4.  The directions are one move seen through the transforms: a move
    to the right is the move to the left of the mirrored board, and the
    moves up and down are the moves to the left and to the right of the
    transposed board.  The equations hold on every board: on a ragged board
    both sides raise. *)
Theorem process_move_through_transforms b :
  process_move (reverse_rows b) LEFT
  = (try res <- process_move b RIGHT;
     let '(b', s, c) := res in Ok (reverse_rows b', s, c))
  /\ process_move b UP
     = (try t <- transpose_board b;
        try res <- process_move t LEFT;
        let '(t', s, c) := res in
        try b' <- transpose_board t';
        Ok (b', s, c))
  /\ process_move b DOWN
     = (try t <- transpose_board b;
        try res <- process_move t RIGHT;
        let '(t', s, c) := res in
        try b' <- transpose_board t';
        Ok (b', s, c)).
Proof.
  rewrite reverse_rows_spec. destruct (square b) eqn:Hsq.
  - pose proof (reversed_square b Hsq) as Hrsq.
    pose proof (transposed_square b Hsq) as Htsq.
    rewrite transpose_board_spec, Hsq. cbn [result_bind].
    rewrite !(process_move_spec b), (process_move_spec (reverse <$> b)),
            !(process_move_spec (transposed b)) by done.
    cbn [result_bind orient unorient]. rewrite !reverse_rows_spec.
    rewrite !transpose_board_spec.
    rewrite (slid_square _ Htsq).
    rewrite (reversed_square _ (slid_square _ (reversed_square _ Htsq))).
    by rewrite reversed_involutive.
  - assert (Hrev : square (reverse <$> b) = false).
    { destruct (square (reverse <$> b)) eqn:Hr; [|done].
      apply reversed_square in Hr. rewrite reversed_involutive in Hr. congruence. }
    rewrite !process_move_raises, transpose_board_spec, Hsq by done. done.
Qed.

End FurtherGeometry.

(** ** The line reducer, stage by stage *)

Section FurtherLine.

Implicit Types (l line : list Z) (x y : Z).

Lemma pad_nonzeros_Permutation l : pad (length l) (nonzeros l) ≡ₚ l.
Proof.
  induction l as [|x l IH]; [done|].
  rewrite nonzeros_cons. cbn [length].
  destruct (Z.eqb_spec x 0) as [->|Hx].
  - unfold pad in *. pose proof (nonzeros_length l).
    replace (S (length l) - length (nonzeros l))%nat
      with (S (length l - length (nonzeros l))) by lia.
    simpl. rewrite <- Permutation_middle. by constructor.
  - rewrite pad_cons. by constructor.
Qed.

(** X5.  [_compress_line] rearranges the line without changing its
    content: the result has the same length and the same elements, the
    non-zero ones first and in their original order, zeros behind; and
    compressing the result again changes nothing. *)
Theorem compress_line_stable line :
  length (_compress_line line).1 = length line
  /\ (_compress_line line).1 ≡ₚ line
  /\ (exists k, (_compress_line line).1
                = filter (fun i => i ≠ 0) line ++ replicate k 0)
  /\ _compress_line (_compress_line line).1 = ((_compress_line line).1, false).
Proof.
  rewrite compress_line_spec. cbn [fst].
  pose proof (nonzeros_length line) as Hlen.
  split; [by apply pad_length|].
  split; [apply pad_nonzeros_Permutation|].
  split; [by eexists|].
  rewrite compress_line_spec, pad_length by done.
  rewrite nonzeros_pad by apply nonzeros_Forall.
  f_equal. by apply bool_decide_eq_false; intros Hne; apply Hne.
Qed.

(** X6.  The line that [_merge_line] returns is already compressed,
    whatever the input: the third stage of [_process_single_line_leftwise]
    never changes it.  The merge keeps the length and the sum of the
    line. *)
Theorem merge_line_compressed line :
  _compress_line (_merge_line line).1.1 = ((_merge_line line).1.1, false)
  /\ length (_merge_line line).1.1 = length line
  /\ sum_list (_merge_line line).1.1 = sum_list line
  /\ (_process_single_line_leftwise line).1.1
     = (_merge_line (_compress_line line).1).1.1.
Proof.
  pose proof (merge_out_length line) as Hlen.
  rewrite merge_line_spec. cbn [fst].
  split.
  { rewrite compress_line_spec, pad_length by done.
    rewrite nonzeros_pad by apply merge_out_Forall.
    f_equal. by apply bool_decide_eq_false; intros Hne; apply Hne. }
  split; [by apply pad_length|].
  split; [by rewrite sum_list_pad, merge_out_sum|].
  rewrite process_line_spec, compress_line_spec, merge_line_spec. cbn [fst].
  pose proof (nonzeros_length line).
  rewrite pad_length by done. unfold slide_left. f_equal.
  unfold pad. symmetry. apply merge_out_pad_zeros, nonzeros_Forall.
Qed.

Lemma merge_out_elem l y :
  y ∈ merge_out l -> exists x, x ∈ l /\ (y = x \/ y = x * 2).
Proof.
  induction l as [|r IH|x Hx|x t Hx IH|x y0 t Hx Hxy IH] using scan_ind.
  - by intros ?%elem_of_nil.
  - rewrite merge_out_zero. intros (x & Hin & Hy)%IH.
    exists x. split; [by right|done].
  - rewrite merge_out_one by done. intros ->%list_elem_of_singleton.
    exists x. split; [by left|by left].
  - rewrite merge_out_pair by done. intros [->|(z & Hin & Hy)%IH]%elem_of_cons.
    + exists x. split; [by left|by right].
    + exists z. split; [by do 2 right|done].
  - rewrite merge_out_step by done. intros [->|(z & Hin & Hy)%IH]%elem_of_cons.
    + exists x. split; [by left|by left].
    + exists z. split; [by right|done].
Qed.

(** What a slid line holds: zeros, tiles of the line, and doubled tiles of
    the line. *)
Lemma slide_left_elem line y :
  y ∈ slide_left line -> y = 0 \/ exists x, x ∈ line /\ (y = x \/ y = x * 2).
Proof.
  unfold slide_left, pad. intros [Hin|Hin]%elem_of_app.
  - right. apply merge_out_elem in Hin as (x & Hx & Hy).
    exists x. split; [|done]. unfold nonzeros in Hx.
    by apply list_elem_of_filter in Hx as [_ ?].
  - left. by apply elem_of_replicate_inv in Hin.
Qed.

Lemma merge_count l :
  (length (merge_out l) + length (merged_pairs l) = length (nonzeros l))%nat.
Proof.
  induction l as [|r IH|x Hx|x t Hx IH|x y t Hx Hxy IH] using scan_ind.
  - done.
  - by rewrite merge_out_zero, merged_pairs_zero, nonzeros_cons.
  - rewrite merge_out_one, merged_pairs_one, nonzeros_cons by done.
    by destruct (Z.eqb_spec x 0).
  - rewrite merge_out_pair, merged_pairs_pair, !nonzeros_cons by done.
    destruct (Z.eqb_spec x 0); [done|]. cbn [length]. lia.
  - rewrite merge_out_step, merged_pairs_step, (nonzeros_cons x) by done.
    destruct (Z.eqb_spec x 0); [done|]. cbn [length] in *. lia.
Qed.

Lemma nonzeros_full l : length (nonzeros l) = length l -> nonzeros l = l.
Proof.
  induction l as [|x l IH]; [done|].
  rewrite nonzeros_cons. pose proof (nonzeros_length l).
  destruct (x =? 0); simpl; intros Hlen; [lia|].
  f_equal. apply IH. lia.
Qed.

(** A line that moves ends in an empty cell. *)
Lemma movable_shorter line :
  movable line = true ->
  (length (merge_out (nonzeros line)) < length line)%nat.
Proof.
  intros Hmov.
  pose proof (nonzeros_length line) as Hnz.
  pose proof (merge_out_length (nonzeros line)) as Hout.
  destruct (decide (length (merge_out (nonzeros line)) < length line)%nat)
    as [|Hge]; [done|]. exfalso.
  pose proof (merge_count (nonzeros line)) as Hcount.
  rewrite (nonzeros_id (nonzeros line)) in Hcount by apply nonzeros_Forall.
  assert (Hpairs : merged_pairs (nonzeros line) = []).
  { destruct (merged_pairs (nonzeros line)); [done|]. simpl in Hcount. lia. }
  apply merge_out_fixed in Hpairs; [|apply nonzeros_Forall].
  assert (Hfull : nonzeros line = line) by (apply nonzeros_full; lia).
  assert (Hfix : slide_left line = line).
  { unfold slide_left, pad. rewrite Hpairs, Hfull, Nat.sub_diag. apply app_nil_r. }
  apply slide_left_fixed_iff in Hfix. congruence.
Qed.

Lemma movable_last_empty line :
  movable line = true -> slide_left line !!! (length line - 1)%nat = 0.
Proof.
  intros Hlt%movable_shorter. unfold slide_left, pad.
  rewrite lookup_total_app_r by lia.
  apply lookup_total_replicate_2. lia.
Qed.

Lemma line_score_double l :
  line_score l = 2 * sum_list (merged_pairs (nonzeros l)).
Proof.
  unfold line_score, merge_outputs.
  induction (merged_pairs (nonzeros l)) as [|p ps IH]; [done|].
  rewrite fmap_cons, !sum_list_cons, IH. lia.
Qed.

Lemma merge_outputs_bounded l :
  Forall (fun x => 0 <= x) l -> sum_list (merge_outputs l) <= sum_list l.
Proof.
  unfold merge_outputs.
  induction l as [|r IH|x Hx|x t Hx IH|x y t Hx Hxy IH] using scan_ind;
    intros Hl.
  - done.
  - rewrite merged_pairs_zero, sum_list_cons.
    apply Forall_cons in Hl as [_ Hr]. specialize (IH Hr). lia.
  - rewrite merged_pairs_one, sum_list_cons.
    apply Forall_cons in Hl as [H0 _]. unfold sum_list. simpl. lia.
  - rewrite merged_pairs_pair, fmap_cons, !sum_list_cons by done.
    apply Forall_cons in Hl as [_ [_ Ht]%Forall_cons]. specialize (IH Ht). lia.
  - rewrite merged_pairs_step, sum_list_cons by done.
    apply Forall_cons in Hl as [H0 Hr]. specialize (IH Hr). lia.
Qed.

Lemma line_score_bounded l :
  Forall (fun x => 0 <= x) l -> line_score l <= sum_list l.
Proof.
  intros Hl. unfold line_score. rewrite <- (sum_list_nonzeros l).
  by apply merge_outputs_bounded, nonzeros_nonneg.
Qed.

End FurtherLine.

(** ** Moves *)

Section FurtherMove.

Implicit Types (b : list (list Z)) (d : DIRECTION).

Lemma process_move_ok_square b d res :
  process_move b d = Ok res -> square b = true.
Proof. rewrite process_move_if. by destruct (square b). Qed.

Lemma slid_fixed_stuck (rows : list (list Z)) :
  slide_left <$> rows = rows -> existsb movable rows = false.
Proof.
  induction rows as [|row rows IH]; [done|].
  rewrite fmap_cons. intros [= Hrow Hrows]. cbn [existsb].
  apply slide_left_fixed_iff in Hrow. rewrite Hrow. by apply IH.
Qed.

(** X7.  The changed flag of [process_move] is exact: it is true exactly
    when the returned board differs from the given one, and when it is
    false the board comes back as it was, with score delta zero. *)
Theorem process_move_changed_exact b d b' s c :
  process_move b d = Ok (b', s, c) ->
  (c = true <-> b' ≠ b) /\ (c = false -> b' = b /\ s = 0).
Proof.
  intros Hmove. pose proof (process_move_ok_square _ _ _ Hmove) as Hsq.
  rewrite process_move_spec in Hmove by done. injection Hmove as Hb' Hs Hc.
  pose proof (orient_square d b Hsq) as Hosq.
  pose proof (slid_square _ Hosq) as Hssq.
  assert (Hstay : c = false -> b' = b /\ s = 0).
  { intros ->. rewrite slid_stuck in Hb' by done.
    rewrite unorient_orient in Hb' by done.
    by rewrite stuck_board_score in Hs. }
  split; [|done]. split.
  - intros -> Heq. subst b'.
    apply (f_equal (orient d)) in Heq. rewrite orient_unorient in Heq by done.
    apply slid_fixed_stuck in Heq. congruence.
  - intros Hne. destruct c; [done|]. by destruct (Hstay eq_refl).
Qed.

Lemma process_move_changed_exact_witness :
  process_move board_gaps UP
  = Ok ([[8; 2; 8; 4]; [2; 4; 0; 2]; [0; 0; 0; 16]; [0; 0; 0; 0]], 0, true)
  /\ (true = true
      <-> [[8; 2; 8; 4]; [2; 4; 0; 2]; [0; 0; 0; 16]; [0; 0; 0; 0]] ≠ board_gaps)
  /\ (true = false ->
      [[8; 2; 8; 4]; [2; 4; 0; 2]; [0; 0; 0; 16]; [0; 0; 0; 0]] = board_gaps
      /\ 0 = 0).
Proof.
  split; [vm_compute; reflexivity|].
  apply (process_move_changed_exact board_gaps UP). vm_compute; reflexivity.
Defined.

Lemma board_score_bounds (rows : list (list Z)) :
  Forall (Forall (fun x => 0 <= x)) rows ->
  0 <= sum_list (line_score <$> rows) <= board_sum rows.
Proof.
  unfold board_sum. induction 1 as [|row rows Hrow _ IH]; [done|].
  rewrite !fmap_cons, !sum_list_cons.
  pose proof (line_score_nonneg row Hrow).
  pose proof (line_score_bounded row Hrow). lia.
Qed.

Lemma board_score_double (rows : list (list Z)) :
  exists k, sum_list (line_score <$> rows) = 2 * k.
Proof.
  induction rows as [|row rows [k IH]]; [by exists 0|].
  rewrite fmap_cons, sum_list_cons, IH, line_score_double.
  exists (sum_list (merged_pairs (nonzeros row)) + k). lia.
Qed.

Lemma tiles_ok_rows_nonneg b :
  tiles_ok b -> Forall (Forall (fun x => 0 <= x)) b.
Proof.
  intros Hok. apply Forall_forall. intros row Hrow.
  by eapply tiles_ok_nonneg.
Qed.

(** X8.  On a well-formed board the score delta of a move is even, not
    negative, and at most the sum of the tiles on the board. *)
Theorem process_move_score_bounds b d b' s c :
  well_formed b = true ->
  process_move b d = Ok (b', s, c) ->
  0 <= s <= board_sum b /\ Z.even s = true.
Proof.
  intros [Hsq Hok]%well_formed_iff Hmove.
  rewrite process_move_spec in Hmove by done. injection Hmove as _ Hs _.
  subst s. split.
  - rewrite <- (board_sum_orient d b) by done.
    by apply board_score_bounds, tiles_ok_rows_nonneg, tiles_ok_orient.
  - destruct (board_score_double (orient d b)) as [k ->].
    by rewrite Z.even_mul.
Qed.

Lemma process_move_score_bounds_witness :
  well_formed board_full_pair = true
  /\ process_move board_full_pair RIGHT
     = Ok ([[0; 4; 8; 4]; [4; 16; 4; 2]; [2; 4; 2; 4]; [4; 2; 4; 2]], 4, true)
  /\ 0 <= 4 <= board_sum board_full_pair /\ Z.even 4 = true.
Proof.
  split; [vm_compute; reflexivity|]. split; [vm_compute; reflexivity|].
  apply (process_move_score_bounds board_full_pair RIGHT
           [[0; 4; 8; 4]; [4; 16; 4; 2]; [2; 4; 2; 4]; [4; 2; 4; 2]] 4 true);
    vm_compute; reflexivity.
Defined.

Lemma source_in_range d n r j :
  (r < n)%nat -> (j < n)%nat ->
  (source_row d n r j < n)%nat /\ (source_col d n r j < n)%nat.
Proof. intros. destruct d; simpl; lia. Qed.

(** Every cell of the board is a cell of the oriented board, and the cells
    of its oriented line lie on the line of the cell. *)
Lemma source_onto d n r c :
  (r < n)%nat -> (c < n)%nat ->
  exists r' j,
    (r' < n)%nat /\ (j < n)%nat
    /\ source_row d n r' j = r /\ source_col d n r' j = c
    /\ forall j0, same_line d r c (source_row d n r' j0) (source_col d n r' j0).
Proof.
  intros Hr Hc. destruct d.
  - exists c, r. by repeat split.
  - exists c, (n - 1 - r)%nat. repeat split; simpl; lia.
  - exists r, c. by repeat split.
  - exists r, (n - 1 - c)%nat. repeat split; simpl; lia.
Qed.

(** X9.  A move keeps every tile on its line and at most doubles it: each
    cell of the returned board is empty, or holds the value of a cell on the
    same row (left, right) or column (up, down) of the given board, or
    twice that value. *)
Theorem process_move_tile_origin b d b' s ch r c :
  process_move b d = Ok (b', s, ch) ->
  (r < length b)%nat -> (c < length b)%nat ->
  cell b' r c = 0
  \/ exists r0 c0,
       (r0 < length b)%nat /\ (c0 < length b)%nat
       /\ same_line d r c r0 c0
       /\ (cell b' r c = cell b r0 c0 \/ cell b' r c = cell b r0 c0 * 2).
Proof.
  intros Hmove Hr Hc.
  pose proof (process_move_ok_square _ _ _ Hmove) as Hsq.
  rewrite process_move_spec in Hmove by done. injection Hmove as Hb' _ _.
  pose proof (orient_square d b Hsq) as Hosq.
  pose proof (slid_square _ Hosq) as Hssq.
  assert (Hsq' : square b' = true) by (subst b'; by apply unorient_square).
  assert (Hor : orient d b' = slide_left <$> orient d b)
    by (subst b'; by apply orient_unorient).
  assert (Hlen' : length b' = length b).
  { rewrite <- (orient_length d b'), Hor, length_fmap. apply orient_length. }
  destruct (source_onto d (length b) r c Hr Hc)
    as (r' & j & Hr' & Hj & Hrow & Hcol & Hline).
  assert (Hcell : cell b' r c = slide_left (orient d b !!! r') !!! j).
  { pose proof (orient_cell d b' r' j Hsq' ltac:(lia) ltac:(lia)) as Hoc.
    rewrite Hlen', Hrow, Hcol in Hoc. rewrite <- Hoc, Hor. unfold cell.
    by rewrite (list_lookup_total_fmap slide_left)
      by (by rewrite orient_length). }
  assert (Hrowlen : length (orient d b !!! r') = length b).
  { rewrite square_row_total by (rewrite ?orient_length; done).
    apply orient_length. }
  assert (Hin : cell b' r c ∈ slide_left (orient d b !!! r')).
  { rewrite Hcell. apply list_elem_of_lookup_total_2.
    by rewrite slide_left_length, Hrowlen. }
  apply slide_left_elem in Hin as [Hzero|(x & Hx & Hval)]; [by left|].
  right. apply list_elem_of_lookup_total in Hx as (j0 & Hj0 & Hxj).
  rewrite Hrowlen in Hj0.
  destruct (source_in_range d (length b) r' j0 Hr' Hj0) as [Hr0 Hc0].
  exists (source_row d (length b) r' j0), (source_col d (length b) r' j0).
  split; [done|]. split; [done|]. split; [apply Hline|].
  rewrite <- orient_cell by done. unfold cell at 2 4. by rewrite Hxj.
Qed.

Lemma process_move_tile_origin_witness :
  process_move board_B LEFT = Ok (board_B_left, 8, true)
  /\ (1 < length board_B)%nat /\ (1 < length board_B)%nat
  /\ (cell board_B_left 0 1 = 0
      \/ exists r0 c0,
           (r0 < length board_B)%nat /\ (c0 < length board_B)%nat
           /\ same_line LEFT 0 1 r0 c0
           /\ (cell board_B_left 0 1 = cell board_B r0 c0
               \/ cell board_B_left 0 1 = cell board_B r0 c0 * 2)).
Proof.
  split; [vm_compute; reflexivity|]. split; [simpl; lia|]. split; [simpl; lia|].
  apply (process_move_tile_origin board_B LEFT board_B_left 8 true 0 1);
    [vm_compute; reflexivity|simpl; lia|simpl; lia].
Defined.

End FurtherMove.

(** ** Tiles on the board before and after a move *)

Section FurtherCount.

Implicit Types (b : list (list Z)) (d : DIRECTION).

Lemma count_nonzero_cons (row : list Z) b :
  count_nonzero (row :: b) = (length (nonzeros row) + count_nonzero b)%nat.
Proof. unfold count_nonzero. by rewrite concat_cons, nonzeros_app, length_app. Qed.

Lemma count_indicator_row (l : list Z) :
  Z.of_nat (length (nonzeros l)) = sum_list (tile_indicator <$> l).
Proof.
  induction l as [|x l IH]; [done|].
  rewrite nonzeros_cons, fmap_cons, sum_list_cons, <- IH. unfold tile_indicator.
  destruct (x =? 0); cbn [length]; lia.
Qed.

Lemma count_indicator b :
  Z.of_nat (count_nonzero b) = board_sum (fmap (M:=list) tile_indicator <$> b).
Proof.
  unfold board_sum. induction b as [|row b IH]; [done|].
  rewrite count_nonzero_cons, !fmap_cons, sum_list_cons, <- IH,
          <- count_indicator_row. lia.
Qed.

Lemma indicator_square b :
  square b = true -> square (fmap (M:=list) tile_indicator <$> b) = true.
Proof.
  intros Hsq. apply (square_intro _ (length b)).
  - by apply square_pos.
  - apply length_fmap.
  - apply Forall_fmap. eapply Forall_impl; [by apply square_Forall|].
    intros row Hrow. simpl. by rewrite length_fmap.
Qed.

Lemma indicator_cell b r c :
  square b = true -> (r < length b)%nat -> (c < length b)%nat ->
  cell (fmap (M:=list) tile_indicator <$> b) r c = tile_indicator (cell b r c).
Proof.
  intros Hsq Hr Hc. unfold cell.
  rewrite (list_lookup_total_fmap (fmap (M:=list) tile_indicator)) by done.
  by rewrite (list_lookup_total_fmap tile_indicator)
    by (by rewrite square_row_total).
Qed.

Lemma indicator_transposed b :
  square b = true ->
  fmap (M:=list) tile_indicator <$> transposed b = transposed (fmap (M:=list) tile_indicator <$> b).
Proof.
  intros Hsq. unfold transposed. rewrite length_fmap, <- list_fmap_compose.
  apply list_fmap_ext. intros c ? [-> Hc]%lookup_seq. simpl.
  rewrite <- list_fmap_compose.
  apply list_fmap_ext. intros r ? [-> Hr]%lookup_seq. simpl.
  symmetry. by apply indicator_cell.
Qed.

Lemma count_transposed b :
  square b = true -> count_nonzero (transposed b) = count_nonzero b.
Proof.
  intros Hsq. apply Nat2Z.inj.
  rewrite !count_indicator, indicator_transposed by done.
  by apply board_sum_transposed, indicator_square.
Qed.

Lemma count_reversed b : count_nonzero (reverse <$> b) = count_nonzero b.
Proof.
  induction b as [|row b IH]; [done|].
  rewrite fmap_cons, !count_nonzero_cons, IH. f_equal.
  unfold nonzeros. by rewrite filter_reverse, length_reverse.
Qed.

Lemma count_orient d b :
  square b = true -> count_nonzero (orient d b) = count_nonzero b.
Proof.
  intros Hsq. destruct d; simpl;
    rewrite ?count_reversed; auto using count_transposed.
Qed.

Lemma count_unorient d b :
  square b = true -> count_nonzero (unorient d b) = count_nonzero b.
Proof.
  intros Hsq. destruct d; simpl.
  - by apply count_transposed.
  - rewrite count_transposed by (by apply reversed_square).
    apply count_reversed.
  - done.
  - apply count_reversed.
Qed.

Lemma count_slid_row (row : list Z) :
  (length (nonzeros (slide_left row))
   + length (merged_pairs (nonzeros row)) = length (nonzeros row))%nat.
Proof.
  unfold slide_left. rewrite nonzeros_pad by apply merge_out_Forall.
  rewrite merge_count. by rewrite nonzeros_id by apply nonzeros_Forall.
Qed.

Lemma count_slid (rows : list (list Z)) :
  Forall (Forall (fun x => 0 <= x)) rows ->
  (count_nonzero (slide_left <$> rows) <= count_nonzero rows)%nat
  /\ (count_nonzero (slide_left <$> rows) = count_nonzero rows
      <-> sum_list (line_score <$> rows) = 0).
Proof.
  induction 1 as [|row rows Hrow Hrows [IHle IHeq]]; [done|].
  rewrite !fmap_cons, !count_nonzero_cons, sum_list_cons.
  pose proof (count_slid_row row) as Hc.
  pose proof (line_score_nonneg row Hrow) as Hs.
  pose proof (board_score_bounds rows Hrows) as [Hss _].
  split; [lia|]. split.
  - intros Heq.
    assert (Hp : merged_pairs (nonzeros row) = []).
    { destruct (merged_pairs (nonzeros row)); [done|]. simpl in Hc. lia. }
    assert (Hrest : sum_list (line_score <$> rows) = 0) by (apply IHeq; lia).
    rewrite Hrest. unfold line_score, merge_outputs. by rewrite Hp.
  - intros Hsum.
    assert (Hrow0 : line_score row = 0) by lia.
    rewrite (line_score_zero row Hrow Hrow0) in Hc. simpl in Hc.
    assert (count_nonzero (slide_left <$> rows) = count_nonzero rows)
      by (apply IHeq; lia).
    lia.
Qed.

(** X10.  On a well-formed board a move creates no tile: the returned
    board has at most as many tiles as the given one, and exactly as many
    when and only when the score delta is zero. *)
Theorem process_move_tile_count b d b' s c :
  well_formed b = true ->
  process_move b d = Ok (b', s, c) ->
  (count_nonzero b' <= count_nonzero b)%nat
  /\ (count_nonzero b' = count_nonzero b <-> s = 0).
Proof.
  intros [Hsq Hok]%well_formed_iff Hmove.
  rewrite process_move_spec in Hmove by done. injection Hmove as Hb' Hs _.
  pose proof (orient_square d b Hsq) as Hosq.
  subst b' s.
  rewrite count_unorient by (by apply slid_square).
  rewrite <- (count_orient d b) by done.
  by apply count_slid, tiles_ok_rows_nonneg, tiles_ok_orient.
Qed.

Lemma process_move_tile_count_witness :
  well_formed board_B = true
  /\ process_move board_B LEFT = Ok (board_B_left, 8, true)
  /\ (count_nonzero board_B_left <= count_nonzero board_B)%nat
  /\ (count_nonzero board_B_left = count_nonzero board_B <-> 8 = 0).
Proof.
  split; [vm_compute; reflexivity|]. split; [vm_compute; reflexivity|].
  apply (process_move_tile_count board_B LEFT board_B_left 8 true);
    vm_compute; reflexivity.
Defined.

(** The board returned by a move that changed something has an empty
    cell. *)
Lemma effective_move_room b d :
  square b = true ->
  existsb movable (orient d b) = true ->
  is_empty_list
    (empty_cells_ref (unorient d (slide_left <$> orient d b)) (length b))
  = false.
Proof.
  intros Hsq Hch.
  pose proof (orient_square d b Hsq) as Hosq.
  pose proof (slid_square _ Hosq) as Hssq.
  set (b' := unorient d (slide_left <$> orient d b)).
  assert (Hsq' : square b' = true) by (by apply unorient_square).
  assert (Hor : orient d b' = slide_left <$> orient d b)
    by (by apply orient_unorient).
  assert (Hlen' : length b' = length b).
  { rewrite <- (orient_length d b'), Hor, length_fmap. apply orient_length. }
  apply existsb_lookup in Hch as (r' & row & Hrow & Hmov).
  apply lookup_lt_Some in Hrow as Hr'. rewrite orient_length in Hr'.
  pose proof (square_rows _ _ _ Hosq Hrow) as Hrowlen.
  rewrite orient_length in Hrowlen.
  pose proof (square_pos b Hsq) as Hpos.
  set (j := (length b - 1)%nat). assert (Hj : (j < length b)%nat) by lia.
  destruct (source_in_range d (length b) r' j Hr' Hj) as [Hr0 Hc0].
  assert (Hzero : cell b' (source_row d (length b) r' j)
                          (source_col d (length b) r' j) = 0).
  { pose proof (orient_cell d b' r' j Hsq' ltac:(lia) ltac:(lia)) as Hoc.
    rewrite Hlen' in Hoc. rewrite <- Hoc, Hor. unfold cell.
    rewrite (list_lookup_total_fmap slide_left) by (by rewrite orient_length).
    rewrite (list_lookup_total_correct _ _ _ Hrow).
    unfold j. rewrite <- Hrowlen. by apply movable_last_empty. }
  destruct (is_empty_list _) eqn:He; [|done].
  pose proof (proj1 (empty_cells_none b' (length b)) He) as Hfull.
  exfalso. by eapply Hfull; [| |exact Hzero].
Qed.

(** X11.  A move that changed the board leaves an empty cell, so the
    [add_random_tile] that follows it always adds a tile: its [added] flag
    is true for every state of the random source. *)
Theorem effective_move_leaves_room b d b' s g :
  process_move b d = Ok (b', s, true) ->
  (exists cells, get_empty_cells b' = Ok cells /\ cells ≠ [])
  /\ exists b'' g', add_random_tile b' g = (Ok (b'', true), g').
Proof.
  intros Hmove.
  pose proof (process_move_ok_square _ _ _ Hmove) as Hsq.
  rewrite process_move_spec in Hmove by done. injection Hmove as Hb' _ Hch.
  pose proof (effective_move_room b d Hsq Hch) as Hroom. rewrite Hb' in Hroom.
  assert (Hsq' : square b' = true).
  { subst b'. by apply unorient_square, slid_square, orient_square. }
  assert (Hlen' : length b' = length b).
  { subst b'. rewrite <- (orient_length d (unorient d _)).
    rewrite orient_unorient by (by apply slid_square, orient_square).
    by rewrite length_fmap, orient_length. }
  rewrite <- Hlen' in Hroom.
  split.
  - exists (empty_cells_ref b' (length b')).
    split; [by rewrite get_empty_cells_spec, Hsq'|].
    intros Hnil. by rewrite Hnil in Hroom.
  - destruct (add_random_tile_empty b' g Hsq' Hroom)
      as (r & c & v & g' & _ & _ & _ & _ & _ & Hadd).
    by eexists _, _.
Qed.

Lemma effective_move_leaves_room_witness :
  process_move board_full_pair RIGHT
  = Ok ([[0; 4; 8; 4]; [4; 16; 4; 2]; [2; 4; 2; 4]; [4; 2; 4; 2]], 4, true)
  /\ (exists cells,
        get_empty_cells [[0; 4; 8; 4]; [4; 16; 4; 2]; [2; 4; 2; 4]; [4; 2; 4; 2]]
        = Ok cells /\ cells ≠ [])
  /\ exists b'' g',
       add_random_tile [[0; 4; 8; 4]; [4; 16; 4; 2]; [2; 4; 2; 4]; [4; 2; 4; 2]]
                       rng_zero
       = (Ok (b'', true), g').
Proof.
  split; [vm_compute; reflexivity|].
  apply (effective_move_leaves_room board_full_pair RIGHT _ 4 rng_zero).
  vm_compute; reflexivity.
Defined.

End FurtherCount.

(** ** Empty cells, stuck boards and lost games *)

Section FurtherQueries.

Implicit Types (b : list (list Z)) (d : DIRECTION).

Lemma StronglySorted_seq j n : StronglySorted lt (seq j n).
Proof.
  revert j. induction n as [|n IH]; intros j; simpl; constructor; [apply IH|].
  apply Forall_forall. intros k Hk%elem_of_seq. lia.
Qed.

Lemma StronglySorted_filter_keep {A : Type} (R : relation A) (P : A -> Prop)
    `{forall x, Decision (P x)} (l : list A) :
  StronglySorted R l -> StronglySorted R (filter P l).
Proof.
  induction 1 as [|x l Hl IH Hx]; [constructor|].
  rewrite filter_cons. case_decide; [|done].
  constructor; [done|]. apply Forall_forall.
  intros y [_ Hy]%list_elem_of_filter. rewrite Forall_forall in Hx. auto.
Qed.

Lemma empty_in_row_sorted b n r : StronglySorted row_major_lt (empty_in_row b n r).
Proof.
  unfold empty_in_row.
  apply (StronglySorted_fmap _ lt); [intros x y Hxy; right; by split|].
  apply StronglySorted_filter_keep, StronglySorted_seq.
Qed.

Lemma empty_cells_sorted_from b n (rs : list nat) :
  StronglySorted lt rs -> StronglySorted row_major_lt (rs ≫= empty_in_row b n).
Proof.
  induction 1 as [|r rs Hrs IH Hr]; [constructor|].
  rewrite bind_cons. apply StronglySorted_app.
  split; [|split; [apply empty_in_row_sorted|done]].
  intros [r1 c1] [r2 c2] H1 H2. left. simpl.
  unfold empty_in_row in H1.
  apply list_elem_of_fmap in H1 as (? & [= -> _] & _).
  apply list_elem_of_bind in H2 as (r' & Hin & Hr').
  unfold empty_in_row in Hin.
  apply list_elem_of_fmap in Hin as (? & [= -> _] & _).
  rewrite Forall_forall in Hr. by apply Hr.
Qed.

Lemma empty_and_tiles_row (f : nat -> Z) (cs : list nat) :
  (length (filter (fun c => f c = 0%Z) cs) + length (nonzeros (f <$> cs))
   = length cs)%nat.
Proof.
  induction cs as [|c cs IH]; [done|].
  rewrite filter_cons, fmap_cons, nonzeros_cons.
  destruct (Z.eqb_spec (f c) 0); case_decide; try done; cbn [length]; lia.
Qed.

Lemma empty_and_tiles b n (rs : list nat) :
  (length (rs ≫= empty_in_row b n)
   + count_nonzero ((fun r => (fun c => cell b r c) <$> seq 0 n) <$> rs)
   = length rs * n)%nat.
Proof.
  induction rs as [|r rs IH]; [done|].
  rewrite bind_cons, length_app, fmap_cons, count_nonzero_cons.
  unfold empty_in_row at 1. rewrite length_fmap.
  pose proof (empty_and_tiles_row (fun c => cell b r c) (seq 0 n)) as Hrow.
  rewrite length_seq in Hrow. cbn [length]. lia.
Qed.

Lemma empty_cells_count b :
  square b = true ->
  (length (empty_cells_ref b (length b)) + count_nonzero b
   = length b * length b)%nat.
Proof.
  intros Hsq.
  pose proof (empty_and_tiles b (length b) (seq 0 (length b))) as Hcount.
  rewrite <- square_cells, length_seq in Hcount by done. exact Hcount.
Qed.

(** X12.  [get_empty_cells] returns exactly the coordinates in range whose
    cell is zero, each of them once, in row-major order; together with the
    tiles they make up the [n * n] cells of the board. *)
Theorem get_empty_cells_exact b cells :
  get_empty_cells b = Ok cells ->
  (forall r c, (r, c) ∈ cells
               <-> (r < length b)%nat /\ (c < length b)%nat /\ cell b r c = 0)
  /\ NoDup cells
  /\ StronglySorted row_major_lt cells
  /\ (length cells + count_nonzero b = length b * length b)%nat.
Proof.
  rewrite get_empty_cells_spec. destruct (square b) eqn:Hsq; [|done].
  intros [= <-].
  split; [intros r c; apply empty_cells_elem|].
  split; [apply empty_cells_NoDup|].
  split; [apply empty_cells_sorted_from, StronglySorted_seq|].
  by apply empty_cells_count.
Qed.

Lemma get_empty_cells_exact_witness :
  get_empty_cells board_one_empty = Ok [(1, 2)%nat]
  /\ (forall r c, (r, c) ∈ [(1, 2)%nat]
                  <-> (r < length board_one_empty)%nat
                      /\ (c < length board_one_empty)%nat
                      /\ cell board_one_empty r c = 0)
  /\ NoDup [(1, 2)%nat]
  /\ StronglySorted row_major_lt [(1, 2)%nat]
  /\ (length [(1, 2)%nat] + count_nonzero board_one_empty
      = length board_one_empty * length board_one_empty)%nat.
Proof.
  split; [vm_compute; reflexivity|].
  apply (get_empty_cells_exact board_one_empty). vm_compute; reflexivity.
Defined.

(** X13.  A lost game is stuck: when [determine_game_status] returns
    [GAME_OVER], [process_move] returns the board unchanged with score delta
    zero in every direction, [add_random_tile] adds nothing, and no cell
    holds the win tile. *)
Theorem game_over_is_stuck b w :
  determine_game_status b w = Ok GAME_OVER ->
  (forall d, process_move b d = Ok (b, 0, false))
  /\ (forall g, add_random_tile b g = (Ok (b, false), g))
  /\ get_empty_cells b = Ok []
  /\ check_for_win b w = Ok false.
Proof.
  rewrite determine_game_status_if. destruct (square b) eqn:Hsq; [|done].
  destruct (any_cell _ _) eqn:Hwon; [done|].
  destruct (is_empty_list _) eqn:Hfull; [|done].
  destruct (existsb _ _) eqn:Hposs; [done|]. intros _.
  assert (Hdir : forall d, existsb movable (orient d b) = false).
  { intros d. cbn [existsb] in Hposs.
    repeat apply orb_false_elim in Hposs as [? Hposs]. by destruct d. }
  split; [|split; [|split]].
  - intros d. rewrite process_move_spec by done.
    rewrite Hdir, (slid_stuck _ (Hdir d)), unorient_orient by done.
    by rewrite (stuck_board_score _ (Hdir d)).
  - intros g. apply add_random_tile_full; [done|]. by apply empty_cells_none.
  - rewrite get_empty_cells_spec, Hsq. f_equal. by apply is_empty_list_true.
  - by rewrite check_for_win_spec, Hsq, Hwon.
Qed.

Lemma game_over_is_stuck_witness :
  determine_game_status board_C 2048 = Ok GAME_OVER
  /\ (forall d, process_move board_C d = Ok (board_C, 0, false))
  /\ (forall g, add_random_tile board_C g = (Ok (board_C, false), g))
  /\ get_empty_cells board_C = Ok []
  /\ check_for_win board_C 2048 = Ok false.
Proof.
  split; [vm_compute; reflexivity|].
  apply (game_over_is_stuck board_C 2048). vm_compute; reflexivity.
Defined.

Lemma step_down (f : nat -> bool) a k :
  f a = true -> f (a + k)%nat = false ->
  exists i, (a <= i < a + k)%nat /\ f i = true /\ f (S i) = false.
Proof.
  intros Ha. induction k as [|k IH].
  - rewrite Nat.add_0_r. congruence.
  - intros Hk. destruct (f (a + k)%nat) eqn:Hfk.
    + exists (a + k)%nat. rewrite Nat.add_succ_r in Hk. repeat split; (done || lia).
    + destruct (IH eq_refl) as (i & Hi & H1 & H2). exists i.
      repeat split; (done || lia).
Qed.

Lemma step_up (f : nat -> bool) a k :
  f a = false -> f (a + k)%nat = true ->
  exists i, (a <= i < a + k)%nat /\ f i = false /\ f (S i) = true.
Proof.
  intros Ha Hk.
  destruct (step_down (fun i => negb (f i)) a k) as (i & Hi & H1 & H2).
  - by rewrite Ha.
  - by rewrite Hk.
  - exists i. split; [done|].
    by destruct (f i), (f (S i)).
Qed.

Lemma move_possible_intro b d r c :
  square b = true -> (r < length b)%nat -> (c < length b)%nat ->
  cell b r c ≠ 0 -> tile_can_move b (length b) d r c = true ->
  is_move_possible_in_direction b d = Ok true.
Proof.
  intros Hsq Hr Hc Hnz Hmove. unfold is_move_possible_in_direction.
  rewrite get_board_size_spec, Hsq. simpl. f_equal.
  apply any_cell_true. exists r, c. split; [done|]. split; [done|].
  by apply tile_test.
Qed.

Lemma any_move_intro b d :
  is_move_possible_in_direction b d = Ok true ->
  is_any_move_possible b = Ok true.
Proof.
  rewrite is_move_possible_spec, is_any_move_possible_spec.
  destruct (square b); [|done]. intros [= Hd]. f_equal.
  cbn [existsb]. destruct d; rewrite Hd; by rewrite ?orb_true_r.
Qed.

Lemma nonzero_test z : negb (z =? 0) = true <-> z ≠ 0.
Proof. by destruct (Z.eqb_spec z 0). Qed.

Lemma zero_test z : negb (z =? 0) = false <-> z = 0.
Proof. by destruct (Z.eqb_spec z 0). Qed.

(** X14.  A board that holds a tile and has an empty cell is never stuck:
    some tile has an empty neighbour, so [is_any_move_possible] is true. *)
Theorem tile_and_room_can_move b n r1 c1 r0 c0 :
  get_board_size b = Ok n ->
  (r1 < n)%nat -> (c1 < n)%nat -> cell b r1 c1 ≠ 0 ->
  (r0 < n)%nat -> (c0 < n)%nat -> cell b r0 c0 = 0 ->
  is_any_move_possible b = Ok true.
Proof.
  rewrite get_board_size_spec. destruct (square b) eqn:Hsq; [|done].
  intros [= <-] Hr1 Hc1 Htile Hr0 Hc0 Hroom.
  destruct (decide (cell b r1 c0 = 0)) as [Hz|Hnz].
  - (* along row [r1], from the tile to the empty cell *)
    set (f := fun j => negb (cell b r1 j =? 0)).
    assert (Hf1 : f c1 = true) by (by apply nonzero_test).
    assert (Hf0 : f c0 = false) by (by apply zero_test).
    destruct (decide (c1 < c0)%nat) as [Hlt|Hge].
    + replace c0 with (c1 + (c0 - c1))%nat in Hf0 by lia.
      destruct (step_down f c1 _ Hf1 Hf0) as (i & Hi & Hti%nonzero_test & Hei%zero_test).
      apply (any_move_intro b RIGHT), (move_possible_intro b RIGHT r1 i);
        [done|done|lia|done|].
      unfold tile_can_move. apply neighbour_test.
      split; [apply Nat.ltb_lt; lia|]. left. by rewrite Nat.add_1_r.
    + assert (c0 < c1)%nat by (destruct (decide (c0 = c1)); [congruence|lia]).
      replace c1 with (c0 + (c1 - c0))%nat in Hf1 by lia.
      destruct (step_up f c0 _ Hf0 Hf1) as (i & Hi & Hei%zero_test & Hti%nonzero_test).
      apply (any_move_intro b LEFT), (move_possible_intro b LEFT r1 (S i));
        [done|done|lia|done|].
      unfold tile_can_move. apply neighbour_test.
      split; [done|]. left. simpl. by rewrite Nat.sub_0_r.
  - (* along column [c0], from the tile of row [r1] to the empty cell *)
    set (f := fun i => negb (cell b i c0 =? 0)).
    assert (Hf1 : f r1 = true) by (by apply nonzero_test).
    assert (Hf0 : f r0 = false) by (by apply zero_test).
    destruct (decide (r1 < r0)%nat) as [Hlt|Hge].
    + replace r0 with (r1 + (r0 - r1))%nat in Hf0 by lia.
      destruct (step_down f r1 _ Hf1 Hf0) as (i & Hi & Hti%nonzero_test & Hei%zero_test).
      apply (any_move_intro b DOWN), (move_possible_intro b DOWN i c0);
        [done|lia|done|done|].
      unfold tile_can_move. apply neighbour_test.
      split; [apply Nat.ltb_lt; lia|]. left. by rewrite Nat.add_1_r.
    + assert (r0 < r1)%nat by (destruct (decide (r0 = r1)); [congruence|lia]).
      replace r1 with (r0 + (r1 - r0))%nat in Hf1 by lia.
      destruct (step_up f r0 _ Hf0 Hf1) as (i & Hi & Hei%zero_test & Hti%nonzero_test).
      apply (any_move_intro b UP), (move_possible_intro b UP (S i) c0);
        [done|lia|done|done|].
      unfold tile_can_move. apply neighbour_test.
      split; [done|]. left. simpl. by rewrite Nat.sub_0_r.
Qed.

Lemma tile_and_room_can_move_witness :
  get_board_size board_one_empty = Ok 4%nat
  /\ (0 < 4)%nat /\ (0 < 4)%nat /\ cell board_one_empty 0 0 ≠ 0
  /\ (1 < 4)%nat /\ (2 < 4)%nat /\ cell board_one_empty 1 2 = 0
  /\ is_any_move_possible board_one_empty = Ok true.
Proof.
  split; [vm_compute; reflexivity|]. split; [lia|]. split; [lia|].
  split; [vm_compute; lia|]. split; [lia|]. split; [lia|].
  split; [vm_compute; reflexivity|].
  apply (tile_and_room_can_move board_one_empty 4 0 0 1 2);
    [vm_compute; reflexivity|lia|lia|vm_compute; lia|lia|lia
    |vm_compute; reflexivity].
Defined.

(** X15.  On a board without an empty cell only merges are left, and they
    are symmetric: a move to the left is possible exactly when a move to
    the right is, and a move up exactly when a move down is. *)
Theorem full_board_opposite_moves b :
  get_empty_cells b = Ok [] ->
  is_move_possible_in_direction b LEFT = is_move_possible_in_direction b RIGHT
  /\ is_move_possible_in_direction b UP = is_move_possible_in_direction b DOWN.
Proof.
  rewrite get_empty_cells_spec. destruct (square b) eqn:Hsq; [|done].
  intros [= Hnil].
  assert (Hfull : forall r c, (r < length b)%nat -> (c < length b)%nat ->
                              cell b r c ≠ 0).
  { apply empty_cells_none. by rewrite Hnil. }
  unfold is_move_possible_in_direction.
  rewrite get_board_size_spec, Hsq. cbn [result_bind].
  split; f_equal; apply Bool.eq_iff_eq_true; rewrite !any_cell_true; split.
  - intros (r & c & Hr & Hc & [Hnz [Hg%Nat.ltb_lt Hnb]%neighbour_test]%tile_test).
    destruct Hnb as [Hz|Heq]; [by apply Hfull in Hz; [|done|lia]|].
    exists r, (c - 1)%nat. split; [done|]. split; [lia|].
    apply tile_test. split; [apply Hfull; (done || lia)|].
    apply neighbour_test. split; [apply Nat.ltb_lt; lia|].
    right. replace (c - 1 + 1)%nat with c by lia. done.
  - intros (r & c & Hr & Hc & [Hnz [Hg%Nat.ltb_lt Hnb]%neighbour_test]%tile_test).
    destruct Hnb as [Hz|Heq]; [by apply Hfull in Hz; [|done|lia]|].
    exists r, (c + 1)%nat. split; [done|]. split; [lia|].
    apply tile_test. split; [apply Hfull; (done || lia)|].
    apply neighbour_test. split; [apply Nat.ltb_lt; lia|].
    right. replace (c + 1 - 1)%nat with c by lia. done.
  - intros (r & c & Hr & Hc & [Hnz [Hg%Nat.ltb_lt Hnb]%neighbour_test]%tile_test).
    destruct Hnb as [Hz|Heq]; [by apply Hfull in Hz; [|lia|done]|].
    exists (r - 1)%nat, c. split; [lia|]. split; [done|].
    apply tile_test. split; [apply Hfull; (done || lia)|].
    apply neighbour_test. split; [apply Nat.ltb_lt; lia|].
    right. replace (r - 1 + 1)%nat with r by lia. done.
  - intros (r & c & Hr & Hc & [Hnz [Hg%Nat.ltb_lt Hnb]%neighbour_test]%tile_test).
    destruct Hnb as [Hz|Heq]; [by apply Hfull in Hz; [|lia|done]|].
    exists (r + 1)%nat, c. split; [lia|]. split; [done|].
    apply tile_test. split; [apply Hfull; (done || lia)|].
    apply neighbour_test. split; [apply Nat.ltb_lt; lia|].
    right. replace (r + 1 - 1)%nat with r by lia. done.
Qed.

Lemma full_board_opposite_moves_witness :
  get_empty_cells board_full_pair = Ok []
  /\ is_move_possible_in_direction board_full_pair LEFT
     = is_move_possible_in_direction board_full_pair RIGHT
  /\ is_move_possible_in_direction board_full_pair UP
     = is_move_possible_in_direction board_full_pair DOWN.
Proof.
  split; [vm_compute; reflexivity|].
  apply (full_board_opposite_moves board_full_pair). vm_compute; reflexivity.
Defined.

End FurtherQueries.

(** ** New tiles and new games *)

Section FurtherTiles.

Implicit Types (b : list (list Z)) (g : rng).

Lemma board_sum_cons (row : list Z) b :
  board_sum (row :: b) = sum_list row + board_sum b.
Proof. reflexivity. Qed.

Lemma board_sum_app b1 b2 : board_sum (b1 ++ b2) = board_sum b1 + board_sum b2.
Proof. unfold board_sum. by rewrite fmap_app, sum_list_app. Qed.

Lemma board_sum_set_cell b r c v :
  (r < length b)%nat -> (c < length (b !!! r))%nat ->
  board_sum (set_cell b r c v) = board_sum b + v - cell b r c.
Proof.
  intros Hr Hc. unfold set_cell, cell.
  set (row := b !!! r) in *.
  assert (Hrow : b !! r = Some row) by (by apply list_lookup_lookup_total_lt).
  assert (Hcell : row !! c = Some (row !!! c))
    by (by apply list_lookup_lookup_total_lt).
  rewrite <- (take_drop_middle b r row Hrow) at 2.
  rewrite insert_take_drop by done.
  rewrite !board_sum_app, !board_sum_cons.
  rewrite <- (take_drop_middle row c _ Hcell) at 2.
  rewrite insert_take_drop by done.
  rewrite !sum_list_app, !sum_list_cons. lia.
Qed.

Lemma add_random_tile_draws b g :
  square b = true ->
  is_empty_list (empty_cells_ref b (length b)) = false ->
  exists r c v,
    (r, c) ∈ empty_cells_ref b (length b)
    /\ (v = 2 \/ v = 4)
    /\ add_random_tile b g = (Ok (set_cell b r c v, true), advance 2 g).
Proof.
  intros Hsq Hnonempty. unfold add_random_tile.
  rewrite get_empty_cells_spec, Hsq, Hnonempty, copy_board_id.
  assert (Hne : empty_cells_ref b (length b) ≠ []).
  { intros Hnil. by rewrite Hnil in Hnonempty. }
  pose proof (random_choice_elem _ g Hne) as Hin.
  unfold random_choice, random_below_tenth, next_draw in *. cbn [fst] in Hin.
  cbn [stream cursor].
  destruct (empty_cells_ref b (length b) !!! _) as [r c] eqn:Hpick.
  exists r, c, (if (stream g (S (cursor g)) mod 10 =? 0)%nat then 4 else 2).
  split; [done|]. split; [destruct (_ =? _)%nat; auto|].
  unfold advance. do 3 f_equal. lia.
Qed.

(** X16.  When the board has an empty cell, [add_random_tile] reports
    [added = true], takes exactly two draws from the random source, and
    changes exactly one cell: an empty one, which receives 2 or 4.  The sum
    of the board grows by that value and the number of tiles by one. *)
Theorem add_random_tile_adds_one b g cells :
  get_empty_cells b = Ok cells -> cells ≠ [] ->
  exists r c v b',
    add_random_tile b g = (Ok (b', true), advance 2 g)
    /\ (r, c) ∈ cells
    /\ (v = 2 \/ v = 4)
    /\ cell b' r c = v
    /\ (forall r' c', (r', c') ≠ (r, c) -> cell b' r' c' = cell b r' c')
    /\ length b' = length b
    /\ board_sum b' = board_sum b + v
    /\ count_nonzero b' = S (count_nonzero b).
Proof.
  rewrite get_empty_cells_spec. destruct (square b) eqn:Hsq; [|done].
  intros [= <-] Hne.
  assert (Hroom : is_empty_list (empty_cells_ref b (length b)) = false).
  { destruct (empty_cells_ref b (length b)); done. }
  destruct (add_random_tile_draws b g Hsq Hroom) as (r & c & v & Hin & Hv & Hadd).
  apply empty_cells_elem in Hin as Hcell. destruct Hcell as (Hr & Hc & Hz).
  assert (Hrow : (c < length (b !!! r))%nat) by (by rewrite square_row_total).
  exists r, c, v, (set_cell b r c v).
  split; [done|]. split; [done|]. split; [done|].
  split; [by apply set_cell_same|].
  split; [intros r' c'; apply set_cell_other|].
  split; [apply set_cell_length|].
  split; [rewrite board_sum_set_cell, Hz by done; lia|].
  apply count_nonzero_set_cell; try done. destruct Hv; lia.
Qed.

Lemma add_random_tile_adds_one_witness :
  get_empty_cells board_gaps
  = Ok [(0, 0); (0, 2); (1, 1); (1, 2); (2, 0); (2, 1); (2, 2); (2, 3)]%nat
  /\ [(0, 0); (0, 2); (1, 1); (1, 2); (2, 0); (2, 1); (2, 2); (2, 3)]%nat ≠ []
  /\ exists r c v b',
       add_random_tile board_gaps rng_zero = (Ok (b', true), advance 2 rng_zero)
       /\ (r, c) ∈ [(0, 0); (0, 2); (1, 1); (1, 2); (2, 0); (2, 1); (2, 2); (2, 3)]%nat
       /\ (v = 2 \/ v = 4)
       /\ cell b' r c = v
       /\ (forall r' c', (r', c') ≠ (r, c) -> cell b' r' c' = cell board_gaps r' c')
       /\ length b' = length board_gaps
       /\ board_sum b' = board_sum board_gaps + v
       /\ count_nonzero b' = S (count_nonzero board_gaps).
Proof.
  split; [vm_compute; reflexivity|]. split; [discriminate|].
  apply (add_random_tile_adds_one board_gaps rng_zero);
    [vm_compute; reflexivity|discriminate].
Defined.

Lemma initial_tiles_cell b r c :
  Forall (Forall initial_tile) b ->
  (r < length b)%nat -> (c < length (b !!! r))%nat ->
  initial_tile (cell b r c).
Proof.
  intros Hall Hr Hc. unfold cell.
  apply Forall_lookup_total_1; [|done]. by apply Forall_lookup_total_1.
Qed.

(** X17.  For a size of at least 2 and a win tile other than 0, 2 and 4,
    the state that [initialize_board] reports is the state that
    [determine_game_status] computes for the board it returns: the game is
    in progress. *)
Theorem initial_status_consistent z g w b s st g' :
  2 <= z -> w ≠ 0 -> w ≠ 2 -> w ≠ 4 ->
  initialize_board (PyInt z) g = (Ok (b, s, st), g') ->
  st = IN_PROGRESS /\ determine_game_status b w = Ok st.
Proof.
  intros Hz Hw0 Hw2 Hw4 Hinit.
  destruct (initialize_board_positive z g ltac:(lia))
    as (b0 & g0 & Hrun & Hsq & Hlen & Htiles & Hcount).
  rewrite Hrun in Hinit. injection Hinit as <- <- <- <-.
  split; [done|].
  destruct (Z.eqb_spec z 1) as [?|_]; [lia|].
  rewrite determine_game_status_if, Hsq.
  assert (Hwon : any_cell (length b0) (fun r c => cell b0 r c =? w) = false).
  { apply any_cell_false. intros r c Hr Hc. apply Z.eqb_neq.
    pose proof (initial_tiles_cell b0 r c Htiles Hr
                  ltac:(by rewrite square_row_total)) as Hcell.
    unfold initial_tile in Hcell. lia. }
  assert (Hroom : is_empty_list (empty_cells_ref b0 (length b0)) = false).
  { pose proof (empty_cells_count b0 Hsq) as Htotal.
    rewrite Hcount in Htotal.
    assert (2 <= length b0)%nat by lia.
    destruct (empty_cells_ref b0 (length b0)); [simpl in Htotal; nia|done]. }
  by rewrite Hwon, Hroom.
Qed.

Lemma initial_status_consistent_witness :
  2 <= 4 /\ 2048 ≠ 0 /\ 2048 ≠ 2 /\ 2048 ≠ 4
  /\ initialize_board (PyInt 4) rng_zero
     = (Ok ([[4; 4; 0; 0]; [0; 0; 0; 0]; [0; 0; 0; 0]; [0; 0; 0; 0]],
            0, IN_PROGRESS), advance 4 rng_zero)
  /\ IN_PROGRESS = IN_PROGRESS
  /\ determine_game_status
       [[4; 4; 0; 0]; [0; 0; 0; 0]; [0; 0; 0; 0]; [0; 0; 0; 0]] 2048
     = Ok IN_PROGRESS.
Proof.
  split; [lia|]. split; [lia|]. split; [lia|]. split; [lia|].
  split; [vm_compute; reflexivity|].
  apply (initial_status_consistent 4 rng_zero 2048 _ 0 IN_PROGRESS
           (advance 4 rng_zero)); try lia.
  vm_compute; reflexivity.
Defined.

(** X18.  For size 1 the reported state is wrong: [initialize_board]
    returns [IN_PROGRESS] with a board of one cell that holds a tile, which
    [determine_game_status] never classifies as in progress; it is lost,
    unless the tile is the win tile. *)
Theorem initial_status_one_cell g w b s st g' :
  initialize_board (PyInt 1) g = (Ok (b, s, st), g') ->
  st = IN_PROGRESS
  /\ (b = [[2]] \/ b = [[4]])
  /\ determine_game_status b w
     = Ok (if cell b 0 0 =? w then GAME_WON else GAME_OVER).
Proof.
  intros Hinit.
  destruct (initialize_board_positive 1 g ltac:(lia))
    as (b0 & g0 & Hrun & Hsq & Hlen & Htiles & Hcount).
  rewrite Hrun in Hinit. injection Hinit as <- <- <- <-.
  split; [done|].
  destruct b0 as [|row [|? ?]]; try done.
  pose proof (square_rows [row] 0 row Hsq eq_refl) as Hrow.
  destruct row as [|v [|? ?]]; try done.
  apply Forall_cons in Htiles as [[Hv _]%Forall_cons _].
  assert (Hv' : v = 2 \/ v = 4).
  { destruct Hv as [->|Hv]; [done|exact Hv]. }
  split; [destruct Hv' as [->| ->]; auto|].
  assert (Hany : forall x, any_cell 1 (fun r c => cell [[x]] r c =? w)
                           = (cell [[x]] 0 0 =? w)).
  { intros x. unfold any_cell. simpl. by rewrite !orb_false_r. }
  destruct Hv' as [->| ->]; rewrite determine_game_status_if;
    cbn [length]; rewrite Hany; destruct (cell _ 0 0 =? w);
    vm_compute; reflexivity.
Qed.

Lemma initial_status_one_cell_witness :
  initialize_board (PyInt 1) rng_zero
  = (Ok ([[4]], 0, IN_PROGRESS), advance 2 rng_zero)
  /\ IN_PROGRESS = IN_PROGRESS
  /\ ([[4]] = [[2]] \/ [[4]] = [[4]])
  /\ determine_game_status [[4]] 2048
     = Ok (if cell [[4]] 0 0 =? 2048 then GAME_WON else GAME_OVER).
Proof.
  split; [vm_compute; reflexivity|].
  apply (initial_status_one_cell rng_zero 2048 [[4]] 0 IN_PROGRESS
           (advance 2 rng_zero)).
  vm_compute; reflexivity.
Defined.

End FurtherTiles.

(** ** The move endpoint *)

Section FurtherEndpoint.

Implicit Types (req : MoveRequestData.t) (resp : MoveResponseData.t) (g : rng).

Lemma moved_length (b : list (list Z)) d :
  square b = true ->
  length (unorient d (slide_left <$> orient d b)) = length b.
Proof.
  intros Hsq. rewrite <- (orient_length d (unorient d _)).
  rewrite orient_unorient by (by apply slid_square, orient_square).
  by rewrite length_fmap, orient_length.
Qed.

Lemma make_move_ragged req g :
  square (MoveRequestData.board req) = false ->
  make_move req g
  = (inl {| status_code := 400;
            detail := ("Invalid board structure in request: "%string,
                       ValueError) |}, g).
Proof.
  intros Hsq. unfold make_move. by rewrite get_board_size_spec, Hsq.
Qed.

(** The two paths of the handler on a square board. *)
Lemma make_move_square req g :
  square (MoveRequestData.board req) = true ->
  exists final_board final_score st g',
    make_move req g
    = match validate_move_response
              {| MoveResponseData.board := final_board;
                 MoveResponseData.score := final_score;
                 MoveResponseData.progress := st;
                 MoveResponseData.win_tile := MoveRequestData.win_tile req;
                 MoveResponseData.board_size := length (MoveRequestData.board req);
                 MoveResponseData.move_was_effective :=
                   existsb movable (orient (MoveRequestData.direction req)
                                           (MoveRequestData.board req));
                 MoveResponseData.message :=
                   match st with
                   | GAME_WON => Some "Congratulations! You won!"%string
                   | GAME_OVER => Some "Game Over. No more valid moves."%string
                   | IN_PROGRESS =>
                       if existsb movable (orient (MoveRequestData.direction req)
                                                  (MoveRequestData.board req))
                       then None
                       else Some "Move was not effective; board state unchanged by slide."%string
                   end |}
      with
      | Ok response => (inr response, g')
      | Raise e =>
          (inl {| status_code := 400;
                  detail := ("Error processing move: "%string, e) |}, g')
      end
    /\ determine_game_status final_board (MoveRequestData.win_tile req) = Ok st
    /\ (existsb movable (orient (MoveRequestData.direction req)
                                (MoveRequestData.board req)) = false ->
        final_board = MoveRequestData.board req
        /\ final_score = MoveRequestData.score req /\ g' = g)
    /\ (existsb movable (orient (MoveRequestData.direction req)
                                (MoveRequestData.board req)) = true ->
        exists r c v,
          (r < length (MoveRequestData.board req))%nat
          /\ (c < length (MoveRequestData.board req))%nat
          /\ cell (unorient (MoveRequestData.direction req)
                     (slide_left <$> orient (MoveRequestData.direction req)
                                            (MoveRequestData.board req))) r c = 0
          /\ (v = 2 \/ v = 4)
          /\ final_board
             = set_cell (unorient (MoveRequestData.direction req)
                           (slide_left <$> orient (MoveRequestData.direction req)
                                                  (MoveRequestData.board req)))
                        r c v
          /\ final_score
             = MoveRequestData.score req
               + sum_list (line_score <$> orient (MoveRequestData.direction req)
                                                 (MoveRequestData.board req))
          /\ g' = advance 2 g).
Proof.
  destruct req as [b sc d w]. cbn [MoveRequestData.board MoveRequestData.score
    MoveRequestData.direction MoveRequestData.win_tile].
  intros Hsq. unfold make_move.
  cbn [MoveRequestData.board MoveRequestData.score
       MoveRequestData.direction MoveRequestData.win_tile].
  rewrite get_board_size_spec, Hsq, process_move_spec, copy_board_id by done.
  set (slid := unorient d (slide_left <$> orient d b)).
  assert (Hslid : square slid = true)
    by (by apply unorient_square, slid_square, orient_square).
  destruct (existsb movable (orient d b)) eqn:Hch.
  - pose proof (effective_move_room b d Hsq Hch) as Hroom. fold slid in Hroom.
    rewrite <- (moved_length b d Hsq) in Hroom. fold slid in Hroom.
    destruct (add_random_tile_draws slid g Hslid Hroom)
      as (r & c & v & Hin & Hv & Hadd).
    apply empty_cells_elem in Hin as (Hr & Hc & Hz).
    unfold slid in Hr, Hc. rewrite moved_length in Hr, Hc by done.
    rewrite Hadd. cbv iota beta.
    rewrite determine_game_status_if, set_cell_square by done.
    eexists _, _, _, _. split; [reflexivity|].
    split; [by rewrite determine_game_status_if, set_cell_square|].
    split; [done|]. intros _. by exists r, c, v.
  - rewrite determine_game_status_if, Hsq.
    eexists _, _, _, _. split; [reflexivity|].
    split; [by rewrite determine_game_status_if, Hsq|].
    split; [done|]. done.
Qed.

Lemma make_move_ok_square req g resp g' :
  make_move req g = (inr resp, g') ->
  square (MoveRequestData.board req) = true.
Proof.
  destruct (square (MoveRequestData.board req)) eqn:Hsq; [done|].
  by rewrite make_move_ragged.
Qed.

(** What a response says about the run that produced it. *)
Lemma make_move_response req g resp g' :
  make_move req g = (inr resp, g') ->
  exists final_board final_score st,
    resp = {| MoveResponseData.board := final_board;
              MoveResponseData.score := final_score;
              MoveResponseData.progress := st;
              MoveResponseData.win_tile := MoveRequestData.win_tile req;
              MoveResponseData.board_size := length (MoveRequestData.board req);
              MoveResponseData.move_was_effective :=
                existsb movable (orient (MoveRequestData.direction req)
                                        (MoveRequestData.board req));
              MoveResponseData.message :=
                match st with
                | GAME_WON => Some "Congratulations! You won!"%string
                | GAME_OVER => Some "Game Over. No more valid moves."%string
                | IN_PROGRESS =>
                    if existsb movable (orient (MoveRequestData.direction req)
                                               (MoveRequestData.board req))
                    then None
                    else Some "Move was not effective; board state unchanged by slide."%string
                end |}
    /\ 0 <= final_score
    /\ determine_game_status final_board (MoveRequestData.win_tile req) = Ok st
    /\ (existsb movable (orient (MoveRequestData.direction req)
                                (MoveRequestData.board req)) = false ->
        final_board = MoveRequestData.board req
        /\ final_score = MoveRequestData.score req /\ g' = g)
    /\ (existsb movable (orient (MoveRequestData.direction req)
                                (MoveRequestData.board req)) = true ->
        exists r c v,
          (r < length (MoveRequestData.board req))%nat
          /\ (c < length (MoveRequestData.board req))%nat
          /\ cell (unorient (MoveRequestData.direction req)
                     (slide_left <$> orient (MoveRequestData.direction req)
                                            (MoveRequestData.board req))) r c = 0
          /\ (v = 2 \/ v = 4)
          /\ final_board
             = set_cell (unorient (MoveRequestData.direction req)
                           (slide_left <$> orient (MoveRequestData.direction req)
                                                  (MoveRequestData.board req)))
                        r c v
          /\ final_score
             = MoveRequestData.score req
               + sum_list (line_score <$> orient (MoveRequestData.direction req)
                                                 (MoveRequestData.board req))
          /\ g' = advance 2 g).
Proof.
  intros Hrun. pose proof (make_move_ok_square _ _ _ _ Hrun) as Hsq.
  destruct (make_move_square req g Hsq)
    as (fb & fs & st & g1 & Hrun' & Hst & Hstay & Hmoved).
  rewrite Hrun' in Hrun. unfold validate_move_response in Hrun.
  cbn [MoveResponseData.score MoveResponseData.win_tile
       MoveResponseData.board_size] in Hrun.
  destruct (0 <=? fs) eqn:Hfs; [|done].
  destruct (_ && _); [|done]. injection Hrun as <- <-.
  exists fb, fs, st. split; [done|]. split; [lia|]. done.
Qed.

(** X19.  The endpoint answers a ragged or empty board with status 400 and
    the detail prefix of the board check, without touching the random
    source.  On every other board it runs [process_move], and draws twice
    from the random source when the move changed the board; it then answers
    with a response exactly when the final score is not negative and the
    win tile is positive, and otherwise with status 400 and the detail
    prefix of the move processing. *)
Theorem make_move_outcome req g :
  (ragged (MoveRequestData.board req) ->
   make_move req g
   = (inl {| status_code := 400;
             detail := ("Invalid board structure in request: "%string,
                        ValueError) |}, g))
  /\ (~ ragged (MoveRequestData.board req) ->
      exists slid score_increase changed,
        process_move (MoveRequestData.board req) (MoveRequestData.direction req)
        = Ok (slid, score_increase, changed)
        /\ let final_score :=
             if changed then MoveRequestData.score req + score_increase
             else MoveRequestData.score req in
           let g' := if changed then advance 2 g else g in
           if (0 <=? final_score) && (0 <? MoveRequestData.win_tile req)
           then exists resp,
                  make_move req g = (inr resp, g')
                  /\ MoveResponseData.score resp = final_score
           else make_move req g
                = (inl {| status_code := 400;
                          detail := ("Error processing move: "%string,
                                     ValueError) |}, g')).
Proof.
  split.
  - intros Hsq%square_false_ragged. by apply make_move_ragged.
  - intros Hsq%square_true_not_ragged.
    destruct (make_move_square req g Hsq)
      as (fb & fs & st & g1 & Hrun & _ & Hstay & Hmoved).
    pose proof (square_pos _ Hsq) as Hpos. apply Nat.ltb_lt in Hpos.
    unfold validate_move_response in Hrun.
    cbn [MoveResponseData.score MoveResponseData.win_tile
         MoveResponseData.board_size] in Hrun.
    rewrite Hpos, andb_true_r in Hrun.
    eexists _, _, _. split; [by rewrite process_move_spec|].
    destruct (existsb movable _) eqn:Hch; cbv zeta.
    + destruct (Hmoved eq_refl) as (r & c & v & _ & _ & _ & _ & _ & -> & ->).
      destruct (_ && _); [|done]. eexists. by split.
    + destruct (Hstay eq_refl) as (_ & -> & ->).
      destruct (_ && _); [|done]. eexists. by split.
Qed.

(** The score constraint of the response model at work: the merge of two
    negative cells drives the score below zero, and the request is answered
    with status 400 after the two draws of the new tile. *)
Example make_move_negative_score :
  make_move request_negative rng_zero
  = (inl {| status_code := 400;
            detail := ("Error processing move: "%string, ValueError) |},
     advance 2 rng_zero).
Proof. vm_compute; reflexivity. Qed.

(** X20.  The response echoes the request where the source says so and is
    consistent with the core: the board size is the number of rows of the
    request's board, the win tile is the request's, [move_was_effective] is
    what [is_move_possible_in_direction] answers for the request, the
    progress is [determine_game_status] of the returned board, and the
    message is the win text, the loss text, the text of an ineffective move,
    or none, in that order of precedence. *)
Theorem make_move_response_fields req g resp g' :
  make_move req g = (inr resp, g') ->
  MoveResponseData.board_size resp = length (MoveRequestData.board req)
  /\ MoveResponseData.win_tile resp = MoveRequestData.win_tile req
  /\ is_move_possible_in_direction (MoveRequestData.board req)
                                   (MoveRequestData.direction req)
     = Ok (MoveResponseData.move_was_effective resp)
  /\ determine_game_status (MoveResponseData.board resp)
                           (MoveRequestData.win_tile req)
     = Ok (MoveResponseData.progress resp)
  /\ MoveResponseData.message resp
     = match MoveResponseData.progress resp with
       | GAME_WON => Some "Congratulations! You won!"%string
       | GAME_OVER => Some "Game Over. No more valid moves."%string
       | IN_PROGRESS =>
           if MoveResponseData.move_was_effective resp then None
           else Some "Move was not effective; board state unchanged by slide."%string
       end.
Proof.
  intros Hrun. pose proof (make_move_ok_square _ _ _ _ Hrun) as Hsq.
  destruct (make_move_response _ _ _ _ Hrun)
    as (fb & fs & st & -> & _ & Hst & _).
  cbn [MoveResponseData.board MoveResponseData.board_size
       MoveResponseData.win_tile MoveResponseData.progress
       MoveResponseData.move_was_effective MoveResponseData.message].
  repeat split; try done. by rewrite is_move_possible_spec, Hsq.
Qed.

(** X21.  A move that is not effective changes nothing: the response
    carries the board and the score of the request, and the random source
    is left as it was. *)
Theorem make_move_ineffective req g resp g' :
  make_move req g = (inr resp, g') ->
  MoveResponseData.move_was_effective resp = false ->
  MoveResponseData.board resp = MoveRequestData.board req
  /\ MoveResponseData.score resp = MoveRequestData.score req
  /\ g' = g.
Proof.
  intros Hrun.
  destruct (make_move_response _ _ _ _ Hrun)
    as (fb & fs & st & -> & _ & _ & Hstay & _).
  cbn [MoveResponseData.board MoveResponseData.score
       MoveResponseData.move_was_effective].
  intros Hch. by destruct (Hstay Hch) as (-> & -> & ->).
Qed.

(** X22.  An effective move is the slide of [process_move] followed by
    exactly one new tile: the score grows by the score delta of the slide,
    one cell that the slide left empty receives 2 or 4, every other cell is
    the slide's, and the random source is two draws further. *)
Theorem make_move_effective req g resp g' :
  make_move req g = (inr resp, g') ->
  MoveResponseData.move_was_effective resp = true ->
  exists slid score_increase r c v,
    process_move (MoveRequestData.board req) (MoveRequestData.direction req)
    = Ok (slid, score_increase, true)
    /\ MoveResponseData.score resp = MoveRequestData.score req + score_increase
    /\ (r < length slid)%nat /\ (c < length slid)%nat
    /\ cell slid r c = 0
    /\ (v = 2 \/ v = 4)
    /\ cell (MoveResponseData.board resp) r c = v
    /\ (forall r' c', (r', c') ≠ (r, c) ->
                      cell (MoveResponseData.board resp) r' c' = cell slid r' c')
    /\ length (MoveResponseData.board resp) = length slid
    /\ g' = advance 2 g.
Proof.
  intros Hrun. pose proof (make_move_ok_square _ _ _ _ Hrun) as Hsq.
  destruct (make_move_response _ _ _ _ Hrun)
    as (fb & fs & st & -> & _ & _ & _ & Hmoved).
  cbn [MoveResponseData.board MoveResponseData.score
       MoveResponseData.move_was_effective].
  intros Hch. destruct (Hmoved Hch) as (r & c & v & Hr & Hc & Hz & Hv & -> & -> & ->).
  set (b := MoveRequestData.board req) in *.
  set (d := MoveRequestData.direction req) in *.
  pose proof (moved_length b d Hsq) as Hlen.
  assert (Hslid : square (unorient d (slide_left <$> orient d b)) = true)
    by (by apply unorient_square, slid_square, orient_square).
  eexists _, _, r, c, v.
  split; [rewrite process_move_spec, Hch by done; reflexivity|].
  split; [done|]. rewrite Hlen. split; [done|]. split; [done|].
  split; [done|]. split; [done|].
  split; [apply set_cell_same; [lia|rewrite square_row_total by (done || lia); lia]|].
  split; [intros r' c'; apply set_cell_other|].
  split; [by rewrite set_cell_length|done].
Qed.

(** X23.  A request that satisfies its model, with a well-formed board,
    gets a response that satisfies its own model: the board is well formed
    and of the same size, the score is the request's or larger, the board
    size and the win tile are positive; the board holds at most one tile
    more than the request's. *)
Theorem make_move_valid req g resp g' :
  well_formed (MoveRequestData.board req) = true ->
  0 <= MoveRequestData.score req ->
  0 < MoveRequestData.win_tile req ->
  make_move req g = (inr resp, g') ->
  well_formed (MoveResponseData.board resp) = true
  /\ length (MoveResponseData.board resp) = length (MoveRequestData.board req)
  /\ MoveRequestData.score req <= MoveResponseData.score resp
  /\ (0 < MoveResponseData.board_size resp)%nat
  /\ 0 < MoveResponseData.win_tile resp
  /\ (count_nonzero (MoveResponseData.board resp)
      <= S (count_nonzero (MoveRequestData.board req)))%nat.
Proof.
  intros Hwf Hscore Hwin Hrun.
  apply well_formed_iff in Hwf as Hwf'. destruct Hwf' as [Hsq Hok].
  destruct (make_move_response _ _ _ _ Hrun)
    as (fb & fs & st & -> & _ & _ & Hstay & Hmoved).
  cbn [MoveResponseData.board MoveResponseData.score
       MoveResponseData.board_size MoveResponseData.win_tile].
  set (b := MoveRequestData.board req) in *.
  set (d := MoveRequestData.direction req) in *.
  pose proof (square_pos b Hsq) as Hpos.
  destruct (existsb movable (orient d b)) eqn:Hch.
  - destruct (Hmoved eq_refl) as (r & c & v & Hr & Hc & Hz & Hv & -> & -> & _).
    pose proof (orient_square d b Hsq) as Hosq.
    pose proof (slid_square _ Hosq) as Hssq.
    pose proof (tiles_ok_orient d b Hok) as Hook.
    assert (Hslid : square (unorient d (slide_left <$> orient d b)) = true)
      by (by apply unorient_square).
    pose proof (moved_length b d Hsq) as Hlen.
    split.
    { apply well_formed_iff. split; [by apply set_cell_square|].
      apply set_cell_Forall; [|by apply new_tile_ok].
      by apply tiles_ok_unorient, tiles_ok_slid. }
    split; [by rewrite set_cell_length|].
    split.
    { pose proof (board_score_bounds (orient d b)
                    (tiles_ok_rows_nonneg _ Hook)). lia. }
    split; [done|]. split; [done|].
    rewrite count_nonzero_set_cell;
      [|lia|rewrite square_row_total by (done || lia); lia|done|destruct Hv; lia].
    apply le_n_S. rewrite count_unorient by done.
    rewrite <- (count_orient d b) by done.
    by apply count_slid, tiles_ok_rows_nonneg.
  - destruct (Hstay eq_refl) as (-> & -> & _).
    repeat split; try done; lia.
Qed.

Lemma make_move_response_fields_witness :
  make_move request_B rng_zero = (inr response_B, advance 2 rng_zero)
  /\ MoveResponseData.board_size response_B
     = length (MoveRequestData.board request_B)
  /\ MoveResponseData.win_tile response_B = MoveRequestData.win_tile request_B
  /\ is_move_possible_in_direction (MoveRequestData.board request_B)
                                   (MoveRequestData.direction request_B)
     = Ok (MoveResponseData.move_was_effective response_B)
  /\ determine_game_status (MoveResponseData.board response_B)
                           (MoveRequestData.win_tile request_B)
     = Ok (MoveResponseData.progress response_B)
  /\ MoveResponseData.message response_B
     = match MoveResponseData.progress response_B with
       | GAME_WON => Some "Congratulations! You won!"%string
       | GAME_OVER => Some "Game Over. No more valid moves."%string
       | IN_PROGRESS =>
           if MoveResponseData.move_was_effective response_B then None
           else Some "Move was not effective; board state unchanged by slide."%string
       end.
Proof.
  split; [vm_compute; reflexivity|].
  apply (make_move_response_fields request_B rng_zero response_B
           (advance 2 rng_zero)).
  vm_compute; reflexivity.
Defined.

Lemma make_move_ineffective_witness :
  make_move request_C rng_zero = (inr response_C, rng_zero)
  /\ MoveResponseData.move_was_effective response_C = false
  /\ MoveResponseData.board response_C = MoveRequestData.board request_C
  /\ MoveResponseData.score response_C = MoveRequestData.score request_C
  /\ rng_zero = rng_zero.
Proof.
  split; [vm_compute; reflexivity|]. split; [reflexivity|].
  apply (make_move_ineffective request_C rng_zero response_C rng_zero);
    vm_compute; reflexivity.
Defined.

Lemma make_move_effective_witness :
  make_move request_B rng_zero = (inr response_B, advance 2 rng_zero)
  /\ MoveResponseData.move_was_effective response_B = true
  /\ exists slid score_increase r c v,
       process_move (MoveRequestData.board request_B)
                    (MoveRequestData.direction request_B)
       = Ok (slid, score_increase, true)
       /\ MoveResponseData.score response_B
          = MoveRequestData.score request_B + score_increase
       /\ (r < length slid)%nat /\ (c < length slid)%nat
       /\ cell slid r c = 0
       /\ (v = 2 \/ v = 4)
       /\ cell (MoveResponseData.board response_B) r c = v
       /\ (forall r' c', (r', c') ≠ (r, c) ->
                         cell (MoveResponseData.board response_B) r' c'
                         = cell slid r' c')
       /\ length (MoveResponseData.board response_B) = length slid
       /\ advance 2 rng_zero = advance 2 rng_zero.
Proof.
  split; [vm_compute; reflexivity|]. split; [reflexivity|].
  apply (make_move_effective request_B rng_zero response_B (advance 2 rng_zero));
    vm_compute; reflexivity.
Defined.

Lemma make_move_valid_witness :
  well_formed (MoveRequestData.board request_B) = true
  /\ 0 <= MoveRequestData.score request_B
  /\ 0 < MoveRequestData.win_tile request_B
  /\ make_move request_B rng_zero = (inr response_B, advance 2 rng_zero)
  /\ well_formed (MoveResponseData.board response_B) = true
  /\ length (MoveResponseData.board response_B)
     = length (MoveRequestData.board request_B)
  /\ MoveRequestData.score request_B <= MoveResponseData.score response_B
  /\ (0 < MoveResponseData.board_size response_B)%nat
  /\ 0 < MoveResponseData.win_tile response_B
  /\ (count_nonzero (MoveResponseData.board response_B)
      <= S (count_nonzero (MoveRequestData.board request_B)))%nat.
Proof.
  split; [vm_compute; reflexivity|]. split; [simpl; lia|].
  split; [simpl; lia|]. split; [vm_compute; reflexivity|].
  apply (make_move_valid request_B rng_zero response_B (advance 2 rng_zero));
    [vm_compute; reflexivity|simpl; lia|simpl; lia|vm_compute; reflexivity].
Defined.

End FurtherEndpoint.
